(** * Kellerbingo: the ticket vision pipeline of [services/geminiService.ts]

    A shallow embedding of the scanner (binariser, morphological cleaner,
    component detector, grid segmenter, composite assembler and recognition
    post-processor) together with the properties its specification states,
    and of the game state that calls it ([App.tsx], [components/TicketCard.tsx]
    and [components/NumberInput.tsx]) with further properties of both.

    Conventions of the embedding.
    - A JavaScript [number] that is a loop counter, an array index, a pixel
      value or the result of [Math.floor]/[parseInt] is a [Z] (or a [nat] when
      it only counts upwards from a non-negative start).  Every other number is
      an exact rational [Q]: the binary64 rounding of the engine is not
      modelled.  The thresholds of the detector, the chunking, the ink test
      and the post-processor compare integers, halves and quotients of small
      integers against constants such as 0.2, 0.5 or 0.01, and on those
      operands the rounded and the exact comparison agree; the averages and
      cluster means of [interpolateGrid] are idealised.  So are the scale
      [300 / width] of the detector and the threshold [0.85 x mean] of the
      binariser, which the engine rounds: for some widths (281, 291, 562,
      ...) its grid is 299 cells wide where it is 300 here, a coordinate
      scaled back to the image can differ by one, and a pixel whose red value
      is the exact threshold is Ink there and Paper here.  The properties
      that speak of the grid either hold for both values or are stated with
      [sW], [sH] and [scale] rather than with their values.
    - A division by zero is 0 in [Q], where the engine gives [Infinity] or
      [NaN].  The source can divide by zero for an image of width 0 (the scan
      is then empty in both) and for an identifier field of height 0 (only
      the width of the sheet depends on it).
    - A typed array is a [list Z]; reading outside it gives [None]
      ([undefined]), which is equal to no pixel value.
    - A string is a [string] whose bytes are read as the code points
      U+0000..U+00FF (the recogniser is configured with an ASCII whitelist).
    - [Array.prototype.sort] is a stable sort; it is modelled by a stable
      insertion sort, which returns the same array for the comparators used
      here.
    - The timeout is the one exception of the model.  The browser refuses an
      empty rectangle in [getImageData], which ends [generateCompositeCanvas]
      and the analysis for a cell whose crop is less than one pixel wide or
      high; here such a crop reads as an empty array and the cell counts as
      blank.  The model so builds a sheet and returns in more cases than the
      source, with the same values where the source returns; a property for
      which that matters leaves the empty rectangle out or speaks of the
      analyses that return.
    - What the browser does behind the canvas API (decoding the image, the
      scaled [drawImage], the overlay and the debug image) is not modelled;
      the recogniser, [Math.random] and the keys drawn for new tickets are
      inputs. *)

From Stdlib Require Import ZArith QArith Qround Lia Lqa String Ascii Sorted.
From stdpp Require Import base list pretty gmap.

Local Open Scope Z_scope.

(** ** Numbers *)

Definition Qltb (a b : Q) : bool := negb (Qle_bool b a).
Definition Qgtb (a b : Q) : bool := Qltb b a.

(** [Math.abs] and the literals of the source. *)
Definition Qabs' (a : Q) : Q := if Qltb a 0 then (- a)%Q else a.
Definition Qmin (a b : Q) : Q := if Qltb b a then b else a.
Definition ofZ (z : Z) : Q := inject_Z z.

(** ** Sorting

    [xs.sort(cmp)] with a comparator [cmp a b = key a - key b]: [lt a b] says
    that the comparator is negative.  An element is put in front of the
    sorted rest unless that starts with a strictly smaller one, so equal
    elements keep their order. *)

Section Sort.
Context {A : Type} (lt : A -> A -> bool).

Fixpoint insert_sorted (a : A) (l : list A) : list A :=
  match l with
  | [] => [a]
  | b :: l' => if lt b a then b :: insert_sorted a l' else a :: b :: l'
  end.

Definition js_sort (l : list A) : list A := foldr insert_sorted [] l.

End Sort.

(** ** Text

    The helpers below are the regular expressions and string methods the
    post-processor applies, each written as the scan it performs. *)

Local Open Scope char_scope.

Definition code (c : ascii) : N := N_of_ascii c.

(** [[0-9]] *)
Definition isDigit (c : ascii) : bool :=
  (48 <=? code c)%N && (code c <=? 57)%N.

(** [[a-zA-Z]] *)
Definition isAlpha (c : ascii) : bool :=
  ((65 <=? code c)%N && (code c <=? 90)%N)
  || ((97 <=? code c)%N && (code c <=? 122)%N).

(** [\s] on U+0000..U+00FF: TAB, LF, VT, FF, CR, SP and NBSP. *)
Definition isSpace (c : ascii) : bool :=
  ((9 <=? code c)%N && (code c <=? 13)%N)
  || (code c =? 32)%N || (code c =? 160)%N.

(** [[IlOSBZAGT]] under the [i] flag. *)
Definition isNumberLike (c : ascii) : bool :=
  match c with
  | "I" | "i" | "L" | "l" | "O" | "o" | "S" | "s" | "B" | "b"
  | "Z" | "z" | "A" | "a" | "G" | "g" | "T" | "t" => true
  | _ => false
  end.

(** [(s.match(/[class]/g) || []).length] *)
Fixpoint countMatches (p : ascii -> bool) (s : string) : Z :=
  match s with
  | EmptyString => 0
  | String c s' => (if p c then 1 else 0) + countMatches p s'
  end.

(** [s.replace(/[class]/g, '')] *)
Fixpoint removeAll (p : ascii -> bool) (s : string) : string :=
  match s with
  | EmptyString => EmptyString
  | String c s' => if p c then removeAll p s' else String c (removeAll p s')
  end.

(** [s.replace(/[class]/g, r)] for a one-character replacement [r]. *)
Fixpoint replaceAll (p : ascii -> bool) (r : ascii) (s : string) : string :=
  match s with
  | EmptyString => EmptyString
  | String c s' => String (if p c then r else c) (replaceAll p r s')
  end.

Definition isChar (a : ascii) (c : ascii) : bool := (code c =? code a)%N.

(** [s.toUpperCase()] on U+0000..U+00FF.  The sharp s becomes "SS"; the two
    letters whose capital lies above U+00FF (y with diaeresis and the micro
    sign) are left in place, which no later step can tell apart: everything
    that is not a digit or one of the substituted capitals is stripped. *)
Definition upperChar (c : ascii) : string :=
  let n := code c in
  if ((97 <=? n)%N && (n <=? 122)%N) then String (ascii_of_N (n - 32)) EmptyString
  else if (n =? 223)%N then "SS"%string
  else if ((224 <=? n)%N && (n <=? 254)%N && negb (n =? 247)%N)
       then String (ascii_of_N (n - 32)) EmptyString
  else String c EmptyString.

Fixpoint toUpperCase (s : string) : string :=
  match s with
  | EmptyString => EmptyString
  | String c s' => (upperChar c ++ toUpperCase s')%string
  end.

(** [s.trim()] *)
Fixpoint trimStart (s : string) : string :=
  match s with
  | String c s' => if isSpace c then trimStart s' else s
  | EmptyString => EmptyString
  end.

Fixpoint trimEnd (s : string) : string :=
  match s with
  | EmptyString => EmptyString
  | String c s' =>
      match trimEnd s' with
      | EmptyString => if isSpace c then EmptyString else String c EmptyString
      | t => String c t
      end
  end.

Definition trim (s : string) : string := trimEnd (trimStart s).

(** [parseInt(s)] for a string of decimal digits: [None] is [NaN]. *)
Definition digitVal (c : ascii) : Z := Z.of_N (code c) - 48.

Fixpoint parseDigits (acc : Z) (s : string) : Z :=
  match s with
  | EmptyString => acc
  | String c s' => parseDigits (10 * acc + digitVal c) s'
  end.

Definition parseInt (s : string) : option Z :=
  match s with
  | EmptyString => None
  | _ => Some (parseDigits 0 s)
  end.

Local Close Scope char_scope.

(** ** Data model

    The fields [x], [y], [w], [h] of a [Rect] are [rx], [ry], [rw], [rh]
    here, since the row objects have fields [y] and [h] of their own. *)

Record Rect := mkRect { rx : Q; ry : Q; rw : Q; rh : Q }.

Record DetectedWord := mkWord {
  text : string;
  bbox : Rect;
  confidence : Q
}.

(** The row objects of [detectTicketsInImage] and the rows [interpolateGrid]
    returns. *)
Record Row := mkRow { y : Q; h : Q; cells : list Rect }.
Record GridRow := mkGridRow { gcells : list Rect; rowY : Q; rowH : Q }.

(** A ticket candidate: [{ rows }]. *)
Record Ticket := mkTicket { rows : list Row }.

(** Pixel values of a binary canvas read through a [Uint32Array]. *)
Definition black : Z := 0xFF000000.
Definition white : Z := 0xFFFFFFFF.

(** [arr[i]]: [None] is [undefined]. *)
Definition px (arr : list Z) (i : Z) : option Z :=
  if i <? 0 then None else arr !! Z.to_nat i.

(** [arr[i] === v] *)
Definition pxIs (arr : list Z) (i : Z) (v : Z) : bool :=
  match px arr i with
  | Some u => u =? v
  | None => false
  end.

(** [arr[i] = v] on a typed array: a write outside the array is ignored. *)
Definition pxSet (arr : list Z) (i : Z) (v : Z) : list Z :=
  if i <? 0 then arr else <[Z.to_nat i := v]> arr.

(** ** Binariser: [createBinaryCanvas]

    [img] is the decoded raster: its size and the RGBA bytes
    [getImageData] returns for it. *)

Record Image := mkImage { imgWidth : Z; imgHeight : Z; imgData : list Z }.

Record BinaryCanvas := mkBinaryCanvas {
  cvWidth : Z;
  cvHeight : Z;
  cvPixels : list Z;     (* the canvas after [putImageData], as [Uint32Array] *)
  binaryData : list Z    (* 0 = Ink, 1 = Paper *)
}.

(** The values [start, start + step, ...] below [stop]: the counter of
    [for (let v = start; v < stop; v += step)]. *)
Definition steps (start stop step : Z) : list Z :=
  map (fun k => start + Z.of_nat k * step)
      (seq 0 (Z.to_nat ((stop - start + step - 1) / step))).

Definition sampleRed (img : Image) : Q * Z :=
  let step := 20 in
  fold_left (fun acc y =>
    fold_left (fun '(sumR, count) x =>
      let i := (y * imgWidth img + x) * 4 in
      ((sumR + ofZ (default 0%Z (px (imgData img) i)))%Q, count + 1))
      (steps 0 (imgWidth img) step) acc)
    (steps 0 (imgHeight img) step) (0%Q, 0).

Definition createBinaryCanvas (img : Image) : BinaryCanvas :=
  let '(sumR, count) := sampleRed img in
  let avgR : Q := if 0 <? count then (sumR / ofZ count)%Q else 128%Q in
  let threshold : Q := (avgR * (85 # 100))%Q in
  let isDark (i : Z) : bool :=
    Qltb (ofZ (default 0 (px (imgData img) (i * 4)))) threshold in
  let idxs := seqZ 0 (imgWidth img * imgHeight img) in
  {| cvWidth := imgWidth img;
     cvHeight := imgHeight img;
     cvPixels := map (fun i => if isDark i then black else white) idxs;
     binaryData := map (fun i => if isDark i then 0 else 1) idxs |}.

(** ** Morphological cleaner: [erodeCanvas]

    [data] is what [getImageData(0, 0, width, height)] reads from the canvas
    and the result is what [putImageData] writes back. *)

Definition countIf (bs : list bool) : Z :=
  fold_left (fun n (b : bool) => if b then n + 1 else n) bs 0.

(** [x >= r.x && x < r.x + r.w && y >= r.y && y < r.y + r.h] *)
Definition inRect (x y : Z) (r : Rect) : bool :=
  Qle_bool (rx r) (ofZ x) && Qltb (ofZ x) (rx r + rw r)
  && Qle_bool (ry r) (ofZ y) && Qltb (ofZ y) (ry r + rh r).

(** The body of the two nested loops, for the pixel [(x, y)]. *)
Definition erodeStep (iter : nat) (width : Z) (protectedRects : list Rect)
    (inputData outputData : list Z) (x y : Z) : list Z :=
  let isProtected := existsb (inRect x y) protectedRects in
  let i := y * width + x in
  if isProtected then pxSet outputData i (default 0 (px inputData i))
  else if pxIs inputData i black then
    match iter with
    | O =>
        let hasWhiteNeighbor :=
          pxIs inputData (i - 1) white || pxIs inputData (i + 1) white
          || pxIs inputData (i - width) white
          || pxIs inputData (i + width) white in
        if negb hasWhiteNeighbor then pxSet outputData i black else outputData
    | S _ =>
        let neighbors := countIf
          [ pxIs inputData (i - 1) black; pxIs inputData (i + 1) black;
            pxIs inputData (i - width) black; pxIs inputData (i + width) black;
            pxIs inputData (i - width - 1) black;
            pxIs inputData (i - width + 1) black;
            pxIs inputData (i + width - 1) black;
            pxIs inputData (i + width + 1) black ] in
        if 3 <=? neighbors then pxSet outputData i black else outputData
    end
  else outputData.

(** One iteration of the outer [for (iter ...)] loop. *)
Definition erodePass (iter : nat) (width height : Z)
    (protectedRects : list Rect) (inputData : list Z) : list Z :=
  let outputData := replicate (Z.to_nat (width * height)) white in
  fold_left (fun out y =>
    fold_left (fun out x =>
      erodeStep iter width protectedRects inputData out x y)
      (seqZ 1 (width - 2)) out)
    (seqZ 1 (height - 2)) outputData.

Definition erodeCanvas (data : list Z) (width height : Z)
    (protectedRects : list Rect) (iterations : nat) : list Z :=
  fold_left (fun currentImageData iter =>
               erodePass iter width height protectedRects currentImageData)
            (seq 0 iterations) data.

(** ** Component detector: [findWhiteComponents] *)

Record FillState := mkFill {
  queue : list (Z * Z);    (* the stack of pending cells, top first *)
  visited : list Z;
  minX : Z; maxX : Z; minY : Z; maxY : Z
}.

Section Detector.
Variables (binData : list Z) (width height : Z).

Definition targetWidth : Z := 300.
Definition scale : Q := (ofZ targetWidth / ofZ width)%Q.
Definition sW : Z := Qfloor (ofZ width * scale).
Definition sH : Z := Qfloor (ofZ height * scale).

Definition idx (x y : Z) : Z := y * sW + x.
Definition originalIdx (x y : Z) : Z :=
  let ox := Qfloor (ofZ x / scale) in
  let oy := Qfloor (ofZ y / scale) in
  oy * width + ox.

(** The body of [for (let i = 0; i < neighbors.length; i += 2)]. *)
Definition visitNeighbor (st : list Z * list (Z * Z)) (n : Z * Z)
    : list Z * list (Z * Z) :=
  let '(vis, q) := st in
  let '(nx, ny) := n in
  if (0 <=? nx) && (nx <? sW) && (0 <=? ny) && (ny <? sH) then
    let nIdx := idx nx ny in
    if pxIs vis nIdx 0 then
      if pxIs binData (originalIdx nx ny) 1
      then (pxSet vis nIdx 1, (nx, ny) :: q)
      else st
    else st
  else st.

(** One turn of [while (queue.length > 0)]. *)
Definition fillStep (cx cy : Z) (q : list (Z * Z)) (st : FillState)
    : FillState :=
  let neighbors := [ (cx + 1, cy); (cx - 1, cy); (cx, cy + 1); (cx, cy - 1) ] in
  let '(vis, q') := fold_left visitNeighbor neighbors (visited st, q) in
  {| queue := q'; visited := vis;
     minX := if cx <? minX st then cx else minX st;
     maxX := if maxX st <? cx then cx else maxX st;
     minY := if cy <? minY st then cy else minY st;
     maxY := if maxY st <? cy then cy else maxY st |}.

(** The [while] loop, for at most [fuel] turns. *)
Fixpoint floodFill (fuel : nat) (st : FillState) : FillState :=
  match fuel with
  | O => st
  | S fuel' =>
      match queue st with
      | [] => st
      | (cx, cy) :: q => floodFill fuel' (fillStep cx cy q st)
      end
  end.

Definition truthy (v : option Z) : bool :=
  match v with
  | Some n => negb (n =? 0)
  | None => false
  end.

(** The filter on a finished region and the rectangle pushed for it. *)
Definition keepComponent (w h : Z) : bool :=
  let ratio : Q := (ofZ w / ofZ h)%Q in
  let isSquareish := Qgtb ratio (6 # 10) && Qltb ratio (25 # 10) in
  let isBigEnough :=
    Qgtb (ofZ w) (ofZ sW * (3 # 100)) && Qgtb (ofZ h) (ofZ sH * (3 # 100)) in
  let isNotTooBig := Qltb (ofZ w) (ofZ sW * (25 # 100)) in
  isSquareish && isBigEnough && isNotTooBig.

Definition componentRect (st : FillState) (w h : Z) : Rect :=
  {| rx := ofZ (Qfloor (ofZ (minX st) / scale));
     ry := ofZ (Qfloor (ofZ (minY st) / scale));
     rw := ofZ (Qfloor (ofZ w / scale));
     rh := ofZ (Qfloor (ofZ h / scale)) |}.

(** The body of the two outer loops, for the cell [(x, y)].  The fill is
    given [sW * sH] turns, one for every cell it can ever push. *)
Definition scanCell (st : list Z * list Rect) (x y : Z)
    : list Z * list Rect :=
  let '(vis, components) := st in
  if truthy (px vis (idx x y)) then st
  else if pxIs binData (originalIdx x y) 0
  then (pxSet vis (idx x y) 1, components)
  else
    let st0 := {| queue := [(x, y)]; visited := pxSet vis (idx x y) 1;
                  minX := x; maxX := x; minY := y; maxY := y |} in
    let st1 := floodFill (Z.to_nat (sW * sH)) st0 in
    let w := maxX st1 - minX st1 + 1 in
    let h := maxY st1 - minY st1 + 1 in
    (visited st1,
     if keepComponent w h then components ++ [componentRect st1 w h]
     else components).

Definition scanAll : list Z * list Rect :=
  fold_left (fun st y =>
    fold_left (fun st x => scanCell st x y) (seqZ 0 sW) st)
    (seqZ 0 sH) (replicate (Z.to_nat (sW * sH)) 0, []).

Definition findWhiteComponents : list Rect := snd scanAll.

End Detector.

(** ** Grid reconstruction: [interpolateGrid] *)

(** [while (columnsX.length < 6 && columnsX.length > 0)]: every turn appends
    one column, so six turns are more than the loop can take. *)
Fixpoint padColumns (fuel : nat) (avgW : Q) (columnsX : list Q) : list Q :=
  match fuel with
  | O => columnsX
  | S fuel' =>
      if (length columnsX <? 6)%nat && (0 <? length columnsX)%nat then
        let lastX := default 0%Q (last columnsX) in
        padColumns fuel' avgW (columnsX ++ [(lastX + avgW * (105 # 100))%Q])
      else columnsX
  end.

(** The greedy one-dimensional clustering of the sorted [x] positions. *)
Definition clusterStep (avgW : Q) (st : list Q * Q * Z) (c : Rect)
    : list Q * Q * Z :=
  let '(columnsX, currentClusterX, clusterCount) := st in
  if Qltb (rx c - currentClusterX) (avgW * (6 # 10)) then
    (columnsX,
     ((currentClusterX * ofZ clusterCount + rx c) / ofZ (clusterCount + 1))%Q,
     clusterCount + 1)
  else (columnsX ++ [currentClusterX], rx c, 1).

Definition clusterColumns (avgW : Q) (allCells : list Rect) : list Q :=
  match allCells with
  | [] => []
  | c0 :: rest =>
      let '(columnsX, currentClusterX, _) :=
        fold_left (clusterStep avgW) rest ([], rx c0, 1) in
      columnsX ++ [currentClusterX]
  end.

(** [columnsX[i] || (i * avgW * 1.1)]: a missing column and the column 0 are
    both falsy. *)
Definition columnAt (columnsX : list Q) (avgW : Q) (i : nat) : Q :=
  let fallback := (ofZ (Z.of_nat i) * avgW * (11 # 10))%Q in
  match columnsX !! i with
  | Some v => if Qeq_bool v 0 then fallback else v
  | None => fallback
  end.

(** The cell of [row] for the column at [colX]. *)
Definition cellFor (avgW avgH : Q) (row : Row) (colX : Q) : Rect :=
  match find (fun c => Qltb (Qabs' (rx c - colX)) (avgW * (5 # 10))) (cells row) with
  | Some existing => existing
  | None => {| rx := ofZ (Qfloor colX); ry := ofZ (Qfloor (y row));
               rw := ofZ (Qfloor avgW); rh := ofZ (Qfloor avgH) |}
  end.

Definition averages (rows : list Row) : Q * Q :=
  let '(totalW, totalH, count) :=
    fold_left (fun acc r =>
      fold_left (fun '(totalW, totalH, count) c =>
                   ((totalW + rw c)%Q, (totalH + rh c)%Q, count + 1))
                (cells r) acc)
      rows (0%Q, 0%Q, 0) in
  (if 0 <? count then (totalW / ofZ count)%Q else 50%Q,
   if 0 <? count then (totalH / ofZ count)%Q else 50%Q).

Definition gridColumns (rows : list Row) : list Q :=
  let avgW := fst (averages rows) in
  let allCells := js_sort (fun a b => Qltb (rx a) (rx b)) (flat_map cells rows) in
  js_sort Qltb (padColumns 6 avgW (clusterColumns avgW allCells)).

Definition interpolateGrid (rows : list Row) : list GridRow :=
  let '(avgW, avgH) := averages rows in
  let columnsX := gridColumns rows in
  map (fun row =>
         {| gcells := map (fun i => cellFor avgW avgH row (columnAt columnsX avgW i))
                          (seq 0 6);
            rowY := y row; rowH := h row |})
      rows.

(** ** Content verification: [hasInk]

    The canvas is read through [getImageData]; a pixel outside the canvas is
    transparent black.  The browser refuses an empty rectangle; here it reads
    as an empty array.  The rectangle [hasInk] is given is built from
    [Math.floor] results, so its fields are integers. *)

Definition canvasPixel (cv : BinaryCanvas) (x y : Z) : Z :=
  if (0 <=? x) && (x <? cvWidth cv) && (0 <=? y) && (y <? cvHeight cv)
  then default 0 (px (cvPixels cv) (y * cvWidth cv + x))
  else 0.

Definition getImageData (cv : BinaryCanvas) (x y w h : Z) : list Z :=
  flat_map (fun j => map (fun i => canvasPixel cv (x + i) (y + j)) (seqZ 0 w))
           (seqZ 0 h).

(** The count the two loops of [hasInk] accumulate. *)
Definition denseBlackPixels (data : list Z) (w h : Z) : Z :=
  let width := w in
  fold_left (fun acc y =>
    fold_left (fun dense x =>
      let i := y * width + x in
      if pxIs data i black then
        let neighborCount := countIf
          [ pxIs data (i - 1) black; pxIs data (i + 1) black;
            pxIs data (i - width) black; pxIs data (i + width) black;
            pxIs data (i - width - 1) black; pxIs data (i - width + 1) black;
            pxIs data (i + width - 1) black; pxIs data (i + width + 1) black ] in
        if 6 <=? neighborCount then dense + 1 else dense
      else dense)
      (seqZ 1 (w - 2)) acc)
    (seqZ 1 (h - 2)) 0.

Definition hasInkData (data : list Z) (w h : Z) : bool :=
  let totalPixels := w * h in
  Qgtb (ofZ (denseBlackPixels data w h) / ofZ totalPixels) (1 # 100).

Definition hasInk (cv : BinaryCanvas) (x y w h : Z) : bool :=
  hasInkData (getImageData cv x y w h) w h.

(** ** Composite assembler: [generateCompositeCanvas]

    The pixels of the sheet are what the browser's scaled [drawImage] makes
    of the crops; they reach only the recogniser, whose answer is an input of
    this model.  What the model keeps of the sheet is its size, the sprite
    map and the protected rectangles handed to [erodeCanvas].  [drawImage]
    does not raise for a source canvas that is not empty, so every [try]
    block runs to its end. *)

Inductive CellType := number | id.

Record MappedCell := mkMapped {
  ticketIndex : nat;
  rowIndex : nat;
  colIndex : nat;
  spriteRect : Rect;
  originalRect : Rect;
  type : CellType
}.

Record Composite := mkComposite {
  compWidth : Z;
  compHeight : Z;
  cmap : list MappedCell;
  protectedRects : list Rect
}.

Definition cellSize : Z := 160.
Definition padding : Z := 400.
Definition ticketHeight : Z := 3 * (cellSize + padding) + padding.

(** [interpolateGrid(ticket.rows)[2].cells[5]] *)
Definition lastCellOf (interpolatedRows : list GridRow) : option Rect :=
  match interpolatedRows !! 2%nat with
  | Some lastRow => gcells lastRow !! 5%nat
  | None => None
  end.

(** Pass 1: the sheet width that fits the widest identifier field. *)
Definition measureRowWidth (tickets : list Ticket) : Z :=
  fold_left (fun maxRowWidth ticket =>
    match lastCellOf (interpolateGrid (rows ticket)) with
    | Some lastCell =>
        let searchW := (rw lastCell * (18 # 10))%Q in
        let searchH := rh lastCell in
        let targetIDWidth := Qfloor (ofZ cellSize * (searchW / searchH)) in
        let rowWidthWithID :=
          6 * (cellSize + padding) + targetIDWidth + padding * 3 in
        if maxRowWidth <? rowWidthWithID then rowWidthWithID else maxRowWidth
    | None => maxRowWidth
    end)
    tickets (6 * (cellSize + padding) + padding * 2).

(** The sprite slot of the cell in row [r] and column [c] of a ticket whose
    block starts at [startY]. *)
Definition numberSprite (startY : Z) (r c : nat) : Rect :=
  let rowY := startY + Z.of_nat r * (cellSize + padding) in
  {| rx := ofZ (padding + Z.of_nat c * (cellSize + padding));
     ry := ofZ rowY;
     rw := ofZ cellSize;
     rh := ofZ cellSize |}.

(** The body of [for (let c = 0; c < 6; c++)]. *)
Definition placeCell (binaryCtx : BinaryCanvas) (tIdx : nat) (startY : Z)
    (r : nat) (row : GridRow) (map : list MappedCell) (c : nat)
    : list MappedCell :=
  match gcells row !! c with
  | None => map
  | Some cell =>
      let spriteRect := numberSprite startY r c in
      let cropMarginX := (rw cell * (32 # 100))%Q in
      let cropMarginY := (rh cell * (32 # 100))%Q in
      let srcX := Qfloor (rx cell + cropMarginX) in
      let srcY := Qfloor (ry cell + cropMarginY) in
      let srcW := Qfloor (rw cell - cropMarginX * 2) in
      let srcH := Qfloor (rh cell - cropMarginY * 2) in
      if hasInk binaryCtx srcX srcY srcW srcH then
        map ++ [ {| ticketIndex := tIdx; rowIndex := r; colIndex := c;
                    spriteRect := spriteRect; originalRect := cell;
                    type := number |} ]
      else map
  end.

(** The identifier field of a ticket: the entry pushed to the map and to the
    protected rectangles, if the search area is large enough. *)
Definition placeId (binaryCtx : BinaryCanvas) (tIdx : nat) (startY : Z)
    (lastCell : Rect) : option MappedCell :=
  let searchX := (rx lastCell + rw lastCell + rw lastCell * (30 # 100))%Q in
  let searchY := ry lastCell in
  let searchW := (rw lastCell * (18 # 10))%Q in
  let searchH := rh lastCell in
  let safeX := Qmin searchX (ofZ (cvWidth binaryCtx - 1)) in
  let safeY := Qmin searchY (ofZ (cvHeight binaryCtx - 1)) in
  let safeW := Qmin searchW (ofZ (cvWidth binaryCtx) - safeX) in
  let safeH := Qmin searchH (ofZ (cvHeight binaryCtx) - safeY) in
  let ratio := if Qgtb safeH 0 then (safeW / safeH)%Q else 3%Q in
  let targetIDWidth := Qfloor (ofZ cellSize * ratio) in
  let spriteRect :=
    {| rx := ofZ (padding + 6 * (cellSize + padding));
       ry := ofZ (startY + 2 * (cellSize + padding));
       rw := ofZ targetIDWidth;
       rh := ofZ cellSize |} in
  if Qgtb safeW 10 && Qgtb safeH 10 then
    Some {| ticketIndex := tIdx; rowIndex := 2; colIndex := 6;
            spriteRect := spriteRect;
            originalRect := {| rx := safeX; ry := safeY; rw := safeW; rh := safeH |};
            type := id |}
  else None.

(** The body of the second [tickets.forEach]. *)
Definition placeTicket (binaryCtx : BinaryCanvas)
    (st : list MappedCell * list Rect) (tIdx : nat) (ticket : Ticket)
    : list MappedCell * list Rect :=
  let '(map, protectedRects) := st in
  let interpolatedRows := interpolateGrid (rows ticket) in
  let startY := Z.of_nat tIdx * ticketHeight + padding in
  let map :=
    fold_left (fun map r =>
      match interpolatedRows !! r with
      | Some row => fold_left (placeCell binaryCtx tIdx startY r row) (seq 0 6) map
      | None => map
      end)
      (seq 0 3) map in
  match lastCellOf interpolatedRows with
  | Some lastCell =>
      match placeId binaryCtx tIdx startY lastCell with
      | Some entry => (map ++ [entry], protectedRects ++ [spriteRect entry])
      | None => (map, protectedRects)
      end
  | None => (map, protectedRects)
  end.

(** [xs.forEach((x, i) => ...)] with an accumulator. *)
Definition foldlIndexed {A B : Type} (f : B -> nat -> A -> B) (xs : list A)
    (init : B) : B :=
  fold_left (fun acc ix => f acc (fst ix) (snd ix)) (imap pair xs) init.

Definition generateCompositeCanvas (binaryCtx : BinaryCanvas)
    (tickets : list Ticket) : Composite :=
  let canvasWidth := measureRowWidth tickets in
  let canvasHeight := Z.of_nat (length tickets) * ticketHeight in
  let '(map, protectedRects) :=
    foldlIndexed (placeTicket binaryCtx) tickets ([], []) in
  {| compWidth := Z.max canvasWidth 1;
     compHeight := Z.max canvasHeight 1;
     cmap := map;
     protectedRects := protectedRects |}.

(** ** Detection shared by validation and analysis: [detectTicketsInImage] *)

(** The predicate of [rows.find] for the component [comp]. *)
Definition matchesRow (comp : Rect) (r : Row) : bool :=
  let centerY := (ry comp + rh comp / 2)%Q in
  let rowCenterY := (y r + h r / 2)%Q in
  Qltb (Qabs' (centerY - rowCenterY)) (h r * (5 # 10)).

(** [matchRow.cells.push(comp)] on the first matching row; [None] when
    [rows.find] finds none. *)
Fixpoint pushToMatch (comp : Rect) (rws : list Row) : option (list Row) :=
  match rws with
  | [] => None
  | r :: rest =>
      if matchesRow comp r
      then Some ({| y := y r; h := h r; cells := cells r ++ [comp] |} :: rest)
      else option_map (cons r) (pushToMatch comp rest)
  end.

Definition clusterRows (rawComponents : list Rect) : list Row :=
  fold_left (fun rws comp =>
    match pushToMatch comp rws with
    | Some rws' => rws'
    | None => rws ++ [ {| y := ry comp; h := rh comp; cells := [comp] |} ]
    end)
    rawComponents [].

(** [arr.slice(a, b)] for [0 <= a <= b]. *)
Definition slice {A : Type} (a b : nat) (l : list A) : list A :=
  take (b - a) (drop a l).

(** The flush: [Math.floor(n / 3)] tickets of three rows each. *)
Definition flushRows (currentTicketRows : list Row) : list Ticket :=
  let chunks := (length currentTicketRows / 3)%nat in
  map (fun k => {| rows := slice (k * 3) ((k + 1) * 3) currentTicketRows |})
      (seq 0 chunks).

(** [dist < row.h * 0.2] for the row [row] that follows [prev]. *)
Definition touches (prev row : Row) : bool :=
  let dist := (y row - (y prev + h prev))%Q in
  Qltb dist (h row * (2 # 10)).

(** The body of [for (let i = 0; i < validRows.length; i++)]. *)
Definition chunkStep (st : list Ticket * list Row) (row : Row)
    : list Ticket * list Row :=
  let '(ticketsRaw, currentTicketRows) := st in
  match last currentTicketRows with
  | None => (ticketsRaw, [row])
  | Some prev =>
      if touches prev row then (ticketsRaw, currentTicketRows ++ [row])
      else (ticketsRaw ++ flushRows currentTicketRows, [row])
  end.

Definition chunkTickets (validRows : list Row) : list Ticket :=
  let '(ticketsRaw, currentTicketRows) :=
    fold_left chunkStep validRows ([], []) in
  ticketsRaw ++ flushRows currentTicketRows.

(** The rows handed to the chunking: clustered, each sorted by [x], filtered
    and sorted by [y]. *)
Definition validRowsOf (rawComponents : list Rect) : list Row :=
  let sorted := js_sort (fun a b => Qltb (ry a) (ry b)) rawComponents in
  let rws := clusterRows sorted in
  let rws := map (fun r => {| y := y r; h := h r;
                              cells := js_sort (fun a b => Qltb (rx a) (rx b)) (cells r) |})
                 rws in
  let validRows := List.filter (fun r => (1 <=? length (cells r))%nat) rws in
  js_sort (fun a b => Qltb (y a) (y b)) validRows.

Definition ticketsOfComponents (rawComponents : list Rect) : list Ticket :=
  chunkTickets (validRowsOf rawComponents).

Definition detectTicketsInImage (cv : BinaryCanvas) : list Ticket :=
  ticketsOfComponents
    (findWhiteComponents (binaryData cv) (cvWidth cv) (cvHeight cv)).

(** ** Fast validation: [validateTicketImage]

    The overlay drawn on the canvas is left out. *)

Record ValidationResult := mkValidation {
  isValid : bool;
  message : string;
  ticketCount : Z
}.

Definition validateTicketImage (img : Image) : ValidationResult :=
  let cv := createBinaryCanvas img in
  let detectedTickets := detectTicketsInImage cv in
  let n := Z.of_nat (length detectedTickets) in
  if 0 <? n then
    {| isValid := true;
       message := (pretty n +:+ " Schein(e) erkannt.")%string;
       ticketCount := n |}
  else
    {| isValid := false;
       message := "Kein Schein erkannt. Bitte näher rangehen oder Licht verbessern."%string;
       ticketCount := n |}.

(** ** Recognition post-processor: [analyzeTicketImage] *)

(** A word as the recogniser reports it, and the [DetectedWord] made of it. *)
Record RawWord := mkRawWord {
  wtext : string;
  x0 : Q; y0 : Q; x1 : Q; y1 : Q;
  wconfidence : Q
}.

Definition toDetectedWord (w : RawWord) : DetectedWord :=
  {| text := trim (wtext w);
     bbox := {| rx := x0 w; ry := y0 w;
                rw := (x1 w - x0 w)%Q; rh := (y1 w - y0 w)%Q |};
     confidence := wconfidence w |}.

Record ScanResult := mkScan { ticketId : string; grid : list (list Z) }.

Record AnalysisResponse := mkResponse { results : list ScanResult }.

(** The predicate of both [ocrWords.filter] calls. *)
Definition centerInside (w : DetectedWord) (r : Rect) : bool :=
  let centerX := (rx (bbox w) + rw (bbox w) / 2)%Q in
  let centerY := (ry (bbox w) + rh (bbox w) / 2)%Q in
  Qgtb centerX (rx r) && Qltb centerX (rx r + rw r)
  && Qgtb centerY (ry r) && Qltb centerY (ry r + rh r).

(** [finalResults[tIdx].grid[r][c] = num].  The indices of a number mapping
    are those of the loops that built it, so the write is inside the grid. *)
Definition setCell (finalResults : list ScanResult) (tIdx r c : nat) (num : Z)
    : list ScanResult :=
  alter (fun res => {| ticketId := ticketId res;
                       grid := alter (fun row => <[c := num]> row) r (grid res) |})
        tIdx finalResults.

(** [finalResults[tIdx].ticketId = s] *)
Definition setTicketId (finalResults : list ScanResult) (tIdx : nat)
    (s : string) : list ScanResult :=
  alter (fun res => {| ticketId := s; grid := grid res |}) tIdx finalResults.

(** *** Numeric cells

    [numberOfText rawText] is the value the cell is assigned, or [None] when
    the callback returns without assigning. *)

Definition substituteConfusables (txt : string) : string :=
  let txt := replaceAll (isChar "l"%char) "1"%char txt in
  let txt := replaceAll (isChar "I"%char) "1"%char txt in
  let txt := replaceAll (isChar "O"%char) "0"%char txt in
  let txt := replaceAll (isChar "B"%char) "8"%char txt in
  let txt := replaceAll (isChar "S"%char) "5"%char txt in
  let txt := replaceAll (isChar "Z"%char) "7"%char txt in
  let txt := replaceAll (isChar "A"%char) "4"%char txt in
  let txt := replaceAll (isChar "G"%char) "6"%char txt in
  replaceAll (isChar "T"%char) "7"%char txt.

Definition strayText (rawText : string) : bool :=
  let alphaCount := countMatches isAlpha rawText in
  let digitCount := countMatches isDigit rawText in
  let numberLikeAlpha := countMatches isNumberLike rawText in
  let badAlpha := alphaCount - numberLikeAlpha in
  (digitCount <? badAlpha) && (1 <? Z.of_nat (String.length rawText)).

Definition normalizeNumber (rawText : string) : option Z :=
  let txt := toUpperCase rawText in
  let txt := substituteConfusables txt in
  let clean := removeAll (fun c => negb (isDigit c)) txt in
  parseInt clean.

Definition numberOfText (rawText : string) : option Z :=
  if strayText rawText then None
  else match normalizeNumber rawText with
       | Some num => if (0 <? num) && (num <? 100) then Some num else None
       | None => None
       end.

(** The callback of [numberItems.forEach]. *)
Definition processNumber (ocrWords : list DetectedWord) (tIdx : nat)
    (finalResults : list ScanResult) (item : MappedCell) : list ScanResult :=
  let candidates :=
    List.filter (fun w => centerInside w (spriteRect item)) ocrWords in
  match js_sort (fun a b => Qltb (confidence b) (confidence a)) candidates with
  | [] => finalResults
  | best :: _ =>
      let rawText := trim (text best) in
      let textH := rh (bbox best) in
      let cellH := rh (spriteRect item) in
      if Qltb (textH / cellH) (33 # 100) then finalResults
      else match numberOfText rawText with
           | Some num =>
               setCell finalResults tIdx (rowIndex item) (colIndex item) num
           | None => finalResults
           end
  end.

(** *** Identifier field *)

(** [[A-Za-zäöüÄÖÜß]] *)
Definition isIdLetter (c : ascii) : bool :=
  isAlpha c
  || existsb (N.eqb (code c)) [228; 246; 252; 196; 214; 220; 223]%N.

(** [s.replace(/[A-Za-zäöüÄÖÜß]{2,}/g, '')], as the scan the greedy
    quantifier performs: a letter is held back until the next character shows
    whether it starts a run of two or more. *)
Inductive RunState := NoRun | OneLetter (c : ascii) | InRun.

Fixpoint stripRunsFrom (st : RunState) (s : string) : string :=
  match s with
  | EmptyString =>
      match st with
      | OneLetter l => String l EmptyString
      | _ => EmptyString
      end
  | String c s' =>
      if isIdLetter c then
        match st with
        | NoRun => stripRunsFrom (OneLetter c) s'
        | _ => stripRunsFrom InRun s'
        end
      else
        match st with
        | OneLetter l => String l (String c (stripRunsFrom NoRun s'))
        | _ => String c (stripRunsFrom NoRun s')
        end
  end.

Definition stripLetterRuns (s : string) : string := stripRunsFrom NoRun s.

(** [[|\\I:.]] *)
Definition isSlashLike (c : ascii) : bool :=
  existsb (N.eqb (code c)) [124; 92; 73; 58; 46]%N.

(** The longest prefix of [s] in the class [p], and the rest. *)
Fixpoint spanWhile (p : ascii -> bool) (s : string) : string * string :=
  match s with
  | EmptyString => (EmptyString, EmptyString)
  | String c s' =>
      if p c then let '(a, b) := spanWhile p s' in (String c a, b)
      else (EmptyString, s)
  end.

(** [/(\d{1,5})\s*\/\s*(\d{1,5})/] tried at the start of [s].  The first
    group must end where its digit run ends, since only white space and the
    slash may follow it; the second group takes up to five digits. *)
Definition slashMatchAt (s : string) : option (string * string) :=
  let '(d1, rest) := spanWhile isDigit s in
  if (1 <=? String.length d1)%nat && (String.length d1 <=? 5)%nat then
    match snd (spanWhile isSpace rest) with
    | String c rest' =>
        if isChar "/"%char c then
          let d2 := fst (spanWhile isDigit (snd (spanWhile isSpace rest'))) in
          let g2 := substring 0 5 d2 in
          if (1 <=? String.length g2)%nat then Some (d1, g2) else None
        else None
    | EmptyString => None
    end
  else None.

(** [processed.match(...)]: the leftmost position at which the pattern
    matches. *)
Fixpoint slashMatch (s : string) : option (string * string) :=
  match slashMatchAt s with
  | Some m => Some m
  | None =>
      match s with
      | EmptyString => None
      | String _ s' => slashMatch s'
      end
  end.

(** [s.split(/\s+/)] *)
Fixpoint splitFrom (cur : string) (inSep : bool) (s : string) : list string :=
  match s with
  | EmptyString => [cur]
  | String c s' =>
      if isSpace c then
        if inSep then splitFrom cur true s'
        else cur :: splitFrom EmptyString true s'
      else splitFrom (cur +:+ String c EmptyString) false s'
  end.

Definition splitSpaces (s : string) : list string := splitFrom EmptyString false s.

(** The fallback of the [else] branch. *)
Definition looseParts (processed : string) : list string :=
  let looseText :=
    trim (replaceAll (fun c => negb (isDigit c || isSpace c)) " "%char processed) in
  List.filter (fun s => (0 <? String.length s)%nat) (splitSpaces looseText).

Definition normalizeIdText (fullText : string) : string :=
  replaceAll isSlashLike "/"%char (stripLetterRuns fullText).

(** The identifier reconstructed from the joined words; [None] leaves the
    placeholder in place. *)
Definition reconstructId (fullText : string) : option string :=
  let processed := normalizeIdText fullText in
  match slashMatch processed with
  | Some (m1, m2) => Some (m1 +:+ "/" +:+ m2)
  | None =>
      let parts := looseParts processed in
      if (2 <=? length parts)%nat then
        let p1 := default EmptyString (parts !! (length parts - 2)%nat) in
        let p2 := default EmptyString (parts !! (length parts - 1)%nat) in
        Some (p1 +:+ "/" +:+ p2)
      else None
  end.

Definition isIdOf (tIdx : nat) (m : MappedCell) : bool :=
  (ticketIndex m =? tIdx)%nat && match type m with id => true | number => false end.

Definition isNumberOf (tIdx : nat) (m : MappedCell) : bool :=
  (ticketIndex m =? tIdx)%nat && match type m with number => true | id => false end.

Definition processId (map : list MappedCell) (ocrWords : list DetectedWord)
    (tIdx : nat) (finalResults : list ScanResult) : list ScanResult :=
  match find (isIdOf tIdx) map with
  | Some idMapItem =>
      let idWords :=
        List.filter (fun w => centerInside w (spriteRect idMapItem)) ocrWords in
      if (0 <? length idWords)%nat then
        let fullText := String.concat " " (List.map text idWords) in
        match reconstructId fullText with
        | Some s => setTicketId finalResults tIdx s
        | None => finalResults
        end
      else finalResults
  | None => finalResults
  end.

(** The callback of [ticketsRaw.forEach((_, tIdx) => ...)]. *)
Definition processTicket (map : list MappedCell) (ocrWords : list DetectedWord)
    (finalResults : list ScanResult) (tIdx : nat) : list ScanResult :=
  let numberItems := List.filter (isNumberOf tIdx) map in
  let finalResults := fold_left (processNumber ocrWords tIdx) numberItems finalResults in
  processId map ocrWords tIdx finalResults.

(** [rnd i] is the value of [Math.floor(Math.random() * 9999)] drawn for the
    ticket [i]. *)
Definition initialResults (rnd : nat -> Z) (n : nat) : list ScanResult :=
  map (fun i => {| ticketId := ("ID-" +:+ pretty (rnd i))%string;
                   grid := replicate 3 (replicate 6 0) |})
      (seq 0 n).

Definition postProcess (rnd : nat -> Z) (nTickets : nat)
    (map : list MappedCell) (ocrWords : list DetectedWord) : list ScanResult :=
  fold_left (processTicket map ocrWords) (seq 0 nTickets)
            (initialResults rnd nTickets).

(** *** The recognition call and its timeout

    The one suspension point.  A promise is described by how and when (in
    milliseconds after the race starts) it settles; the timer promise rejects
    at 60000.  [Promise.race] settles as the promise that settles first;
    [ocrFirstOnTie] says which callback the event loop runs first when both
    are due in the same instant. *)

Inductive Settles (A : Type) :=
| Fulfils (at_ms : Z) (v : A)
| Rejects (at_ms : Z)
| NeverSettles.
Arguments Fulfils {A} at_ms v.
Arguments Rejects {A} at_ms.
Arguments NeverSettles {A}.

Definition timeoutMs : Z := 60000.

(** [await Promise.race([ocrPromise, timeoutPromise])]: the value, or [None]
    when the race rejects. *)
Definition raceWithTimeout {A : Type} (ocrFirstOnTie : bool)
    (ocrPromise : Settles A) : option A :=
  match ocrPromise with
  | Fulfils t v =>
      if (t <? timeoutMs) || ((t =? timeoutMs) && ocrFirstOnTie) then Some v
      else None
  | Rejects _ => None
  | NeverSettles => None
  end.

Inductive Outcome :=
| Throws (msg : string)
| Returns (r : AnalysisResponse).

(** [recognize] is the recogniser's answer for the sheet. *)
Definition analyzeTicketImage (img : Image)
    (recognize : Composite -> Settles (list RawWord)) (ocrFirstOnTie : bool)
    (rnd : nat -> Z) : Outcome :=
  let cv := createBinaryCanvas img in
  let ticketsRaw := detectTicketsInImage cv in
  let sheet := generateCompositeCanvas cv ticketsRaw in
  match raceWithTimeout ocrFirstOnTie (recognize sheet) with
  | None => Throws "OCR Timeout"
  | Some words =>
      let ocrWords := List.map toDetectedWord words in
      Returns {| results := postProcess rnd (length ticketsRaw) (cmap sheet) ocrWords |}
  end.

(** ** The game state: [App.tsx] and its components

    The callers of the scanner.  A React state variable is a value that
    every handler maps to the next one; a handler is modelled as it runs
    against the state of the latest render, which is the state it updates
    (React renders again after every discrete event before the next handler
    runs).  [Set<T>] is a [gset T]. *)

(** [arr.slice(0, -1)] *)
Definition dropLast {A : Type} (arr : list A) : list A :=
  take (length arr - 1) arr.

Module Types.

(** [BingoTicket] of [types.ts]. *)
Record BingoTicket := mkBingoTicket {
  id : string;              (* the extracted identifier, e.g. 160/400 *)
  internalId : string;      (* the key React uses *)
  rows : list (list Z);     (* 0 is an empty field *)
  isWinner : bool
}.

End Types.

Module TicketCard.

(** [rowStatus] *)
Definition rowStatus (ticket : Types.BingoTicket) (drawnNumbers : gset Z)
    : list bool :=
  map (fun row =>
         let hasNumbers := existsb (fun num => 0 <? num) row in
         let isComplete :=
           hasNumbers
           && forallb (fun num => (num =? 0) || bool_decide (num ∈ drawnNumbers))
                      row in
         isComplete)
      (Types.rows ticket).

Definition isFullWinner (ticket : Types.BingoTicket) (drawnNumbers : gset Z)
    : bool :=
  (0 <? length (rowStatus ticket drawnNumbers))%nat
  && forallb (fun s => s) (rowStatus ticket drawnNumbers).

Definition addColumn (editGrid : list (list Z)) : list (list Z) :=
  map (fun row => row ++ [0]) editGrid.

Definition removeColumn (editGrid : list (list Z)) : list (list Z) :=
  map (fun row => if (1 <? length row)%nat then dropLast row else row) editGrid.

End TicketCard.

Module NumberInput.

(** [handleSubmit]: [num] is the result of [parseInt(inputValue, 10)], [None]
    for [NaN]; the result is the number handed to [onAddNumber], if any. *)
Definition handleSubmit (num : option Z) : option Z :=
  match num with
  | Some n => if (0 <? n) && (n <=? 99) then Some n else None
  | None => None
  end.

End NumberInput.

Module App.

(** The tickets [confirmAndAnalyze] makes of the results; [generateId i] is
    the key drawn for the result [i]. *)
Definition newTicketsOf (generateId : nat -> string)
    (results : list ScanResult) : list Types.BingoTicket :=
  imap (fun i result =>
          {| Types.id := ticketId result;
             Types.internalId := generateId i;
             Types.rows := grid result;
             Types.isWinner := false |})
       results.

(** The updater handed to [setTickets]. *)
Definition addTickets (newTickets prev : list Types.BingoTicket)
    : list Types.BingoTicket :=
  let existingIds : gset string := list_to_set (map Types.id prev) in
  let uniqueNewTickets :=
    List.filter (fun t => negb (bool_decide (Types.id t ∈ existingIds)))
                newTickets in
  prev ++ uniqueNewTickets.

(** [confirmAndAnalyze] with an image pending (without one it returns at
    once), on the tickets and the error message: [outcome] is how the awaited
    [analyzeTicketImage] ended. *)
Definition confirmAndAnalyze (generateId : nat -> string) (outcome : Outcome)
    (st : list Types.BingoTicket * option string)
    : list Types.BingoTicket * option string :=
  let '(tickets, error) := st in
  match outcome with
  | Returns resp =>
      if (length (results resp) =? 0)%nat then
        (tickets,
         Some "Keine Scheine erkannt. Bitte überprüfe das Debug-Bild unten."%string)
      else
        (addTickets (newTicketsOf generateId (results resp)) tickets, error)
  | Throws msg =>
      (tickets,
       Some (match msg with
             | EmptyString => "Fehler bei der Analyse."%string
             | _ => msg
             end))
  end.

Definition handleAddNumber (drawnNumbers : list Z) (num : Z) : list Z :=
  if bool_decide (num ∈ drawnNumbers) then drawnNumbers
  else drawnNumbers ++ [num].

Definition handleUndo (prev : list Z) : list Z := dropLast prev.

Definition handleRemoveNumber (prev : list Z) (numToRemove : Z) : list Z :=
  List.filter (fun n => negb (n =? numToRemove)) prev.

Definition hasWinner (tickets : list Types.BingoTicket) (drawnNumbers : list Z)
    : bool :=
  let drawnSet : gset Z := list_to_set drawnNumbers in
  existsb (fun ticket =>
    forallb (fun row =>
      let hasNumbers := existsb (fun cell => 0 <? cell) row in
      hasNumbers
      && forallb (fun cell => (cell =? 0) || bool_decide (cell ∈ drawnSet)) row)
      (Types.rows ticket))
    tickets.

End App.

(** * Vocabulary of the properties

    The predicates, reference definitions and sample inputs the properties
    below are stated with. *)

(** ** Numeric cells *)

(** A word of confidence 90 that fills the slot of cell (0, 0) of ticket 0. *)
Definition wordInFirstSlot (s : string) : DetectedWord :=
  {| text := s;
     bbox := {| rx := 420; ry := 420; rw := 100; rh := 100 |};
     confidence := 90 |}.

Definition firstSlot : MappedCell :=
  {| ticketIndex := 0; rowIndex := 0; colIndex := 0;
     spriteRect := numberSprite padding 0 0;
     originalRect := {| rx := 0; ry := 0; rw := 50; rh := 50 |};
     type := number |}.

Definition firstCellAfter (s : string) : option Z :=
  match postProcess (fun _ => 0) 1 [firstSlot] [wordInFirstSlot s] with
  | res :: _ => grid res !! 0%nat ≫= (.!! 0%nat)
  | [] => None
  end.

(** ** Identifier field *)

Fixpoint allOf (p : ascii -> bool) (s : string) : bool :=
  match s with
  | EmptyString => true
  | String c s' => p c && allOf p s'
  end.

(** The first character of [s], if any, is not in the class [p]. *)
Definition stopsAt (p : ascii -> bool) (s : string) : Prop :=
  match s with
  | EmptyString => True
  | String c _ => p c = false
  end.

(** The pattern of the identifier, [<1-5 digits> / <1-5 digits>] with optional
    white space around the slash, found in [s] right after [pre] with the
    groups [l] and [r]. *)
Definition PatternAfter (pre l r s : string) : Prop :=
  exists ws1 ws2 post,
    s = (pre +:+ l +:+ ws1 +:+ "/" +:+ ws2 +:+ r +:+ post)%string
    /\ allOf isDigit l = true /\ (1 <= String.length l <= 5)%nat
    /\ allOf isSpace ws1 = true /\ allOf isSpace ws2 = true
    /\ allOf isDigit r = true /\ (1 <= String.length r <= 5)%nat.

Definition PatternOccurs (s : string) : Prop :=
  exists pre l r, PatternAfter pre l r s.

(** The fallback with the other characters deleted rather than turned into
    separators, which is how the specification words it ("strip everything
    but digits and whitespace"). *)
Definition loosePartsStripped (processed : string) : list string :=
  let looseText :=
    trim (removeAll (fun c => negb (isDigit c || isSpace c)) processed) in
  List.filter (fun s => (0 <? String.length s)%nat) (splitSpaces looseText).

Definition reconstructIdStripped (fullText : string) : option string :=
  let processed := normalizeIdText fullText in
  match slashMatch processed with
  | Some (m1, m2) => Some (m1 +:+ "/" +:+ m2)%string
  | None =>
      let parts := loosePartsStripped processed in
      if (2 <=? length parts)%nat then
        let p1 := default EmptyString (parts !! (length parts - 2)%nat) in
        let p2 := default EmptyString (parts !! (length parts - 1)%nat) in
        Some (p1 +:+ "/" +:+ p2)%string
      else None
  end.

Definition digitOrSpace (c : ascii) : bool := isDigit c || isSpace c.

(** The maximal runs of consecutive digits of [s], in order: every other
    character, white space or not, ends the run before it ([cur] is the run
    being read).  These are the tokens that are left when the other
    characters are turned into separators; deleting them instead would join
    the runs on either side. *)
Fixpoint digitRunsFrom (cur : string) (s : string) : list string :=
  match s with
  | EmptyString =>
      match cur with
      | EmptyString => []
      | _ => [cur]
      end
  | String c s' =>
      if isDigit c then digitRunsFrom (cur +:+ String c EmptyString) s'
      else match cur with
           | EmptyString => digitRunsFrom EmptyString s'
           | _ => cur :: digitRunsFrom EmptyString s'
           end
  end.

Definition digitRuns (s : string) : list string := digitRunsFrom EmptyString s.

(** A numeric token: a non-empty string of digits. *)
Definition numericToken (t : string) : Prop :=
  allOf isDigit t = true /\ t <> EmptyString.

(** The identifier slot of ticket 0 and four words that fill it. *)
Definition idSlot : MappedCell :=
  {| ticketIndex := 0; rowIndex := 2; colIndex := 6;
     spriteRect := {| rx := 3760; ry := 1520; rw := 288; rh := 160 |};
     originalRect := {| rx := 0; ry := 0; rw := 90; rh := 50 |};
     type := id |}.

Definition idWord (s : string) (x : Z) : DetectedWord :=
  {| text := s;
     bbox := {| rx := ofZ x; ry := 1540; rw := 40; rh := 100 |};
     confidence := 80 |}.

Definition scheinWords : list DetectedWord :=
  [idWord "SCHEIN" 3770; idWord "160" 3830; idWord "/" 3890; idWord "400" 3950].

(** ** Loops over pixels *)

(** Two nested [for] loops are one loop over the pairs of counters. *)
Definition pairsOf (xs ys : list Z) : list (Z * Z) :=
  flat_map (fun y => map (fun x => (x, y)) xs) ys.

(** A loop body that writes at most the cell of its own index. *)
Definition writeStep {A : Type} (idxOf : A -> Z) (val : A -> option Z)
    (out : list Z) (a : A) : list Z :=
  match val a with
  | Some v => pxSet out (idxOf a) v
  | None => out
  end.

Definition flatIndex (width : Z) (p : Z * Z) : Z := snd p * width + fst p.

(** Whether an unprotected ink pixel at the flat index [i] survives the pass
    [iter]. *)
Definition survives (iter : nat) (width : Z) (inputData : list Z) (i : Z)
    : bool :=
  match iter with
  | O =>
      negb (pxIs inputData (i - 1) white || pxIs inputData (i + 1) white
            || pxIs inputData (i - width) white
            || pxIs inputData (i + width) white)
  | S _ =>
      3 <=? countIf
          [ pxIs inputData (i - 1) black; pxIs inputData (i + 1) black;
            pxIs inputData (i - width) black; pxIs inputData (i + width) black;
            pxIs inputData (i - width - 1) black;
            pxIs inputData (i - width + 1) black;
            pxIs inputData (i + width - 1) black;
            pxIs inputData (i + width + 1) black ]
  end.

(** The value the loop body writes for the pixel [p], if it writes. *)
Definition erodeWrites (iter : nat) (width : Z) (protectedRects : list Rect)
    (inputData : list Z) (p : Z * Z) : option Z :=
  let i := flatIndex width p in
  if existsb (inRect (fst p) (snd p)) protectedRects
  then Some (default 0 (px inputData i))
  else if pxIs inputData i black && survives iter width inputData i
  then Some black
  else None.

(** The protected rectangle that covers a whole 3 x 3 canvas, and the canvas
    that is ink everywhere. *)
Definition wholeCanvas3 : Rect := {| rx := 0; ry := 0; rw := 3; rh := 3 |}.
Definition allInk3 : list Z := replicate 9 black.

(** ** Content verification *)

(** The pixel [(i, j)] of a [w] x [h] crop is ink; outside the crop nothing
    is. *)
Definition inkAt (data : list Z) (w h : Z) (i j : Z) : bool :=
  (0 <=? i) && (i <? w) && (0 <=? j) && (j <? h) && pxIs data (j * w + i) black.

(** A dense-ink pixel: ink with at least 6 of its 8 neighbours ink. *)
Definition denseInk (data : list Z) (w h : Z) (p : Z * Z) : bool :=
  let '(i, j) := p in
  inkAt data w h i j
  && (6 <=? countIf
        [ inkAt data w h (i - 1) j; inkAt data w h (i + 1) j;
          inkAt data w h i (j - 1); inkAt data w h i (j + 1);
          inkAt data w h (i - 1) (j - 1); inkAt data w h (i + 1) (j - 1);
          inkAt data w h (i - 1) (j + 1); inkAt data w h (i + 1) (j + 1) ]).

Definition denseInkCount (data : list Z) (w h : Z) : Z :=
  Z.of_nat (length (filter (fun p => denseInk data w h p = true)
                           (pairsOf (seqZ 0 w) (seqZ 0 h)))).

(** The fraction of the crop's area that is dense ink. *)
Definition denseFraction (data : list Z) (w h : Z) : Q :=
  (ofZ (denseInkCount data w h) / ofZ (w * h))%Q.

(** The test of the loop body of [hasInk] at the pixel [p]. *)
Definition denseTest (data : list Z) (w : Z) (p : Z * Z) : bool :=
  let i := snd p * w + fst p in
  pxIs data i black
  && (6 <=? countIf
        [ pxIs data (i - 1) black; pxIs data (i + 1) black;
          pxIs data (i - w) black; pxIs data (i + w) black;
          pxIs data (i - w - 1) black; pxIs data (i - w + 1) black;
          pxIs data (i + w - 1) black; pxIs data (i + w + 1) black ]).

(** A 20 x 10 canvas that is Paper except for an ink block of [bw] x 3 pixels
    with its corner at (5, 3). *)
Definition blockCanvas (bw : Z) : BinaryCanvas :=
  let inBlock (i : Z) :=
    (5 <=? i mod 20) && (i mod 20 <? 5 + bw) && (3 <=? i / 20) && (i / 20 <? 6) in
  {| cvWidth := 20; cvHeight := 10;
     cvPixels := map (fun i => if inBlock i then black else white) (seqZ 0 200);
     binaryData := map (fun i => if inBlock i then 0 else 1) (seqZ 0 200) |}.

(** ** Ticket chunking *)

(** The rows split into runs: a row joins the current run when it touches
    the run's last row (the gap between them is below 0.2 x its height) and
    starts a new run when the gap is larger. *)
Fixpoint runsFrom (cur : list Row) (l : list Row) : list (list Row) :=
  match l with
  | [] => [cur]
  | row :: l' =>
      match last cur with
      | None => runsFrom [row] l'
      | Some prev =>
          if touches prev row then runsFrom (cur ++ [row]) l'
          else cur :: runsFrom [row] l'
      end
  end.

Definition splitRuns (l : list Row) : list (list Row) := runsFrom [] l.

(** Consecutive groups of exactly three; a remainder of one or two is
    dropped. *)
Fixpoint groupsOf3 {A : Type} (l : list A) : list (list A) :=
  match l with
  | a :: b :: c :: rest => [a; b; c] :: groupsOf3 rest
  | _ => []
  end.

(** Every two neighbours of the list touch. *)
Definition Touching (run : list Row) : Prop :=
  forall i a b, run !! i = Some a -> run !! S i = Some b -> touches a b = true.

(** Two runs that follow each other are separated by a gap: the first row of
    the later one does not touch the last row of the earlier one. *)
Definition Separated (runs : list (list Row)) : Prop :=
  forall i r1 r2 a b,
    runs !! i = Some r1 -> runs !! S i = Some r2 ->
    last r1 = Some a -> head r2 = Some b -> touches a b = false.

(** The vertical gap between a row and the row before it. *)
Definition gapBefore (prev row : Row) : Q := (y row - (y prev + h prev))%Q.

(** Inside a run no gap reaches 0.2 x the height of the row below it. *)
Definition NoGapWithin (run : list Row) : Prop :=
  forall i a b, run !! i = Some a -> run !! S i = Some b ->
                (gapBefore a b < (2 # 10) * h b)%Q.

(** Two runs that follow each other are separated by a gap of at least
    0.2 x row height, between the last row of the earlier run and the first
    row of the later one. *)
Definition GapBetween (runs : list (list Row)) : Prop :=
  forall i r1 r2 a b,
    runs !! i = Some r1 -> runs !! S i = Some r2 ->
    last r1 = Some a -> head r2 = Some b ->
    ((2 # 10) * h b <= gapBefore a b)%Q.

(** Seven components: three rows that touch, a gap, and four rows that
    touch. *)
Definition squareAt (x0 y0 : Z) : Rect :=
  {| rx := ofZ x0; ry := ofZ y0; rw := 100; rh := 100 |}.

Definition sevenRows : list Rect :=
  [ squareAt 0 0; squareAt 50 100; squareAt 90 200;
    squareAt 0 400; squareAt 0 500; squareAt 0 600; squareAt 0 700 ].

(** ** Component detector *)

(** The number of cells of the visited map that are still 0. *)
Definition zeros (v : list Z) : nat := length (filter (fun e => e = 0) v).

Section GridVocabulary.
Variables (width height : Z).

Local Abbreviation W := (sW width).
Local Abbreviation H := (sH width height).
Local Abbreviation ix := (idx width).

Definition inGrid (c : Z * Z) : Prop := 0 <= fst c < W /\ 0 <= snd c < H.
Definition seen (v : list Z) (c : Z * Z) : Prop :=
  px v (ix (fst c) (snd c)) = Some 1.

(** A visited map of the right size that holds only 0 and 1. *)
Definition goodMap (v : list Z) : Prop :=
  length v = Z.to_nat (W * H) /\ Forall (fun e => e = 0 \/ e = 1) v.

(** How the visited map and the stack grow while neighbours are visited:
    cells are only added, every added cell is pushed, and every push turns
    one 0 of the map into a 1. *)
Definition grows (st st' : list Z * list (Z * Z)) : Prop :=
  goodMap (fst st')
  /\ (forall c, seen (fst st) c -> seen (fst st') c)
  /\ exists new,
       snd st' = new ++ snd st
       /\ (forall c, c ∈ new -> inGrid c /\ seen (fst st') c)
       /\ (forall c, inGrid c -> seen (fst st') c -> seen (fst st) c \/ c ∈ new)
       /\ (zeros (fst st') + length new = zeros (fst st))%nat.

Definition neighboursOf (c : Z * Z) : list (Z * Z) :=
  [ (fst c + 1, snd c); (fst c - 1, snd c);
    (fst c, snd c + 1); (fst c, snd c - 1) ].

(** A cell the fill is done with: it lies in the bounding box and every
    neighbour of it inside the grid has been visited. *)
Definition closed (st : FillState) (c : Z * Z) : Prop :=
  (minX st <= fst c <= maxX st /\ minY st <= snd c <= maxY st)
  /\ forall n, n ∈ neighboursOf c -> inGrid n -> seen (visited st) n.

(** The invariant of the [while] loop. *)
Definition fillInv (st : FillState) : Prop :=
  goodMap (visited st)
  /\ (forall c, c ∈ queue st -> inGrid c /\ seen (visited st) c)
  /\ (forall c, inGrid c -> seen (visited st) c ->
        c ∈ queue st \/ closed st c).

End GridVocabulary.

(** A raster whose pixels all have the red value 255. *)
Definition whiteRaster (img : Image) : Prop :=
  forall k, 0 <= k < imgWidth img * imgHeight img ->
            px (imgData img) (k * 4) = Some 255.

(** A 2 x 2 raster of white pixels. *)
Definition whiteImage : Image :=
  {| imgWidth := 2; imgHeight := 2; imgData := replicate 16 255 |}.

(** ** Column interpolation *)

(** The columns [extra] follow [prev] at a distance of 1.05 x [avgW] each. *)
Fixpoint evenlyFrom (avgW prev : Q) (extra : list Q) : Prop :=
  match extra with
  | [] => True
  | x :: rest => x = (prev + avgW * (105 # 100))%Q /\ evenlyFrom avgW x rest
  end.

(** The rows [interpolateGrid] returns, handed to it again. *)
Definition asRows (grid : list GridRow) : list Row :=
  map (fun r => {| y := rowY r; h := rowH r; cells := gcells r |}) grid.

(** The column clusters found for a ticket, before any is synthesised. *)
Definition clustersOf (rws : list Row) : list Q :=
  clusterColumns (fst (averages rws))
    (js_sort (fun a b => Qltb (rx a) (rx b)) (flat_map cells rws)).

(** Three rows with one cell each, at x = 0, 50 and 90, all 100 wide. *)
Definition skewedRows : list Row :=
  [ {| y := 0; h := 100; cells := [squareAt 0 0] |};
    {| y := 100; h := 100; cells := [squareAt 50 100] |};
    {| y := 200; h := 100; cells := [squareAt 90 200] |} ].

(** ** Sprite map *)

(** The position of a map entry in the order the loops of
    [generateCompositeCanvas] run through tickets, rows and columns (the
    identifier field counts as column 6). *)
Definition slotCode (e : MappedCell) : Z :=
  (Z.of_nat (ticketIndex e) * 3 + Z.of_nat (rowIndex e)) * 7
  + Z.of_nat (colIndex e).

Definition Increasing (m : list MappedCell) : Prop :=
  forall i j a b, (i < j)%nat -> m !! i = Some a -> m !! j = Some b ->
                  slotCode a < slotCode b.

(** What the loops guarantee of an entry of a sheet of [n] tickets. *)
Definition wellPlaced (n : nat) (e : MappedCell) : Prop :=
  (ticketIndex e < n)%nat
  /\ match type e with
     | number =>
         (rowIndex e < 3)%nat /\ (colIndex e < 6)%nat
         /\ spriteRect e
            = numberSprite (Z.of_nat (ticketIndex e) * ticketHeight + padding)
                           (rowIndex e) (colIndex e)
     | id => rowIndex e = 2%nat /\ colIndex e = 6%nat
     end.

Definition MapBelow (n : nat) (bound : Z) (m : list MappedCell) : Prop :=
  Increasing m /\ Forall (fun e => slotCode e < bound /\ wellPlaced n e) m.

(** Two rectangles that share no point. *)
Definition disjointRects (a b : Rect) : Prop :=
  (rx a + rw a <= rx b \/ rx b + rw b <= rx a
   \/ ry a + rh a <= ry b \/ ry b + rh b <= ry a)%Q.

(** The bound on the entries pushed before row [r] of ticket [t] is
    reached: after a row, its column 6 is still free. *)
Definition rowBound (t r : nat) : Z :=
  (Z.of_nat t * 3 + Z.of_nat r) * 7 - (if (r =? 0)%nat then 0 else 1).

Definition isNumberEntry (e : MappedCell) : bool :=
  match type e with number => true | id => false end.

(** A canvas of 80 x 40 ink pixels and a ticket of three rows with one cell of
    10 x 10 each: every cell of the interpolated grid has content. *)
Definition inkCanvas : BinaryCanvas :=
  {| cvWidth := 80; cvHeight := 40;
     cvPixels := replicate 3200 black; binaryData := replicate 3200 0 |}.

Definition tinyTicket : Ticket :=
  {| rows :=
       [ {| y := 0; h := 10; cells := [ {| rx := 0; ry := 0; rw := 10; rh := 10 |} ] |};
         {| y := 10; h := 10; cells := [ {| rx := 0; ry := 10; rw := 10; rh := 10 |} ] |};
         {| y := 20; h := 10; cells := [ {| rx := 0; ry := 20; rw := 10; rh := 10 |} ] |} ] |}.

(** ** Result grids and timeout *)

(** A cell value: blank, or a printed number. *)
Definition goodValue (v : Z) : Prop := v = 0 \/ 1 <= v <= 99.

(** A grid of exactly 3 rows of exactly 6 cell values. *)
Definition goodGrid (g : list (list Z)) : Prop :=
  length g = 3%nat
  /\ Forall (fun row => length row = 6%nat /\ Forall goodValue row) g.

(** The promise is fulfilled no later than [ms] milliseconds after the race
    starts. *)
Definition resolvesWithin {A : Type} (ms : Z) (p : Settles A) : Prop :=
  match p with
  | Fulfils t _ => t <= ms
  | Rejects _ => False
  | NeverSettles => False
  end.

(** ** Further vocabulary: binariser and cleaner *)

(** A raster whose pixels all have the red value [r]. *)
Definition uniformRaster (r : Z) (img : Image) : Prop :=
  forall k, 0 <= k < imgWidth img * imgHeight img ->
            px (imgData img) (k * 4) = Some r.

(** A 2 x 2 raster of black pixels. *)
Definition blackImage : Image :=
  {| imgWidth := 2; imgHeight := 2; imgData := replicate 16 0 |}.

(** A 3 x 3 canvas of Paper with one ink pixel in the middle. *)
Definition speck3 : list Z :=
  [white; white; white; white; black; white; white; white; white].

(** ** Further vocabulary: detector and grid *)



(** A cell [interpolateGrid] makes up for a column in which the row has no
    cell: whole-numbered, at the row's y, of the average size. *)
Definition synthesized (avgW avgH : Q) (row : Row) (c : Rect) : Prop :=
  ry c = ofZ (Qfloor (y row)) /\ rw c = ofZ (Qfloor avgW)
  /\ rh c = ofZ (Qfloor avgH) /\ exists x : Z, rx c = ofZ x.

(** The cells made up for a row when no row of the ticket has a cell: the
    columns fall back to [i * 50 * 1.1]. *)
Definition fallbackCells (row : Row) : list Rect :=
  map (fun x => {| rx := ofZ x; ry := ofZ (Qfloor (y row)); rw := 50; rh := 50 |})
      [0; 55; 110; 165; 220; 275].

(** A 4 x 4 canvas without ink. *)
Definition whiteCanvas : BinaryCanvas :=
  {| cvWidth := 4; cvHeight := 4;
     cvPixels := replicate 16 white; binaryData := replicate 16 1 |}.

Definition isIdEntry (e : MappedCell) : bool :=
  match type e with id => true | number => false end.

(** A row carries the position and height of one of its cells. *)
Definition rowAnchored (r : Row) : Prop :=
  exists c, c ∈ cells r /\ y r = ry c /\ h r = rh c.

(** What the clustering guarantees of a row: it has a cell, its cells are in
    ascending x order, and it is anchored at one of them. *)
Definition rowWellFormed (r : Row) : Prop :=
  cells r <> []
  /\ Sorted (fun a b => (rx a <= rx b)%Q) (cells r)
  /\ rowAnchored r.

(** ** Further vocabulary: post-processor *)

(** A word whose centre lies in no sprite of the sheet. *)
Definition strayWord : DetectedWord :=
  {| text := "17"; bbox := {| rx := 0; ry := 0; rw := 10; rh := 10 |};
     confidence := 95 |}.

(** The digits of a string, in order. *)
Definition digitsOf (s : string) : string :=
  removeAll (fun c => negb (isDigit c)) s.

(** ** The game state *)

Inductive DrawEvent :=
| Submit (num : option Z)     (* the form of [NumberInput] *)
| Undo
| Remove (numToRemove : Z)
| ResetGame.

Definition drawStep (drawnNumbers : list Z) (e : DrawEvent) : list Z :=
  match e with
  | Submit num =>
      match NumberInput.handleSubmit num with
      | Some n => App.handleAddNumber drawnNumbers n
      | None => drawnNumbers
      end
  | Undo => App.handleUndo drawnNumbers
  | Remove n => App.handleRemoveNumber drawnNumbers n
  | ResetGame => []
  end.

(** A row the scanner read nothing in: no cell holds a positive number. *)
Definition unreadRow (row : list Z) : Prop := Forall (fun n => n <= 0) row.

Definition blankTicket (rws : list (list Z)) : Types.BingoTicket :=
  {| Types.id := "ID-1"; Types.internalId := "a"; Types.rows := rws;
     Types.isWinner := false |}.

(** The ticket made of a scan that read the identifier 160/400 and no
    number, under the key [key]. *)
Definition scanned (key : string) : list Types.BingoTicket :=
  App.newTicketsOf (fun _ => key)
    [ {| ticketId := "160/400"; grid := replicate 3 (replicate 6 0) |} ].


(** * Properties *)

(** ** Comparisons and sorting *)

Lemma Qltb_lt (a b : Q) : Qltb a b = true <-> (a < b)%Q.
Proof.
  unfold Qltb. rewrite negb_true_iff. split.
  - intros Hb. apply Qnot_le_lt. intros Hle.
    apply Qle_bool_iff in Hle. congruence.
  - intros Hlt. destruct (Qle_bool b a) eqn:E; [|reflexivity].
    apply Qle_bool_iff in E. exfalso. revert E. apply Qlt_not_le, Hlt.
Qed.

Lemma Qltb_ge (a b : Q) : Qltb a b = false <-> (b <= a)%Q.
Proof. unfold Qltb. rewrite negb_false_iff. apply Qle_bool_iff. Qed.

Lemma Qgtb_gt (a b : Q) : Qgtb a b = true <-> (b < a)%Q.
Proof. apply Qltb_lt. Qed.

Lemma ofZ_lt (a b : Z) : (ofZ a < ofZ b)%Q <-> a < b.
Proof. unfold ofZ. by rewrite <- Zlt_Qlt. Qed.

Lemma ofZ_le (a b : Z) : (ofZ a <= ofZ b)%Q <-> a <= b.
Proof. unfold ofZ. by rewrite <- Zle_Qle. Qed.

Section SortFacts.
Context {A : Type} (lt : A -> A -> bool).

Lemma insert_sorted_perm a l : insert_sorted lt a l ≡ₚ a :: l.
Proof.
  induction l as [|b l IH]; simpl; [done|].
  destruct (lt b a); [|done]. rewrite IH. apply Permutation_swap.
Qed.

Lemma js_sort_perm l : js_sort lt l ≡ₚ l.
Proof.
  induction l as [|a l IH]; simpl; [done|].
  rewrite insert_sorted_perm. by rewrite IH.
Qed.

Lemma js_sort_length l : length (js_sort lt l) = length l.
Proof. by rewrite js_sort_perm. Qed.

End SortFacts.

(** ** Strings *)

Lemma append_cons (x : ascii) (a b : string) :
  (String x a +:+ b)%string = String x (a +:+ b).
Proof. reflexivity. Qed.

Lemma append_nil_l (b : string) : (EmptyString +:+ b)%string = b.
Proof. reflexivity. Qed.

Lemma append_assoc (a b c : string) :
  ((a +:+ b) +:+ c = a +:+ (b +:+ c))%string.
Proof.
  induction a as [|x a IH]; [done|].
  rewrite !append_cons. f_equal. exact IH.
Qed.

Lemma append_nil_r (a : string) : (a +:+ EmptyString)%string = a.
Proof.
  induction a as [|x a IH]; [done|]. rewrite append_cons. f_equal. exact IH.
Qed.

Lemma allOf_app p a b : allOf p (a +:+ b) = allOf p a && allOf p b.
Proof.
  induction a as [|x a IH]; [done|].
  rewrite append_cons. simpl. rewrite IH. by rewrite andb_assoc.
Qed.

Lemma allOf_impl (p q : ascii -> bool) s :
  (forall c, p c = true -> q c = true) -> allOf p s = true -> allOf q s = true.
Proof.
  intros Hpq. induction s as [|c s IH]; simpl; [done|].
  rewrite !andb_true_iff. intros [Hc Hs]. split; auto.
Qed.

(** Equal keys keep their order: of two words of the same confidence the one
    the recogniser reported first is the best candidate. *)
Example js_sort_stable :
  js_sort (fun a b => Qltb (snd b) (snd a))
          [(1, 50%Q); (2, 90%Q); (3, 50%Q); (4, 90%Q)]
  = [(2, 90%Q); (4, 90%Q); (1, 50%Q); (3, 50%Q)].
Proof. reflexivity. Qed.

(** ** Numeric cells *)

(** The capital I is read as the digit 1. *)
Example numberOfText_capital_I : numberOfText "I6" = Some 16.
Proof. reflexivity. Qed.

Lemma upperChar_no_l c : allOf (fun d => negb (isChar "l" d)) (upperChar c) = true.
Proof. destruct c as [[] [] [] [] [] [] [] []]; reflexivity. Qed.

Lemma toUpperCase_no_l s :
  allOf (fun d => negb (isChar "l" d)) (toUpperCase s) = true.
Proof.
  induction s as [|c s IH]; [done|].
  cbn [toUpperCase]. change (?a ++ ?b)%string with (a +:+ b)%string.
  by rewrite allOf_app, upperChar_no_l, IH.
Qed.

Lemma replaceAll_absent p r s :
  allOf (fun d => negb (p d)) s = true -> replaceAll p r s = s.
Proof.
  induction s as [|c s IH]; [done|]. simpl.
  intros Hs. apply andb_true_iff in Hs as [Hc Hs].
  apply negb_true_iff in Hc. by rewrite Hc, IH.
Qed.

(** C1 (the code at the two sample inputs): the text is put in upper case
    before the substitutions run, so the rule that turns a lower-case l into 1
    never applies, whatever the text: the L is stripped with the other
    non-digits.  The text "l6" is normalised to 6, not 16, and the cell is set
    to 6; the text "l60" is normalised to 60, not 160, and the cell is set to
    60 instead of staying 0. *)
Theorem C1_lowercase_l_is_stripped :
  (forall rawText,
      replaceAll (isChar "l") "1" (toUpperCase rawText) = toUpperCase rawText)
  /\ normalizeNumber "l6" = Some 6 /\ numberOfText "l6" = Some 6
  /\ firstCellAfter "l6" = Some 6
  /\ normalizeNumber "l60" = Some 60 /\ numberOfText "l60" = Some 60
  /\ firstCellAfter "l60" = Some 60.
Proof.
  split.
  - intros rawText. apply replaceAll_absent, toUpperCase_no_l.
  - vm_compute. repeat split; reflexivity.
Qed.

(** ** Identifier field *)

Lemma spanWhile_spec p s a b :
  spanWhile p s = (a, b) ->
  s = (a +:+ b)%string /\ allOf p a = true /\ stopsAt p b.
Proof.
  revert a b. induction s as [|c s IH]; simpl; intros a b Hs.
  - by inversion Hs.
  - destruct (p c) eqn:Hc.
    + destruct (spanWhile p s) as [a' b'] eqn:Hs'. inversion Hs; subst.
      destruct (IH a' b eq_refl) as (-> & Ha & Hb).
      rewrite append_cons. simpl. rewrite Hc, Ha. done.
    + inversion Hs; subst. simpl. done.
Qed.

Lemma spanWhile_app p a b :
  allOf p a = true -> stopsAt p b -> spanWhile p (a +:+ b) = (a, b).
Proof.
  intros Ha Hb. induction a as [|c a IH].
  - rewrite append_nil_l. destruct b as [|c b]; simpl in *; [done|].
    by rewrite Hb.
  - simpl in Ha. apply andb_true_iff in Ha as [Hc Ha].
    rewrite append_cons. simpl. rewrite Hc, (IH Ha). done.
Qed.

Lemma substring_prefix n s :
  exists t, s = (substring 0 n s +:+ t)%string.
Proof.
  revert s. induction n as [|n IH]; intros s.
  - exists s. by destruct s.
  - destruct s as [|c s]; simpl; [by exists EmptyString|].
    destruct (IH s) as [t Ht]. exists t. rewrite append_cons. by rewrite <- Ht.
Qed.

Lemma substring_length_le n s : (String.length (substring 0 n s) <= n)%nat.
Proof.
  revert s. induction n as [|n IH]; intros s.
  - destruct s; simpl; lia.
  - destruct s as [|c s]; simpl; [lia|]. specialize (IH s). lia.
Qed.

Lemma digit_not_space c : isDigit c = true -> isSpace c = false.
Proof.
  unfold isDigit, isSpace. generalize (code c). intros n Hn.
  apply andb_true_iff in Hn as [H1 H2].
  apply N.leb_le in H1, H2.
  repeat (apply orb_false_iff; split);
    rewrite ?andb_false_iff, ?N.leb_gt, ?N.eqb_neq; lia.
Qed.

Lemma isChar_eq a c : isChar a c = true -> c = a.
Proof.
  unfold isChar, code. intros Hc. apply N.eqb_eq in Hc.
  rewrite <- (ascii_N_embedding c), <- (ascii_N_embedding a). by rewrite Hc.
Qed.

Lemma slashMatchAt_sound s l r :
  slashMatchAt s = Some (l, r) -> PatternAfter EmptyString l r s.
Proof.
  unfold slashMatchAt.
  destruct (spanWhile isDigit s) as [d1 rest] eqn:Hd1.
  destruct (spanWhile_spec _ _ _ _ Hd1) as (Hs & Hall1 & _).
  destruct ((1 <=? String.length d1)%nat && (String.length d1 <=? 5)%nat)
    eqn:Hlen; [|done].
  apply andb_true_iff in Hlen as [Hlo Hhi].
  apply Nat.leb_le in Hlo, Hhi.
  destruct (spanWhile isSpace rest) as [ws1 rest1] eqn:Hws1. cbn [fst snd].
  destruct (spanWhile_spec _ _ _ _ Hws1) as (Hrest & Hallw1 & _).
  destruct rest1 as [|c rest']; [done|].
  destruct (isChar "/" c) eqn:Hc; [|done].
  apply isChar_eq in Hc. subst c.
  destruct (spanWhile isSpace rest') as [ws2 rest2] eqn:Hws2. cbn [fst snd].
  destruct (spanWhile_spec _ _ _ _ Hws2) as (Hrest' & Hallw2 & _).
  destruct (spanWhile isDigit rest2) as [d2 rest3] eqn:Hd2. cbn [fst snd].
  destruct (spanWhile_spec _ _ _ _ Hd2) as (Hrest2 & Hall2 & _).
  destruct (1 <=? String.length (substring 0 5 d2))%nat eqn:Hg; [|done].
  apply Nat.leb_le in Hg. intros [= <- <-].
  destruct (substring_prefix 5 d2) as [t Ht].
  exists ws1, ws2, (t +:+ rest3)%string.
  split.
  - rewrite append_nil_l, Hs, Hrest. f_equal. f_equal.
    rewrite append_cons, append_nil_l. f_equal.
    rewrite Hrest'. f_equal. rewrite Hrest2.
    rewrite <- append_assoc. by rewrite <- Ht.
  - repeat split; try done; try lia.
    + rewrite Ht in Hall2. rewrite allOf_app in Hall2.
      by apply andb_true_iff in Hall2 as [? _].
    + apply substring_length_le.
Qed.

Lemma slashMatch_sound s l r :
  slashMatch s = Some (l, r) -> exists pre, PatternAfter pre l r s.
Proof.
  induction s as [|c s IH].
  - by simpl.
  - cbn [slashMatch]. destruct (slashMatchAt (String c s)) as [m|] eqn:Hm.
    + intros [= ->]. exists EmptyString. by apply slashMatchAt_sound.
    + intros Hs. destruct (IH Hs) as (pre & ws1 & ws2 & post & -> & Hrest).
      exists (String c pre), ws1, ws2, post. by rewrite append_cons.
Qed.

Lemma slashMatchAt_complete s l r :
  PatternAfter EmptyString l r s -> slashMatchAt s <> None.
Proof.
  intros (ws1 & ws2 & post & -> & Hl & Hlen & Hw1 & Hw2 & Hr & Hrlen).
  unfold slashMatchAt. rewrite append_nil_l.
  rewrite (spanWhile_app isDigit l).
  2: done.
  2: { destruct ws1 as [|c ws1].
       - reflexivity.
       - simpl in Hw1. apply andb_true_iff in Hw1 as [Hc _].
         rewrite append_cons. simpl.
         destruct (isDigit c) eqn:Hd; [|done].
         apply digit_not_space in Hd. congruence. }
  destruct Hlen as [Hlo Hhi].
  apply Nat.leb_le in Hlo, Hhi. rewrite Hlo, Hhi. cbn [andb].
  rewrite (spanWhile_app isSpace ws1); [|done|reflexivity]. cbn [fst snd].
  rewrite append_cons, append_nil_l.
  change (isChar "/" "/") with true. cbv iota.
  destruct r as [|d r]; [simpl in Hrlen; lia|].
  simpl in Hr. apply andb_true_iff in Hr as [Hd Hr].
  rewrite (spanWhile_app isSpace ws2);
    [|done|rewrite append_cons; simpl; by apply digit_not_space].
  cbn [fst snd]. rewrite append_cons. cbn [spanWhile]. rewrite Hd.
  destruct (spanWhile isDigit (r +:+ post)) as [a b]. cbn [fst snd].
  cbn [substring String.length Nat.leb]. done.
Qed.

Lemma slashMatch_complete s : slashMatch s = None -> ~ PatternOccurs s.
Proof.
  intros Hnone (pre & l & r & Hocc). revert s Hnone Hocc.
  induction pre as [|c pre IH]; intros s Hnone Hocc.
  - apply slashMatchAt_complete in Hocc.
    destruct s; cbn [slashMatch] in Hnone;
      destruct (slashMatchAt _); done.
  - destruct Hocc as (ws1 & ws2 & post & -> & Hrest).
    rewrite append_cons in Hnone. cbn [slashMatch] in Hnone.
    destruct (slashMatchAt _); [done|].
    apply (IH _ Hnone). by exists ws1, ws2, post.
Qed.

Lemma replaceAll_digitOrSpace s :
  allOf digitOrSpace
        (replaceAll (fun c => negb (isDigit c || isSpace c)) " " s) = true.
Proof.
  induction s as [|c s IH]; simpl; [done|].
  rewrite IH, andb_true_r. unfold digitOrSpace.
  destruct (isDigit c || isSpace c) eqn:Hc; simpl; [exact Hc|reflexivity].
Qed.

Lemma trimStart_allOf p s : allOf p s = true -> allOf p (trimStart s) = true.
Proof.
  induction s as [|c s IH]; simpl; [done|].
  intros Hs. destruct (isSpace c); [|exact Hs].
  apply IH. by apply andb_true_iff in Hs as [_ ?].
Qed.

Lemma trimEnd_allOf p s : allOf p s = true -> allOf p (trimEnd s) = true.
Proof.
  induction s as [|c s IH]; simpl; [done|].
  intros Hs. apply andb_true_iff in Hs as [Hc Hs]. specialize (IH Hs).
  destruct (trimEnd s) as [|d t].
  - destruct (isSpace c); simpl; [done|]. by rewrite Hc.
  - simpl in *. by rewrite Hc, IH.
Qed.

Lemma splitFrom_digits cur inSep s :
  allOf digitOrSpace s = true -> allOf isDigit cur = true ->
  Forall (fun t => allOf isDigit t = true) (splitFrom cur inSep s).
Proof.
  revert cur inSep. induction s as [|c s IH]; intros cur inSep Hs Hcur.
  - simpl. by constructor.
  - simpl in Hs. apply andb_true_iff in Hs as [Hc Hs].
    cbn [splitFrom]. destruct (isSpace c) eqn:Hsp.
    + destruct inSep; [by apply IH|]. constructor; [done|]. by apply IH.
    + apply IH; [done|]. rewrite allOf_app, Hcur. simpl.
      unfold digitOrSpace in Hc. rewrite Hsp, orb_false_r in Hc.
      by rewrite Hc.
Qed.

Lemma looseParts_numeric processed :
  Forall numericToken (looseParts processed).
Proof.
  unfold looseParts, splitSpaces.
  set (loose := trim _).
  assert (Hloose : allOf digitOrSpace loose = true).
  { apply trimEnd_allOf, trimStart_allOf, replaceAll_digitOrSpace. }
  pose proof (splitFrom_digits EmptyString false loose Hloose eq_refl) as Hall.
  induction Hall as [|t ts Ht Hts IH]; simpl; [constructor|].
  destruct t as [|c t]; simpl; [exact IH|].
  constructor; [|exact IH]. split; [exact Ht|discriminate].
Qed.

Lemma last_two_split {A : Type} (d : A) (l : list A) :
  (2 <= length l)%nat ->
  exists front,
    l = front ++ [default d (l !! (length l - 2)%nat);
                  default d (l !! (length l - 1)%nat)].
Proof.
  intros Hlen. exists (take (length l - 2) l).
  rewrite <- (take_drop (length l - 2) l) at 1. f_equal.
  assert (Hd : length (drop (length l - 2) l) = 2%nat)
    by (rewrite length_drop; lia).
  destruct (drop (length l - 2) l) as [|a [|b [|? ?]]] eqn:Hdrop;
    simpl in Hd; try lia.
  assert (Ha : l !! (length l - 2)%nat = Some a).
  { rewrite <- (Nat.add_0_r (length l - 2)), <- lookup_drop, Hdrop. done. }
  assert (Hb : l !! (length l - 1)%nat = Some b).
  { replace (length l - 1)%nat with (length l - 2 + 1)%nat by lia.
    rewrite <- lookup_drop, Hdrop. done. }
  by rewrite Ha, Hb.
Qed.

Lemma filter_nonEmpty_cons cur l :
  List.filter (fun s => (0 <? String.length s)%nat) (cur :: l)
  = match cur with
    | EmptyString => List.filter (fun s => (0 <? String.length s)%nat) l
    | _ => cur :: List.filter (fun s => (0 <? String.length s)%nat) l
    end.
Proof. by destruct cur. Qed.

Lemma space_not_digit c : isSpace c = true -> isDigit c = false.
Proof.
  intros Hs. destruct (isDigit c) eqn:Hd; [|done].
  by rewrite (digit_not_space c Hd) in Hs.
Qed.

Lemma splitFrom_digitRuns cur inSep s :
  allOf digitOrSpace s = true -> (inSep = true -> cur = EmptyString) ->
  List.filter (fun t => (0 <? String.length t)%nat) (splitFrom cur inSep s)
  = digitRunsFrom cur s.
Proof.
  revert cur inSep. induction s as [|c s IH]; intros cur inSep Hall Hsep.
  - cbn [splitFrom digitRunsFrom]. by destruct cur.
  - cbn [allOf] in Hall. apply andb_true_iff in Hall as [Hc Hall].
    cbn [splitFrom digitRunsFrom]. destruct (isSpace c) eqn:Hs.
    + rewrite (space_not_digit c Hs). destruct inSep.
      * rewrite (Hsep eq_refl). by apply IH.
      * rewrite filter_nonEmpty_cons, (IH EmptyString true) by done.
        by destruct cur.
    + unfold digitOrSpace in Hc. rewrite Hs, orb_false_r in Hc. rewrite Hc.
      by apply IH.
Qed.

Lemma digitRunsFrom_trimStart s :
  digitRunsFrom EmptyString (trimStart s) = digitRunsFrom EmptyString s.
Proof.
  induction s as [|c s IH]; [done|]. cbn [trimStart].
  destruct (isSpace c) eqn:Hs; [|done].
  cbn [digitRunsFrom]. by rewrite (space_not_digit c Hs).
Qed.

Lemma digitRunsFrom_trimEnd cur s :
  digitRunsFrom cur (trimEnd s) = digitRunsFrom cur s.
Proof.
  revert cur. induction s as [|c s IH]; intros cur; [done|].
  cbn [trimEnd]. destruct (trimEnd s) as [|d u] eqn:Hu.
  - destruct (isSpace c) eqn:Hs.
    + cbn [digitRunsFrom]. rewrite (space_not_digit c Hs).
      rewrite <- (IH EmptyString). by destruct cur.
    + cbn [digitRunsFrom]. rewrite <- !IH. done.
  - cbn [digitRunsFrom]. by rewrite <- !IH.
Qed.

Lemma digitRunsFrom_replace cur s :
  digitRunsFrom cur (replaceAll (fun c => negb (isDigit c || isSpace c)) " " s)
  = digitRunsFrom cur s.
Proof.
  revert cur. induction s as [|c s IH]; intros cur; [done|].
  cbn [replaceAll digitRunsFrom]. destruct (isDigit c) eqn:Hd.
  - cbn [orb negb]. rewrite Hd. apply IH.
  - destruct (negb (false || isSpace c)).
    + change (isDigit " ") with false. by rewrite !IH.
    + rewrite Hd. by rewrite !IH.
Qed.

Example digitRuns_sample :
  digitRuns "Nr 12-34 x5"
  = ["12"%string; "34"%string; "5"%string]
  /\ looseParts "12-34" = ["12"%string; "34"%string]
  /\ loosePartsStripped "12-34" = ["1234"%string].
Proof. by vm_compute. Qed.

(** The fallback tokens are the maximal digit runs of the processed text. *)
Lemma looseParts_digitRuns processed : looseParts processed = digitRuns processed.
Proof.
  unfold looseParts, splitSpaces, digitRuns, trim.
  rewrite splitFrom_digitRuns; [|by apply trimEnd_allOf, trimStart_allOf,
                                     replaceAll_digitOrSpace|done].
  by rewrite digitRunsFrom_trimEnd, digitRunsFrom_trimStart, digitRunsFrom_replace.
Qed.

(** C6 (as the code has it): for a ticket with an identifier mapping and at
    least one word centred in it, the joined text, with runs of two or more
    letters removed and the characters | \ I : . turned into a slash, is
    searched for <1-5 digits> / <1-5 digits>; when the pattern is found the
    ticket id is exactly left/right.  When it does not occur, every character
    that is neither a digit nor white space is replaced by a space (not
    deleted) and the text is split on white space, so that the numeric tokens
    are the maximal runs of digits of the processed text; if at least two
    remain the id is the last two joined by a slash, otherwise the id is left
    as it was.  The grid is not touched.  "SCHEIN 160 / 400" and "160 400"
    both give "160/400". *)
Theorem C6_identifier_reconstruction :
  (forall (map : list MappedCell) (ocrWords : list DetectedWord) (tIdx : nat)
          (finalResults : list ScanResult) (item : MappedCell)
          (res : ScanResult),
      find (isIdOf tIdx) map = Some item ->
      List.filter (fun w => centerInside w (spriteRect item)) ocrWords <> [] ->
      finalResults !! tIdx = Some res ->
      let idWords :=
        List.filter (fun w => centerInside w (spriteRect item)) ocrWords in
      let processed :=
        normalizeIdText (String.concat " " (List.map text idWords)) in
      let parts := digitRuns processed in
      exists res',
        processId map ocrWords tIdx finalResults !! tIdx = Some res'
        /\ grid res' = grid res
        /\ match slashMatch processed with
           | Some (l, r) =>
               ticketId res' = (l +:+ "/" +:+ r)%string
               /\ exists pre, PatternAfter pre l r processed
           | None =>
               ~ PatternOccurs processed
               /\ Forall numericToken parts
               /\ ((2 <= length parts)%nat ->
                   exists front p1 p2,
                     parts = front ++ [p1; p2]
                     /\ ticketId res' = (p1 +:+ "/" +:+ p2)%string)
               /\ ((length parts < 2)%nat -> ticketId res' = ticketId res)
           end)
  /\ (forall processed, looseParts processed = digitRuns processed)
  /\ reconstructId "SCHEIN 160 / 400" = Some "160/400"%string
  /\ reconstructId "160 400" = Some "160/400"%string.
Proof.
  split; [|split; [exact looseParts_digitRuns|split; reflexivity]].
  intros map ocrWords tIdx finalResults item res Hfind Hne Hres
         idWords processed parts.
  unfold processId. rewrite Hfind. fold idWords.
  assert (Hlen : (0 <? length idWords)%nat = true).
  { apply Nat.ltb_lt. subst idWords. destruct (List.filter _ _); [done|].
    simpl. lia. }
  rewrite Hlen. unfold reconstructId. fold processed.
  pose proof (looseParts_numeric processed) as Hnum.
  rewrite looseParts_digitRuns in Hnum |- *. fold parts in Hnum |- *.
  destruct (slashMatch processed) as [[l r]|] eqn:Hm.
  - eexists. split.
    + unfold setTicketId. rewrite list_lookup_alter_eq, Hres. reflexivity.
    + simpl. split; [done|]. split; [done|]. by apply slashMatch_sound.
  - destruct (2 <=? length parts)%nat eqn:Hparts.
    + apply Nat.leb_le in Hparts. eexists. split.
      * unfold setTicketId. rewrite list_lookup_alter_eq, Hres. reflexivity.
      * simpl. split; [done|]. split; [by apply slashMatch_complete|].
        split; [exact Hnum|]. split; [|lia].
        intros _. destruct (last_two_split EmptyString parts Hparts) as [front Hf].
        eexists front, _, _. split; [exact Hf|reflexivity].
    + apply Nat.leb_gt in Hparts. exists res. split; [done|].
      split; [done|]. split; [by apply slashMatch_complete|].
      split; [exact Hnum|]. split; [lia|done].
Qed.

(** The theorem at the four words "SCHEIN", "160", "/", "400" centred in the
    identifier slot of ticket 0: the id becomes "160/400". *)
Lemma C6_identifier_reconstruction_witness :
  find (isIdOf 0) [idSlot] = Some idSlot
  /\ List.filter (fun w => centerInside w (spriteRect idSlot)) scheinWords <> []
  /\ initialResults (fun _ => 7) 1 !! 0%nat
     = Some {| ticketId := "ID-7"; grid := replicate 3 (replicate 6 0) |}
  /\ exists res',
       processId [idSlot] scheinWords 0 (initialResults (fun _ => 7) 1) !! 0%nat
       = Some res'
       /\ ticketId res' = "160/400"%string.
Proof.
  assert (Hfind : find (isIdOf 0) [idSlot] = Some idSlot) by reflexivity.
  assert (Hne : List.filter (fun w => centerInside w (spriteRect idSlot))
                            scheinWords <> []) by (vm_compute; discriminate).
  assert (Hres : initialResults (fun _ => 7) 1 !! 0%nat
     = Some {| ticketId := "ID-7"; grid := replicate 3 (replicate 6 0) |})
    by reflexivity.
  split; [exact Hfind|]. split; [exact Hne|]. split; [exact Hres|].
  destruct (proj1 C6_identifier_reconstruction _ _ _ _ _ _ Hfind Hne Hres)
    as (res' & Hlook & _ & Hid).
  exists res'. split; [exact Hlook|].
  vm_compute in Hid. exact (proj1 Hid).
Defined.

(** C6 (as stated, refuted): with the other characters deleted before the
    split, as the specification words the fallback, the text "12-34" leaves
    the single token "1234" and no identifier; the code turns the hyphen into
    a separator and answers "12/34". *)
Lemma C6_stripping_counterexample :
  reconstructId "12-34" = Some "12/34"%string
  /\ reconstructIdStripped "12-34" = None
  /\ reconstructId "12-34" <> reconstructIdStripped "12-34".
Proof. vm_compute. repeat split; discriminate. Qed.

(** ** Typed arrays and loops that write them *)

Lemma px_Some_lt arr i v : px arr i = Some v -> 0 <= i < Z.of_nat (length arr).
Proof.
  unfold px. destruct (i <? 0) eqn:Hi; [done|].
  apply Z.ltb_ge in Hi. intros Hl. apply lookup_lt_Some in Hl. lia.
Qed.

Lemma px_in_range arr i :
  0 <= i < Z.of_nat (length arr) -> exists v, px arr i = Some v.
Proof.
  intros [Hlo Hhi]. unfold px.
  destruct (i <? 0) eqn:Hi; [apply Z.ltb_lt in Hi; lia|].
  destruct (lookup_lt_is_Some_2 arr (Z.to_nat i)) as [v Hv]; [lia|].
  by exists v.
Qed.

Lemma pxSet_length arr i v : length (pxSet arr i v) = length arr.
Proof. unfold pxSet. destruct (i <? 0); [done|]. apply length_insert. Qed.

Lemma px_pxSet_eq arr i v :
  0 <= i < Z.of_nat (length arr) -> px (pxSet arr i v) i = Some v.
Proof.
  intros [Hlo Hhi]. unfold px, pxSet.
  destruct (i <? 0) eqn:Hi; [apply Z.ltb_lt in Hi; lia|].
  apply list_lookup_insert_eq. lia.
Qed.

Lemma px_pxSet_ne arr i j v : i <> j -> px (pxSet arr i v) j = px arr j.
Proof.
  intros Hij. unfold px, pxSet.
  destruct (j <? 0) eqn:Hj; [done|]. destruct (i <? 0) eqn:Hi; [done|].
  apply Z.ltb_ge in Hi, Hj. apply list_lookup_insert_ne. lia.
Qed.

Lemma px_replicate n v i :
  0 <= i < Z.of_nat n -> px (replicate n v) i = Some v.
Proof.
  intros [Hlo Hhi]. unfold px.
  destruct (i <? 0) eqn:Hi; [apply Z.ltb_lt in Hi; lia|].
  apply lookup_replicate_2. lia.
Qed.

Lemma fold_nested_pairs {S : Type} (g : S -> Z -> Z -> S) xs ys (s0 : S) :
  fold_left (fun s y => fold_left (fun s x => g s x y) xs s) ys s0
  = fold_left (fun s p => g s (fst p) (snd p)) (pairsOf xs ys) s0.
Proof.
  unfold pairsOf. revert s0. induction ys as [|y ys IH]; intros s0; [done|].
  simpl. rewrite fold_left_app, <- IH. f_equal.
  generalize s0. clear. induction xs as [|x xs IHx]; intros s; [done|].
  simpl. apply IHx.
Qed.

Lemma elem_of_pairsOf xs ys x y :
  (x, y) ∈ pairsOf xs ys <-> x ∈ xs /\ y ∈ ys.
Proof.
  unfold pairsOf. rewrite list_elem_of_In, in_flat_map. split.
  - intros (y' & Hy' & Hin). apply in_map_iff in Hin as (x' & [= -> ->] & Hx').
    by rewrite !list_elem_of_In.
  - intros [Hx Hy]. exists y. rewrite <- list_elem_of_In. split; [done|].
    apply in_map_iff. exists x. by rewrite <- list_elem_of_In.
Qed.

Lemma NoDup_pairsOf xs ys : NoDup xs -> NoDup ys -> NoDup (pairsOf xs ys).
Proof.
  intros Hxs Hys. unfold pairsOf. induction Hys as [|y ys Hy Hys IH]; simpl.
  - constructor.
  - apply NoDup_app. split; [|split; [|exact IH]].
    + apply NoDup_fmap_2; [|done]. by intros ?? [= ->].
    + intros [x' y'] Hin Hin'.
      apply list_elem_of_In, in_map_iff in Hin as (? & [= -> ->] & _).
      apply (elem_of_pairsOf xs ys x' y') in Hin' as [_ Hin']. done.
Qed.

Section Writes.
Context {A : Type} (idxOf : A -> Z) (val : A -> option Z).

Lemma writeStep_length out a : length ((writeStep idxOf val) out a) = length out.
Proof. unfold writeStep. destruct (val a); [apply pxSet_length|done]. Qed.

Lemma writeStep_frame out a j :
  idxOf a <> j -> px ((writeStep idxOf val) out a) j = px out j.
Proof.
  intros Hj. unfold writeStep. destruct (val a); [|done].
  by apply px_pxSet_ne.
Qed.

Lemma fold_write_length l out :
  length (fold_left (writeStep idxOf val) l out) = length out.
Proof.
  revert out. induction l as [|a l IH]; intros out; [done|].
  simpl. by rewrite IH, writeStep_length.
Qed.

Lemma fold_write_frame l out j :
  (forall a, a ∈ l -> idxOf a <> j) ->
  px (fold_left (writeStep idxOf val) l out) j = px out j.
Proof.
  revert out. induction l as [|a l IH]; intros out Hl; [done|].
  simpl. rewrite IH.
  - apply writeStep_frame, Hl. left.
  - intros b Hb. apply Hl. by right.
Qed.

Lemma px_writeStep_len out out' a :
  length out = length out' ->
  px out (idxOf a) = px out' (idxOf a) ->
  px ((writeStep idxOf val) out a) (idxOf a) = px ((writeStep idxOf val) out' a) (idxOf a).
Proof.
  intros Hlen Hpx. unfold writeStep. destruct (val a) as [v|]; [|done].
  destruct (decide (0 <= idxOf a < Z.of_nat (length out))) as [Hin|Hout].
  - rewrite !px_pxSet_eq; [done| |done]. by rewrite <- Hlen.
  - assert (Hid : forall o, length o = length out -> pxSet o (idxOf a) v = o).
    { intros o Ho. unfold pxSet. destruct (idxOf a <? 0) eqn:Hneg; [done|].
      apply Z.ltb_ge in Hneg. apply list_insert_ge. lia. }
    rewrite !Hid; done.
Qed.

(** With indices that tell the elements apart, the cell of [a] ends up as
    the body for [a] leaves it. *)
Lemma fold_write_at l out a :
  a ∈ l -> NoDup l ->
  (forall b, b ∈ l -> idxOf b = idxOf a -> b = a) ->
  px (fold_left (writeStep idxOf val) l out) (idxOf a) = px ((writeStep idxOf val) out a) (idxOf a).
Proof.
  revert out. induction l as [|b l IH]; intros out Hin Hnd Hinj.
  - by apply elem_of_nil in Hin.
  - apply NoDup_cons in Hnd as [Hb Hnd]. simpl.
    destruct (decide (idxOf b = idxOf a)) as [Heq|Hne].
    + assert (b = a) as -> by (apply Hinj; [left|done]).
      apply fold_write_frame. intros c Hc Hc'.
      assert (c = a) by (apply Hinj; [by right|done]). by subst.
    + apply elem_of_cons in Hin as [->|Hin]; [done|].
      rewrite IH; [|done|done|intros c Hc; apply Hinj; by right].
      apply px_writeStep_len; [apply writeStep_length|].
      by apply writeStep_frame.
Qed.

End Writes.

Lemma flat_index_inj (w x y x' y' : Z) :
  0 <= x < w -> 0 <= x' < w -> y * w + x = y' * w + x' -> x = x' /\ y = y'.
Proof.
  intros Hx Hx' Heq.
  destruct (Z.lt_trichotomy y y') as [Hlt|[->|Hgt]].
  - assert (y * w + w <= y' * w) by nia. lia.
  - lia.
  - assert (y' * w + w <= y * w) by nia. lia.
Qed.

Lemma flat_index_range (w h x y : Z) :
  0 <= x < w -> 0 <= y < h -> 0 <= y * w + x < Z.of_nat (Z.to_nat (w * h)).
Proof. intros Hx Hy. assert (y * w + w <= h * w) by nia. nia. Qed.

Lemma fold_left_ext_eq {S B : Type} (f g : S -> B -> S) (l : list B) (s : S) :
  (forall s b, f s b = g s b) -> fold_left f l s = fold_left g l s.
Proof.
  intros Hfg. revert s. induction l as [|b l IH]; intros s; [done|].
  simpl. by rewrite Hfg, IH.
Qed.

(** ** Morphological cleaner *)

Lemma erodeStep_writes iter width protectedRects inputData out x y :
  erodeStep iter width protectedRects inputData out x y
  = writeStep (flatIndex width)
              (erodeWrites iter width protectedRects inputData) out (x, y).
Proof.
  unfold erodeStep, writeStep, erodeWrites, flatIndex, survives. cbn [fst snd].
  destruct (existsb (inRect x y) protectedRects); [done|].
  destruct (pxIs inputData (y * width + x) black); [|done].
  cbn [andb]. destruct iter as [|iter].
  - by destruct (negb _).
  - by destruct (3 <=? _).
Qed.

Lemma erodePass_fold iter width height protectedRects inputData :
  erodePass iter width height protectedRects inputData
  = fold_left (writeStep (flatIndex width)
                         (erodeWrites iter width protectedRects inputData))
              (pairsOf (seqZ 1 (width - 2)) (seqZ 1 (height - 2)))
              (replicate (Z.to_nat (width * height)) white).
Proof.
  unfold erodePass.
  rewrite (fold_nested_pairs
             (fun out x y => erodeStep iter width protectedRects inputData out x y)).
  apply fold_left_ext_eq. intros out [x y]. apply erodeStep_writes.
Qed.

(** C7 (as the code has it): in every cleaning pass, erosion or despeckle, a
    pixel of the outermost one-pixel ring is Paper in the output, also when
    it lies inside a protected rectangle; a pixel that lies inside a
    protected rectangle and not on that ring has in the output the value it
    has in the input. *)
Theorem C7_protected_and_border (iter : nat) (width height : Z)
    (protectedRects : list Rect) (inputData : list Z) (x y : Z) :
  length inputData = Z.to_nat (width * height) ->
  0 <= x < width -> 0 <= y < height ->
  let outputData := erodePass iter width height protectedRects inputData in
  ((x = 0 \/ x = width - 1 \/ y = 0 \/ y = height - 1) ->
   px outputData (y * width + x) = Some white)
  /\ (0 < x < width - 1 -> 0 < y < height - 1 ->
      existsb (inRect x y) protectedRects = true ->
      px outputData (y * width + x) = px inputData (y * width + x)).
Proof.
  intros Hlen Hx Hy outputData. subst outputData.
  rewrite erodePass_fold.
  pose proof (flat_index_range width height x y Hx Hy) as Hrange.
  split.
  - intros Hborder.
    rewrite fold_write_frame; [by apply px_replicate|].
    intros [x' y'] Hin Heq. apply elem_of_pairsOf in Hin as [Hx' Hy'].
    apply elem_of_seqZ in Hx', Hy'. unfold flatIndex in Heq. cbn in Heq.
    destruct (flat_index_inj width x' y' x y) as [-> ->]; [lia|lia|done|lia].
  - intros Hxi Hyi Hprot.
    change (y * width + x) with (flatIndex width (x, y)).
    rewrite fold_write_at.
    + unfold writeStep, erodeWrites. cbn [fst snd]. rewrite Hprot.
      rewrite px_pxSet_eq by (rewrite length_replicate; exact Hrange).
      destruct (px_in_range inputData (flatIndex width (x, y))) as [v Hv];
        [rewrite Hlen; exact Hrange|].
      by rewrite Hv.
    + apply elem_of_pairsOf. rewrite !elem_of_seqZ. lia.
    + apply NoDup_pairsOf; apply NoDup_seqZ.
    + intros [x' y'] Hin Heq. apply elem_of_pairsOf in Hin as [Hx' Hy'].
      apply elem_of_seqZ in Hx', Hy'. unfold flatIndex in Heq. cbn in Heq.
      destruct (flat_index_inj width x' y' x y) as [-> ->]; [lia|lia|done|done].
Qed.

(** The theorem at the centre and at a corner of a 3 x 3 canvas of ink that
    is protected as a whole: the centre keeps its ink, the corner is Paper. *)
Lemma C7_protected_and_border_witness :
  length allInk3 = Z.to_nat (3 * 3)
  /\ px (erodePass 0 3 3 [wholeCanvas3] allInk3) (1 * 3 + 1)
     = px allInk3 (1 * 3 + 1)
  /\ px (erodePass 1 3 3 [wholeCanvas3] allInk3) (0 * 3 + 0) = Some white.
Proof.
  split; [reflexivity|]. split.
  - apply (C7_protected_and_border 0 3 3 [wholeCanvas3] allInk3 1 1);
      [reflexivity|lia|lia|lia|lia|reflexivity].
  - apply (C7_protected_and_border 1 3 3 [wholeCanvas3] allInk3 0 0);
      [reflexivity|lia|lia|lia].
Defined.

(** C7 (as stated, refuted): the corner (0, 0) of that canvas lies inside the
    protected rectangle and is ink in the input, yet both passes leave Paper
    there: the loops never reach the outermost ring, so its pixels are not
    copied. *)
Lemma C7_protected_border_pixel_counterexample :
  inRect 0 0 wholeCanvas3 = true
  /\ px allInk3 0 = Some black
  /\ px (erodePass 0 3 3 [wholeCanvas3] allInk3) 0 = Some white
  /\ px (erodePass 1 3 3 [wholeCanvas3] allInk3) 0 = Some white
  /\ px (erodePass 0 3 3 [wholeCanvas3] allInk3) 0 <> px allInk3 0.
Proof. vm_compute. repeat split; discriminate. Qed.

(** ** Content verification *)

Lemma fold_count {A : Type} (f : A -> bool) (l : list A) (n : Z) :
  fold_left (fun acc a => if f a then acc + 1 else acc) l n
  = n + Z.of_nat (length (filter (fun a => f a = true) l)).
Proof.
  revert n. induction l as [|a l IH]; intros n; simpl; [lia|].
  rewrite IH, filter_cons. destruct (f a) eqn:Hfa.
  - rewrite decide_True by done. simpl. lia.
  - rewrite decide_False by done. lia.
Qed.

Lemma denseBlackPixels_count data w h :
  denseBlackPixels data w h
  = Z.of_nat (length (filter (fun p => denseTest data w p = true)
                             (pairsOf (seqZ 1 (w - 2)) (seqZ 1 (h - 2))))).
Proof.
  unfold denseBlackPixels.
  rewrite (fold_nested_pairs (fun dense x y =>
    if pxIs data (y * w + x) black then
      if 6 <=? countIf
          [ pxIs data (y * w + x - 1) black; pxIs data (y * w + x + 1) black;
            pxIs data (y * w + x - w) black; pxIs data (y * w + x + w) black;
            pxIs data (y * w + x - w - 1) black;
            pxIs data (y * w + x - w + 1) black;
            pxIs data (y * w + x + w - 1) black;
            pxIs data (y * w + x + w + 1) black ]
      then dense + 1 else dense
    else dense)).
  rewrite <- (Z.add_0_l (Z.of_nat _)), <- fold_count.
  apply fold_left_ext_eq. intros dense [x y]. unfold denseTest. cbn [fst snd].
  destruct (pxIs data (y * w + x) black); [|done].
  cbn [andb]. by destruct (6 <=? _).
Qed.

Lemma inkAt_inside data w h i j :
  0 <= i < w -> 0 <= j < h -> inkAt data w h i j = pxIs data (j * w + i) black.
Proof.
  intros Hi Hj. unfold inkAt.
  rewrite (proj2 (Z.leb_le 0 i)), (proj2 (Z.ltb_lt i w)),
          (proj2 (Z.leb_le 0 j)), (proj2 (Z.ltb_lt j h)) by lia.
  done.
Qed.

Lemma inkAt_outside data w h i j :
  ~ (0 <= i < w /\ 0 <= j < h) -> inkAt data w h i j = false.
Proof.
  intros Hout. unfold inkAt.
  destruct (0 <=? i) eqn:H1; [|done]. destruct (i <? w) eqn:H2; [|done].
  destruct (0 <=? j) eqn:H3; [|done]. destruct (j <? h) eqn:H4; [|done].
  apply Z.leb_le in H1, H3. apply Z.ltb_lt in H2, H4. exfalso. apply Hout. lia.
Qed.

Lemma denseInk_interior data w h x y :
  0 < x < w - 1 -> 0 < y < h - 1 ->
  denseInk data w h (x, y) = denseTest data w (x, y).
Proof.
  intros Hx Hy. unfold denseInk, denseTest. cbn [fst snd].
  rewrite !inkAt_inside by lia.
  replace ((y - 1) * w + x) with (y * w + x - w) by ring.
  replace ((y + 1) * w + x) with (y * w + x + w) by ring.
  replace ((y - 1) * w + (x - 1)) with (y * w + x - w - 1) by ring.
  replace ((y - 1) * w + (x + 1)) with (y * w + x - w + 1) by ring.
  replace ((y + 1) * w + (x - 1)) with (y * w + x + w - 1) by ring.
  replace ((y + 1) * w + (x + 1)) with (y * w + x + w + 1) by ring.
  replace (y * w + (x - 1)) with (y * w + x - 1) by ring.
  replace (y * w + (x + 1)) with (y * w + x + 1) by ring.
  done.
Qed.

(** A pixel on the outermost ring of the crop has at most five neighbours
    inside it, so it is never dense. *)
Lemma denseInk_is_interior data w h x y :
  denseInk data w h (x, y) = true -> 0 < x < w - 1 /\ 0 < y < h - 1.
Proof.
  unfold denseInk. intros Hd. apply andb_true_iff in Hd as [Hink Hcnt].
  assert (Hin : 0 <= x < w /\ 0 <= y < h).
  { destruct (decide (0 <= x < w /\ 0 <= y < h)) as [?|Hout]; [done|].
    by rewrite inkAt_outside in Hink. }
  destruct (decide (0 < x)) as [Hx0|Hx0].
  2: { rewrite (inkAt_outside data w h (x - 1) y),
               (inkAt_outside data w h (x - 1) (y - 1)),
               (inkAt_outside data w h (x - 1) (y + 1)) in Hcnt by lia.
       exfalso. revert Hcnt.
       repeat match goal with |- context [inkAt ?d ?a ?b ?c ?e] =>
                destruct (inkAt d a b c e) end; done. }
  destruct (decide (x < w - 1)) as [Hx1|Hx1].
  2: { rewrite (inkAt_outside data w h (x + 1) y),
               (inkAt_outside data w h (x + 1) (y - 1)),
               (inkAt_outside data w h (x + 1) (y + 1)) in Hcnt by lia.
       exfalso. revert Hcnt.
       repeat match goal with |- context [inkAt ?d ?a ?b ?c ?e] =>
                destruct (inkAt d a b c e) end; done. }
  destruct (decide (0 < y)) as [Hy0|Hy0].
  2: { rewrite (inkAt_outside data w h x (y - 1)),
               (inkAt_outside data w h (x - 1) (y - 1)),
               (inkAt_outside data w h (x + 1) (y - 1)) in Hcnt by lia.
       exfalso. revert Hcnt.
       repeat match goal with |- context [inkAt ?d ?a ?b ?c ?e] =>
                destruct (inkAt d a b c e) end; done. }
  destruct (decide (y < h - 1)) as [Hy1|Hy1].
  2: { rewrite (inkAt_outside data w h x (y + 1)),
               (inkAt_outside data w h (x - 1) (y + 1)),
               (inkAt_outside data w h (x + 1) (y + 1)) in Hcnt by lia.
       exfalso. revert Hcnt.
       repeat match goal with |- context [inkAt ?d ?a ?b ?c ?e] =>
                destruct (inkAt d a b c e) end; done. }
  lia.
Qed.

Lemma denseBlackPixels_spec data w h :
  denseBlackPixels data w h = denseInkCount data w h.
Proof.
  rewrite denseBlackPixels_count. unfold denseInkCount. f_equal.
  apply Permutation_length, NoDup_Permutation.
  - apply NoDup_filter, NoDup_pairsOf; apply NoDup_seqZ.
  - apply NoDup_filter, NoDup_pairsOf; apply NoDup_seqZ.
  - intros [x y]. rewrite !list_elem_of_filter, !elem_of_pairsOf, !elem_of_seqZ.
    split.
    + intros (Hd & Hx & Hy). rewrite (denseInk_interior data w h) by lia.
      split; [done|lia].
    + intros (Hd & Hx & Hy).
      destruct (denseInk_is_interior _ _ _ _ _ Hd) as [Hxi Hyi].
      rewrite <- (denseInk_interior data w h) by lia. split; [done|lia].
Qed.

Lemma flat_map_mjoin {A B : Type} (f : A -> list B) (l : list A) :
  flat_map f l = mjoin (f <$> l).
Proof. induction l as [|a l IH]; simpl; [done|]. by rewrite IH. Qed.

(** The array [getImageData] returns holds the crop row by row: the entry
    [j * w + i] is the canvas pixel [(x + i, y + j)]. *)
Lemma getImageData_px cv x y w h i j :
  0 <= i < w -> 0 <= j < h ->
  px (getImageData cv x y w h) (j * w + i)
  = Some (canvasPixel cv (x + i) (y + j)).
Proof.
  intros Hi Hj. unfold px, getImageData.
  destruct (j * w + i <? 0) eqn:Hneg; [apply Z.ltb_lt in Hneg; nia|].
  replace (Z.to_nat (j * w + i))
    with (Z.to_nat j * Z.to_nat w + Z.to_nat i)%nat by nia.
  rewrite flat_map_mjoin.
  apply (join_lookup_Some_same_length' (Z.to_nat w)).
  - apply Forall_fmap, Forall_forall. intros j' _. simpl.
    rewrite length_map, length_seqZ. done.
  - lia.
  - eexists. split.
    + rewrite list_lookup_fmap, lookup_seqZ_lt by lia. reflexivity.
    + change (map ?f ?l) with (f <$> l).
      rewrite list_lookup_fmap, lookup_seqZ_lt by lia. simpl.
      do 2 f_equal; lia.
Qed.

(** C8: the ink test of a cropped region answers true exactly when the
    fraction of dense-ink pixels (ink pixels with at least 6 of their 8
    neighbours ink) in the crop's area is strictly above 1%.  A crop whose
    dense-ink fraction is exactly 1.5% has content, one with 0.5% has not. *)
Theorem C8_hasInk_threshold (cv : BinaryCanvas) (x y w h : Z) :
  let crop := getImageData cv x y w h in
  (hasInk cv x y w h = true <-> (1 # 100 < denseFraction crop w h)%Q)
  /\ (denseFraction crop w h == 15 # 1000 -> hasInk cv x y w h = true)
  /\ (denseFraction crop w h == 5 # 1000 -> hasInk cv x y w h = false).
Proof.
  intros crop.
  assert (Hiff : hasInk cv x y w h = true
                 <-> (1 # 100 < denseFraction crop w h)%Q).
  { unfold hasInk, hasInkData, denseFraction. fold crop.
    rewrite denseBlackPixels_spec. apply Qgtb_gt. }
  split; [exact Hiff|]. split.
  - intros Hf. apply Hiff. rewrite Hf. reflexivity.
  - intros Hf. destruct (hasInk cv x y w h) eqn:Hink; [|done].
    exfalso. destruct Hiff as [Hlt _]. specialize (Hlt eq_refl).
    rewrite Hf in Hlt. revert Hlt. by vm_compute.
Qed.

(** The theorem at two crops of 200 pixels: an ink block of 5 x 3 has three
    dense pixels (1.5%), one of 3 x 3 has one (0.5%). *)
Lemma C8_hasInk_threshold_witness :
  (denseFraction (getImageData (blockCanvas 5) 0 0 20 10) 20 10 == 15 # 1000
   /\ hasInk (blockCanvas 5) 0 0 20 10 = true)
  /\ (denseFraction (getImageData (blockCanvas 3) 0 0 20 10) 20 10 == 5 # 1000
      /\ hasInk (blockCanvas 3) 0 0 20 10 = false).
Proof.
  assert (H5 : denseFraction (getImageData (blockCanvas 5) 0 0 20 10) 20 10
               == 15 # 1000) by (vm_compute; reflexivity).
  assert (H3 : denseFraction (getImageData (blockCanvas 3) 0 0 20 10) 20 10
               == 5 # 1000) by (vm_compute; reflexivity).
  split; (split; [assumption|]).
  - exact (proj1 (proj2 (C8_hasInk_threshold (blockCanvas 5) 0 0 20 10)) H5).
  - exact (proj2 (proj2 (C8_hasInk_threshold (blockCanvas 3) 0 0 20 10)) H3).
Defined.

(** ** Ticket chunking *)

Lemma list_ind3 {A : Type} (P : list A -> Prop) :
  P [] -> (forall a, P [a]) -> (forall a b, P [a; b]) ->
  (forall a b c l, P l -> P (a :: b :: c :: l)) ->
  forall l, P l.
Proof.
  intros H0 H1 H2 H3 l.
  assert (Hall : P l /\ (forall a, P (a :: l)) /\ (forall a b, P (a :: b :: l))).
  { induction l as [|c l (IH0 & IH1 & IH2)]; [by auto|].
    split; [apply IH1|]. split; [intros a; apply IH2|].
    intros a b. by apply H3. }
  apply Hall.
Qed.

Lemma flushRows_groups (run : list Row) :
  flushRows run = map mkTicket (groupsOf3 run).
Proof.
  induction run as [| | |a b c l IH] using list_ind3; try reflexivity.
  unfold flushRows in *.
  replace (length (a :: b :: c :: l) / 3)%nat with (S (length l / 3)).
  2: { change (length (a :: b :: c :: l)) with (1 * 3 + length l)%nat.
       rewrite Nat.div_add_l by lia. lia. }
  cbn [seq map groupsOf3]. f_equal.
  rewrite <- IH, <- seq_shift, map_map.
  apply map_ext. intros k. reflexivity.
Qed.

Lemma groupsOf3_segment {A : Type} (l g : list A) :
  g ∈ groupsOf3 l ->
  length g = 3%nat /\ exists before after, l = before ++ g ++ after.
Proof.
  induction l as [| | |a b c l IH] using list_ind3; simpl;
    try (intros Hin; by apply elem_of_nil in Hin).
  intros Hin. apply elem_of_cons in Hin as [->|Hin].
  - split; [done|]. by exists [], l.
  - destruct (IH Hin) as (Hlen & before & after & ->).
    split; [done|]. by exists (a :: b :: c :: before), after.
Qed.

Lemma runsFrom_concat cur l : concat (runsFrom cur l) = cur ++ l.
Proof.
  revert cur. induction l as [|row l IH]; intros cur; simpl.
  - by rewrite !app_nil_r.
  - destruct (last cur) as [prev|] eqn:Hlast.
    + destruct (touches prev row).
      * by rewrite IH, <- app_assoc.
      * simpl. by rewrite IH.
    + apply last_None in Hlast as ->. by rewrite IH.
Qed.

Lemma chunk_fold_runs l ticketsRaw cur :
  (let '(t, c) := fold_left chunkStep l (ticketsRaw, cur) in t ++ flushRows c)
  = ticketsRaw ++ flat_map flushRows (runsFrom cur l).
Proof.
  revert ticketsRaw cur. induction l as [|row l IH]; intros ticketsRaw cur.
  - simpl. by rewrite app_nil_r.
  - cbn [fold_left runsFrom]. unfold chunkStep at 2.
    destruct (last cur) as [prev|].
    + destruct (touches prev row).
      * apply IH.
      * rewrite IH. cbn [flat_map]. by rewrite app_assoc.
    + apply IH.
Qed.

Lemma chunkTickets_runs l :
  chunkTickets l = map mkTicket (flat_map groupsOf3 (splitRuns l)).
Proof.
  unfold chunkTickets, splitRuns.
  pose proof (chunk_fold_runs l [] []) as Hf.
  destruct (fold_left chunkStep l ([], [])) as [t c]. rewrite Hf. simpl.
  generalize (runsFrom [] l). intros runs.
  induction runs as [|run runs IH]; simpl; [done|].
  by rewrite map_app, <- IH, flushRows_groups.
Qed.

Lemma Touching_snoc run prev row :
  Touching run -> last run = Some prev -> touches prev row = true ->
  Touching (run ++ [row]).
Proof.
  intros Hrun Hlast Ht i a b Ha Hb.
  assert (Hi : (S i < length (run ++ [row]))%nat) by (by apply lookup_lt_Some in Hb).
  rewrite length_app in Hi. simpl in Hi.
  destruct (decide (S i < length run)%nat) as [Hlt|Hge].
  - rewrite lookup_app_l in Ha, Hb by lia. by apply (Hrun i).
  - assert (S i = length run) as Hi' by lia.
    rewrite lookup_app_l in Ha by lia.
    rewrite lookup_app_r, Hi', Nat.sub_diag in Hb by lia.
    injection Hb as <-.
    rewrite last_lookup in Hlast.
    replace (Nat.pred (length run)) with i in Hlast by lia.
    rewrite Ha in Hlast. injection Hlast as ->. done.
Qed.

Lemma runsFrom_touching cur l :
  Touching cur -> Forall Touching (runsFrom cur l).
Proof.
  revert cur. induction l as [|row l IH]; intros cur Hcur; simpl.
  - by constructor.
  - assert (Hone : Touching [row]).
    { intros i a b Ha Hb. apply lookup_lt_Some in Hb. simpl in Hb. lia. }
    destruct (last cur) as [prev|] eqn:Hlast.
    + destruct (touches prev row) eqn:Ht.
      * apply IH. by apply (Touching_snoc cur prev).
      * constructor; [done|]. by apply IH.
    + by apply IH.
Qed.

Lemma runsFrom_head cur l :
  exists more rest, runsFrom cur l = (cur ++ more) :: rest.
Proof.
  revert cur. induction l as [|row l IH]; intros cur; simpl.
  - exists [], []. by rewrite app_nil_r.
  - destruct (last cur) as [prev|] eqn:Hlast.
    + destruct (touches prev row).
      * destruct (IH (cur ++ [row])) as (more & rest & ->).
        exists (row :: more), rest. by rewrite <- app_assoc.
      * exists [], (runsFrom [row] l). by rewrite app_nil_r.
    + apply last_None in Hlast as ->.
      destruct (IH [row]) as (more & rest & ->). by exists (row :: more), rest.
Qed.

Lemma runsFrom_separated cur l : Separated (runsFrom cur l).
Proof.
  revert cur. induction l as [|row l IH]; intros cur; simpl.
  - intros i r1 r2 a b _ Hr2. by destruct i.
  - destruct (last cur) as [prev|] eqn:Hlast.
    + destruct (touches prev row) eqn:Ht; [apply IH|].
      intros [|i] r1 r2 a b Hr1 Hr2 Ha Hb.
      * simpl in Hr1, Hr2. injection Hr1 as <-.
        destruct (runsFrom_head [row] l) as (more & rest & Heq).
        rewrite Heq in Hr2. simpl in Hr2. injection Hr2 as <-.
        simpl in Hb. injection Hb as <-. congruence.
      * simpl in Hr1, Hr2. by apply (IH [row] i r1 r2).
    + apply IH.
Qed.

Section SortOrder.
Context {A : Type} (lt : A -> A -> bool).
Hypothesis lt_asym : forall a b, lt a b = true -> lt b a = false.

Let le (a b : A) : Prop := lt b a = false.

Lemma insert_sorted_HdRel a b l :
  le b a -> HdRel le b l -> HdRel le b (insert_sorted lt a l).
Proof.
  intros Hba Hbl. destruct l as [|c l]; simpl; [by constructor|].
  inversion Hbl; subst. destruct (lt c a); by constructor.
Qed.

Lemma insert_sorted_Sorted a l :
  Sorted le l -> Sorted le (insert_sorted lt a l).
Proof.
  induction 1 as [|b l Hl IH Hhd]; simpl.
  - by repeat constructor.
  - destruct (lt b a) eqn:Hba.
    + constructor; [exact IH|].
      apply insert_sorted_HdRel; [|exact Hhd]. by apply lt_asym.
    + constructor; [by constructor|]. by constructor.
Qed.

Lemma js_sort_Sorted l : Sorted le (js_sort lt l).
Proof.
  induction l as [|a l IH]; simpl; [constructor|].
  by apply insert_sorted_Sorted.
Qed.

End SortOrder.

Lemma validRowsOf_sorted rawComponents :
  Sorted (fun a b => (y a <= y b)%Q) (validRowsOf rawComponents).
Proof.
  unfold validRowsOf.
  eapply Sorted_ind with (P := Sorted (fun a b => (y a <= y b)%Q)).
  3: { apply (js_sort_Sorted (fun a b => Qltb (y a) (y b))).
       intros a b Hab. apply Qltb_ge, Qlt_le_weak. by apply Qltb_lt. }
  - constructor.
  - intros a l _ IH Hhd. constructor; [exact IH|].
    destruct Hhd as [|b l Hb]; constructor. by apply Qltb_ge.
Qed.

Lemma touches_gap prev row :
  touches prev row = true <-> (gapBefore prev row < (2 # 10) * h row)%Q.
Proof.
  unfold touches, gapBefore. rewrite Qltb_lt. split; intros Hlt; lra.
Qed.

Lemma touches_no_gap prev row :
  touches prev row = false <-> ((2 # 10) * h row <= gapBefore prev row)%Q.
Proof.
  unfold touches, gapBefore. rewrite Qltb_ge. split; intros Hle; lra.
Qed.

Lemma runsFrom_nonempty cur l :
  cur <> [] -> Forall (fun run => run <> []) (runsFrom cur l).
Proof.
  revert cur. induction l as [|row l IH]; intros cur Hcur; simpl.
  - by constructor.
  - destruct (last cur) as [prev|] eqn:Hlast.
    + destruct (touches prev row).
      * apply IH. by destruct cur.
      * constructor; [done|]. by apply IH.
    + by apply IH.
Qed.

(** C3: for every component list, the rows handed to the chunking are in
    ascending y order and fall into runs: inside a run every row follows the
    one before it with a gap below 0.2 x its height, and a new run starts
    exactly where the gap to the row before is at least 0.2 x the row's
    height.  The tickets are the consecutive groups of exactly three rows of
    each run, a remainder of one or two rows being dropped.  So every ticket
    has exactly 3 rows, and they are consecutive in the sorted rows. *)
Theorem C3_ticket_chunking (rawComponents : list Rect) :
  let validRows := validRowsOf rawComponents in
  let runs := splitRuns validRows in
  Sorted (fun a b => (y a <= y b)%Q) validRows
  /\ concat runs = validRows
  /\ (validRows <> [] -> Forall (fun run => run <> []) runs)
  /\ Forall NoGapWithin runs
  /\ GapBetween runs
  /\ ticketsOfComponents rawComponents
     = map mkTicket (flat_map groupsOf3 runs)
  /\ forall t, t ∈ ticketsOfComponents rawComponents ->
       length (rows t) = 3%nat
       /\ exists before after, validRows = before ++ rows t ++ after.
Proof.
  intros validRows runs.
  assert (Hconcat : concat runs = validRows) by apply runsFrom_concat.
  assert (Heq : ticketsOfComponents rawComponents
                = map mkTicket (flat_map groupsOf3 runs))
    by apply chunkTickets_runs.
  split; [apply validRowsOf_sorted|]. split; [exact Hconcat|].
  split.
  { intros Hne. subst runs. unfold splitRuns.
    destruct validRows as [|row l]; [done|].
    cbn [runsFrom last]. by apply runsFrom_nonempty. }
  split.
  { eapply Forall_impl.
    - apply (runsFrom_touching [] validRows). intros i a b Ha. by destruct i.
    - intros run Hrun i a b Ha Hb. by apply touches_gap, (Hrun i). }
  split.
  { intros i r1 r2 a b Hr1 Hr2 Ha Hb.
    by apply touches_no_gap, (runsFrom_separated [] validRows i r1 r2). }
  split; [exact Heq|].
  intros t Ht. rewrite Heq in Ht.
  apply list_elem_of_In, in_map_iff in Ht as (g & <- & Hg).
  apply in_flat_map in Hg as (run & Hrun & Hg).
  apply list_elem_of_In in Hg.
  destruct (groupsOf3_segment run g Hg) as (Hlen & b1 & a1 & Hseg).
  split; [exact Hlen|].
  apply list_elem_of_In, list_elem_of_split in Hrun as (r1 & r2 & Hruns).
  exists (concat r1 ++ b1), (a1 ++ concat r2).
  rewrite <- Hconcat, Hruns, concat_app. simpl. rewrite Hseg.
  by rewrite <- !app_assoc.
Qed.

(** The theorem at the seven components: the rows fall into a run of three
    and, after a gap of 100 (0.2 x the row height is 20), a run of four; the
    first ticket has three rows, consecutive in the sorted rows, and the
    seventh row is dropped. *)
Lemma C3_ticket_chunking_witness :
  map length (splitRuns (validRowsOf sevenRows)) = [3; 4]%nat
  /\ length (ticketsOfComponents sevenRows) = 2%nat
  /\ GapBetween (splitRuns (validRowsOf sevenRows))
  /\ exists t,
       t ∈ ticketsOfComponents sevenRows
       /\ length (rows t) = 3%nat
       /\ exists before after,
            validRowsOf sevenRows = before ++ rows t ++ after.
Proof.
  split; [by vm_compute|]. split; [by vm_compute|].
  split; [exact (proj1 (proj2 (proj2 (proj2 (proj2
                   (C3_ticket_chunking sevenRows))))))|].
  assert (Hts : exists t rest, ticketsOfComponents sevenRows = t :: rest)
    by (vm_compute; eauto).
  destruct Hts as (t & rest & Hts).
  assert (Hin : t ∈ ticketsOfComponents sevenRows) by (rewrite Hts; left).
  exists t. split; [exact Hin|].
  exact (proj2 (proj2 (proj2 (proj2 (proj2 (proj2
                 (C3_ticket_chunking sevenRows))))))
               t Hin).
Defined.

(** ** Component detector on an image that is all Paper *)

Lemma pxIs_true arr i v : pxIs arr i v = true <-> px arr i = Some v.
Proof.
  unfold pxIs. destruct (px arr i) as [u|]; [|done].
  rewrite Z.eqb_eq. split; [by intros ->|by intros [= ->]].
Qed.

Lemma zeros_insert (v : list Z) (n : nat) :
  v !! n = Some 0 -> (zeros (<[n := 1%Z]> v) + 1 = zeros v)%nat.
Proof.
  unfold zeros. revert n. induction v as [|e v IH]; intros n Hn; [done|].
  destruct n as [|n]; simpl in *.
  - injection Hn as ->. rewrite !filter_cons.
    rewrite decide_False by done. rewrite decide_True by done. simpl. lia.
  - rewrite !filter_cons. specialize (IH n Hn).
    destruct (decide (e = 0)); simpl; lia.
Qed.

Lemma zeros_pxSet v i :
  px v i = Some 0 -> (zeros (pxSet v i 1) + 1 = zeros v)%nat.
Proof.
  unfold px, pxSet. destruct (i <? 0); [done|]. apply zeros_insert.
Qed.

Lemma zeros_replicate n : zeros (replicate n 0) = n.
Proof.
  unfold zeros. induction n as [|n IH]; [done|].
  cbn [replicate]. rewrite filter_cons, decide_True by done.
  cbn [length]. by rewrite IH.
Qed.

(** *** The fuel of the fill

    Every turn of the [while] loop pops one cell, and every push turns one 0
    of the visited map into a 1: the number of zeros plus the height of the
    stack goes down by one per turn.  A fill that [scanCell] starts on a
    visited map of the right size therefore empties its stack within the
    [sW * sH] turns it is given, whatever the image. *)

Lemma visitNeighbor_measure binData width height st n :
  (zeros (fst (visitNeighbor binData width height st n))
   + length (snd (visitNeighbor binData width height st n))
   = zeros (fst st) + length (snd st))%nat.
Proof.
  destruct st as [v q], n as [nx ny]. unfold visitNeighbor.
  destruct (_ && _); [|done].
  destruct (pxIs v (idx width nx ny) 0) eqn:H0; [|done].
  destruct (pxIs binData _ 1); [|done].
  apply pxIs_true in H0. pose proof (zeros_pxSet v _ H0). simpl. lia.
Qed.

Lemma visitNeighbor_length binData width height st n :
  length (fst (visitNeighbor binData width height st n)) = length (fst st).
Proof.
  destruct st as [v q], n as [nx ny]. unfold visitNeighbor.
  destruct (_ && _); [|done]. destruct (pxIs v _ 0); [|done].
  destruct (pxIs binData _ 1); [|done]. apply pxSet_length.
Qed.

Lemma fillStep_measure binData width height st cx cy q :
  queue st = (cx, cy) :: q ->
  let st' := fillStep binData width height cx cy q st in
  (zeros (visited st') + length (queue st') + 1
   = zeros (visited st) + length (queue st))%nat
  /\ length (visited st') = length (visited st).
Proof.
  intros Hq st'. subst st'. unfold fillStep.
  assert (Hfold : forall ns s,
    (zeros (fst (fold_left (visitNeighbor binData width height) ns s))
     + length (snd (fold_left (visitNeighbor binData width height) ns s))
     = zeros (fst s) + length (snd s))%nat
    /\ length (fst (fold_left (visitNeighbor binData width height) ns s))
       = length (fst s)).
  { induction ns as [|n ns IH]; intros s; [done|]. simpl.
    destruct (IH (visitNeighbor binData width height s n)) as [-> ->].
    split; [apply visitNeighbor_measure|apply visitNeighbor_length]. }
  destruct (Hfold [(cx + 1, cy); (cx - 1, cy); (cx, cy + 1); (cx, cy - 1)]
                  (visited st, q)) as [Hm Hl].
  destruct (fold_left _ _ _) as [vis' q']. cbn [fst snd visited queue] in *.
  rewrite Hq. simpl. lia.
Qed.

Lemma floodFill_completes binData width height fuel st :
  (zeros (visited st) + length (queue st) <= fuel)%nat ->
  queue (floodFill binData width height fuel st) = []
  /\ length (visited (floodFill binData width height fuel st))
     = length (visited st).
Proof.
  revert st. induction fuel as [|fuel IH]; intros st Hfuel; simpl.
  - split; [|done]. destruct (queue st); [done|simpl in Hfuel; lia].
  - destruct (queue st) as [|[cx cy] q] eqn:Hq; [by rewrite Hq|].
    destruct (fillStep_measure binData width height st cx cy q Hq) as [Hm Hl].
    destruct (IH (fillStep binData width height cx cy q st)) as [He Hl'].
    { rewrite Hq in Hm. simpl in Hm, Hfuel. lia. }
    split; [done|]. by rewrite Hl', Hl.
Qed.

Lemma zeros_le_length v : (zeros v <= length v)%nat.
Proof. apply length_filter. Qed.

(** The fill [scanCell] starts at an unvisited cell of the grid ends with an
    empty stack. *)
Lemma scanCell_fill_completes binData width height vis x y' :
  length vis = Z.to_nat (sW width * sH width height) ->
  0 <= x < sW width -> 0 <= y' < sH width height ->
  truthy (px vis (idx width x y')) = false ->
  queue (floodFill binData width height (Z.to_nat (sW width * sH width height))
           {| queue := [(x, y')]; visited := pxSet vis (idx width x y') 1;
              minX := x; maxX := x; minY := y'; maxY := y' |}) = [].
Proof.
  intros Hlen Hx Hy Hfresh. apply floodFill_completes. cbn [visited queue].
  pose proof (flat_index_range _ _ _ _ Hx Hy) as Hr.
  destruct (px_in_range vis (idx width x y')) as [e He];
    [rewrite Hlen; exact Hr|].
  rewrite He in Hfresh. simpl in Hfresh. apply negb_false_iff, Z.eqb_eq in Hfresh.
  subst e. pose proof (zeros_pxSet vis _ He). pose proof (zeros_le_length vis).
  simpl. lia.
Qed.

Section AllPaper.
Variables (binData : list Z) (width height : Z).

Local Abbreviation W := (sW width).
Local Abbreviation H := (sH width height).
Local Abbreviation ix := (idx width).

Hypothesis W_pos : 0 < W.
Hypothesis all_paper :
  forall x y, 0 <= x < W -> 0 <= y < H ->
              px binData (originalIdx width x y) = Some 1.

Lemma ix_inj c d : inGrid width height c -> inGrid width height d ->
  ix (fst c) (snd c) = ix (fst d) (snd d) -> c = d.
Proof.
  intros [Hc _] [Hd _] Heq. unfold idx in Heq.
  destruct (flat_index_inj W _ _ _ _ Hc Hd Heq) as [Hx Hy].
  destruct c, d; simpl in *; congruence.
Qed.

Lemma ix_range c : inGrid width height c ->
  0 <= ix (fst c) (snd c) < Z.of_nat (Z.to_nat (W * H)).
Proof. intros [Hx Hy]. by apply flat_index_range. Qed.

Lemma goodMap_cell v c : goodMap width height v -> inGrid width height c ->
  px v (ix (fst c) (snd c)) = Some 0 \/ seen width v c.
Proof.
  intros [Hlen Hall] Hc.
  destruct (px_in_range v (ix (fst c) (snd c))) as [e He];
    [rewrite Hlen; by apply ix_range|].
  unfold seen. rewrite He.
  assert (e = 0 \/ e = 1) as [->| ->]; [|by left|by right].
  unfold px in He. destruct (_ <? 0); [done|].
  by apply (Forall_lookup_1 _ _ _ _ Hall He).
Qed.

Lemma goodMap_pxSet v i : goodMap width height v -> goodMap width height (pxSet v i 1).
Proof.
  intros [Hlen Hall]. split; [by rewrite pxSet_length|].
  unfold pxSet. destruct (i <? 0); [done|].
  apply Forall_insert; [done|by right].
Qed.

Lemma seen_pxSet v c d : seen width v c -> seen width (pxSet v (ix (fst d) (snd d)) 1) c.
Proof.
  unfold seen. intros Hc.
  destruct (decide (ix (fst d) (snd d) = ix (fst c) (snd c))) as [Heq|Hne].
  - rewrite Heq. apply px_pxSet_eq. by apply px_Some_lt in Hc.
  - by rewrite px_pxSet_ne.
Qed.

(** What one neighbour visit does on an all-Paper image. *)
Lemma visitNeighbor_cases v q n :
  goodMap width height v ->
  (inGrid width height n /\ px v (ix (fst n) (snd n)) = Some 0
   /\ visitNeighbor binData width height (v, q) n
      = (pxSet v (ix (fst n) (snd n)) 1, n :: q))
  \/ ((~ inGrid width height n \/ seen width v n)
      /\ visitNeighbor binData width height (v, q) n = (v, q)).
Proof.
  intros Hv. destruct n as [nx ny]. unfold visitNeighbor. cbn [fst snd].
  destruct ((0 <=? nx) && (nx <? W) && (0 <=? ny) && (ny <? H)) eqn:Hb.
  - assert (Hn : inGrid width height (nx, ny)).
    { apply andb_true_iff in Hb as [Hb H4].
      apply andb_true_iff in Hb as [Hb H3].
      apply andb_true_iff in Hb as [H1 H2].
      apply Z.leb_le in H1, H3. apply Z.ltb_lt in H2, H4.
      split; simpl; lia. }
    destruct (goodMap_cell v (nx, ny) Hv Hn) as [H0|H1].
    + left. split; [done|]. split; [done|]. cbn [fst snd] in H0.
      rewrite (proj2 (pxIs_true _ _ _) H0).
      destruct Hn as [Hx Hy].
      by rewrite (proj2 (pxIs_true _ _ _) (all_paper nx ny Hx Hy)).
    + right. split; [by right|]. unfold seen in H1. cbn [fst snd] in H1.
      unfold pxIs. by rewrite H1.
  - right. split; [|done]. left. intros [Hx Hy]. simpl in *.
    rewrite (proj2 (Z.leb_le 0 nx)), (proj2 (Z.ltb_lt nx W)),
            (proj2 (Z.leb_le 0 ny)), (proj2 (Z.ltb_lt ny H)) in Hb by lia.
    done.
Qed.

Lemma grows_refl st : goodMap width height (fst st) -> grows width height st st.
Proof.
  intros Hv. split; [done|]. split; [done|]. exists [].
  split; [done|]. split; [by intros c Hc%elem_of_nil|].
  split; [by left|]. simpl. lia.
Qed.

Lemma grows_trans st1 st2 st3 : grows width height st1 st2 -> grows width height st2 st3 -> grows width height st1 st3.
Proof.
  intros (_ & Hm1 & new1 & Hq1 & Hn1 & Hs1 & Hz1)
         (Hv3 & Hm2 & new2 & Hq2 & Hn2 & Hs2 & Hz2).
  split; [done|]. split; [by auto|]. exists (new2 ++ new1).
  split; [by rewrite Hq2, Hq1, app_assoc|]. split; [|split].
  - intros c Hc. apply elem_of_app in Hc as [Hc|Hc]; [by apply Hn2|].
    destruct (Hn1 c Hc) as [Hg Hsn]. by auto.
  - intros c Hg Hc. destruct (Hs2 c Hg Hc) as [Hc2|Hc2].
    + destruct (Hs1 c Hg Hc2) as [?|?]; [by left|].
      right. apply elem_of_app. by right.
    + right. apply elem_of_app. by left.
  - rewrite length_app. lia.
Qed.

Lemma visitNeighbor_grows st n :
  goodMap width height (fst st) ->
  grows width height st (visitNeighbor binData width height st n)
  /\ (inGrid width height n -> seen width (fst (visitNeighbor binData width height st n)) n).
Proof.
  destruct st as [v q]. cbn [fst]. intros Hv.
  destruct (visitNeighbor_cases v q n Hv) as [(Hn & H0 & ->)|([Hn|Hn] & ->)].
  - assert (Hnew : seen width (pxSet v (ix (fst n) (snd n)) 1) n).
    { apply px_pxSet_eq. by apply px_Some_lt in H0. }
    split; [|done]. split; [by apply goodMap_pxSet|].
    split; [intros c; apply seen_pxSet|]. exists [n]. cbn [fst snd].
    split; [done|]. split; [|split].
    + intros c Hc%list_elem_of_singleton. by subst.
    + intros c Hg Hc.
      destruct (decide (ix (fst n) (snd n) = ix (fst c) (snd c))) as [Heq|Hne].
      * right. apply list_elem_of_singleton. symmetry. by apply ix_inj.
      * left. unfold seen in *. by rewrite px_pxSet_ne in Hc.
    + pose proof (zeros_pxSet v _ H0). simpl. lia.
  - split; [by apply grows_refl|done].
  - split; [by apply grows_refl|done].
Qed.

Lemma visitNeighbors_grow ns st :
  goodMap width height (fst st) ->
  grows width height st (fold_left (visitNeighbor binData width height) ns st)
  /\ (forall n, n ∈ ns -> inGrid width height n ->
        seen width (fst (fold_left (visitNeighbor binData width height) ns st)) n).
Proof.
  revert st. induction ns as [|n ns IH]; intros st Hv.
  - split; [by apply grows_refl|]. by intros n Hn%elem_of_nil.
  - cbn [fold_left].
    destruct (visitNeighbor_grows st n Hv) as [Hg1 Hn1].
    destruct (IH _ (proj1 Hg1)) as [Hg2 Hn2].
    split; [by eapply grows_trans|].
    intros m Hm Hgm. apply elem_of_cons in Hm as [->|Hm]; [|by apply Hn2].
    apply (proj1 (proj2 Hg2)). by apply Hn1.
Qed.

Lemma fillStep_inv st cx cy q :
  fillInv width height st -> queue st = (cx, cy) :: q ->
  let st' := fillStep binData width height cx cy q st in
  fillInv width height st'
  /\ (forall c, seen width (visited st) c -> seen width (visited st') c)
  /\ (zeros (visited st') + length (queue st') + 1
      = zeros (visited st) + length (queue st))%nat.
Proof.
  intros (Hv & Hq & Hc) Hqueue st'. subst st'. unfold fillStep.
  destruct (visitNeighbors_grow (neighboursOf (cx, cy)) (visited st, q) Hv)
    as [(Hv' & Hmono & new & Hq' & Hnew & Hseen & Hz) Hnb].
  cbn [neighboursOf fst snd] in *.
  destruct (fold_left _ _ _) as [vis' q'] eqn:Hfold.
  cbn [fst snd queue visited minX maxX minY maxY] in *. subst q'.
  split; [|split; [done|]].
  - split; [done|]. split.
    + intros c Hin. apply elem_of_app in Hin as [Hin|Hin]; [by apply Hnew|].
      destruct (Hq c) as [Hg Hs]; [rewrite Hqueue; by right|]. by auto.
    + intros c Hg Hs. destruct (Hseen c Hg Hs) as [Hold|Hin].
      2: { left. apply elem_of_app. by left. }
      destruct (Hc c Hg Hold) as [Hin|[[Hbx Hby] Hcl]].
      * rewrite Hqueue in Hin. apply elem_of_cons in Hin as [->|Hin].
        -- right. split.
           ++ cbn [fst snd minX maxX minY maxY].
              destruct (cx <? minX st) eqn:H1; destruct (maxX st <? cx) eqn:H2;
              destruct (cy <? minY st) eqn:H3; destruct (maxY st <? cy) eqn:H4;
              rewrite ?Z.ltb_lt, ?Z.ltb_ge in *; lia.
           ++ intros n Hn Hgn. cbn [visited]. by apply Hnb.
        -- left. apply elem_of_app. by right.
      * right. split.
        -- cbn [fst snd minX maxX minY maxY].
           destruct (cx <? minX st) eqn:H1; destruct (maxX st <? cx) eqn:H2;
           destruct (cy <? minY st) eqn:H3; destruct (maxY st <? cy) eqn:H4;
           rewrite ?Z.ltb_lt, ?Z.ltb_ge in *; lia.
        -- intros n Hn Hgn. cbn [visited]. by auto.
  - rewrite Hqueue, length_app. simpl. lia.
Qed.

Lemma floodFill_inv fuel st :
  fillInv width height st ->
  (zeros (visited st) + length (queue st) <= fuel)%nat ->
  let st' := floodFill binData width height fuel st in
  fillInv width height st' /\ queue st' = []
  /\ (forall c, seen width (visited st) c -> seen width (visited st') c).
Proof.
  revert st. induction fuel as [|fuel IH]; intros st Hinv Hfuel; simpl.
  - split; [done|]. split; [|done].
    destruct (queue st); [done|simpl in Hfuel; lia].
  - destruct (queue st) as [|[cx cy] q] eqn:Hqueue; [by rewrite Hqueue|].
    destruct (fillStep_inv st cx cy q Hinv Hqueue) as (Hinv' & Hmono & Hz).
    destruct (IH _ Hinv') as (Hfin & Hempty & Hmono').
    { rewrite Hqueue in Hz. simpl in Hz. simpl in Hfuel. lia. }
    split; [done|]. split; [done|]. by auto.
Qed.

(** In a grid whose visited cells all have their neighbours visited, a
    visited corner means that every cell is visited. *)
Lemma closed_grid_seen v :
  (forall c, inGrid width height c -> seen width v c ->
     forall n, n ∈ neighboursOf c -> inGrid width height n -> seen width v n) ->
  seen width v (0, 0) -> forall c, inGrid width height c -> seen width v c.
Proof.
  intros Hcl H00.
  assert (Hrow : forall x, 0 <= x -> x < W -> 0 < H -> seen width v (x, 0)).
  { apply (natlike_ind (fun x => x < W -> 0 < H -> seen width v (x, 0))); [done|].
    intros x Hx IHx HxW HH.
    apply (Hcl (x, 0)); [split; simpl; lia|apply IHx; lia| |split; simpl; lia].
    unfold neighboursOf. cbn [fst snd]. replace (Z.succ x) with (x + 1) by lia.
    left. }
  assert (Hcol : forall y, 0 <= y -> forall x, 0 <= x < W -> y < H ->
                   seen width v (x, y)).
  { apply (natlike_ind (fun y => forall x, 0 <= x < W -> y < H -> seen width v (x, y))).
    - intros x Hx HH. apply Hrow; lia.
    - intros y Hy IHy x Hx HyH.
      apply (Hcl (x, y)); [split; simpl; lia|apply IHy; lia| |split; simpl; lia].
      unfold neighboursOf. cbn [fst snd]. replace (Z.succ y) with (y + 1) by lia.
      do 2 right. left. }
  intros [x y] [Hx Hy]. simpl in *. apply Hcol; lia.
Qed.

Lemma keepComponent_too_big w h' :
  W <= w -> keepComponent width height w h' = false.
Proof.
  intros Hw. unfold keepComponent.
  assert (Hbig : Qltb (ofZ w) (ofZ W * (25 # 100)) = false).
  { apply Qltb_ge. apply ofZ_le in Hw.
    assert (0 < ofZ W)%Q by (by apply (ofZ_lt 0)). lra. }
  rewrite Hbig. by rewrite andb_false_r.
Qed.

Lemma fold_left_fixed {S B : Type} (f : S -> B -> S) (l : list B) (s : S) :
  (forall b, b ∈ l -> f s b = s) -> fold_left f l s = s.
Proof.
  induction l as [|b l IH]; intros Hl; [done|].
  simpl. rewrite Hl by left. apply IH. intros c Hc. apply Hl. by right.
Qed.

(** The first cell starts a fill that covers the whole grid; the region is
    as wide as the grid and is rejected. *)
Lemma scanCell_first :
  0 < H ->
  exists v1,
    scanCell binData width height (replicate (Z.to_nat (W * H)) 0, []) 0 0
    = (v1, [])
    /\ forall c, inGrid width height c -> seen width v1 c.
Proof.
  intros HH.
  assert (H00 : inGrid width height (0, 0)) by (split; simpl; lia).
  pose proof (ix_range (0, 0) H00) as Hr. cbn [fst snd] in Hr.
  set (n := Z.to_nat (W * H)) in *.
  unfold scanCell.
  rewrite (px_replicate n 0 (ix 0 0) Hr). cbn [truthy Z.eqb negb].
  assert (Hpaper : pxIs binData (originalIdx width 0 0) 0 = false).
  { unfold pxIs. rewrite (all_paper 0 0) by lia. reflexivity. }
  rewrite Hpaper.
  set (st0 := {| queue := [(0, 0)]; visited := pxSet (replicate n 0) (ix 0 0) 1;
                 minX := 0; maxX := 0; minY := 0; maxY := 0 |}).
  assert (Hseen0 : seen width (visited st0) (0, 0)).
  { apply px_pxSet_eq. by rewrite length_replicate. }
  assert (Hgood0 : goodMap width height (visited st0)).
  { apply goodMap_pxSet. split; [apply length_replicate|].
    apply Forall_replicate. by left. }
  assert (Hinv0 : fillInv width height st0).
  { split; [done|]. split.
    - intros c Hc%list_elem_of_singleton. by subst.
    - intros c Hg Hc. left. apply list_elem_of_singleton.
      destruct (decide (ix 0 0 = ix (fst c) (snd c))) as [Heq|Hne].
      + symmetry. by apply (ix_inj (0, 0) c).
      + unfold seen, st0 in Hc. cbn [visited] in Hc.
        rewrite px_pxSet_ne in Hc by done.
        rewrite px_replicate in Hc by (by apply ix_range). done. }
  assert (Hfuel : (zeros (visited st0) + length (queue st0) <= n)%nat).
  { pose proof (zeros_pxSet (replicate n 0) (ix 0 0)
                  (px_replicate n 0 _ Hr)) as Hz.
    rewrite zeros_replicate in Hz. simpl. lia. }
  destruct (floodFill_inv n st0 Hinv0 Hfuel) as ((_ & _ & Hcl) & Hempty & Hmono).
  set (st1 := floodFill binData width height n st0) in *.
  assert (Hall : forall c, inGrid width height c -> seen width (visited st1) c).
  { apply closed_grid_seen; [|by apply Hmono].
    intros c Hg Hc. destruct (Hcl c Hg Hc) as [Hin|[_ Hnb]]; [|done].
    rewrite Hempty in Hin. by apply elem_of_nil in Hin. }
  assert (Hbox : forall c, inGrid width height c ->
                   minX st1 <= fst c <= maxX st1).
  { intros c Hg. destruct (Hcl c Hg (Hall c Hg)) as [Hin|[[Hbx _] _]]; [|done].
    rewrite Hempty in Hin. by apply elem_of_nil in Hin. }
  pose proof (Hbox (0, 0) H00) as Hlo.
  pose proof (Hbox (W - 1, 0)) as Hhi. cbn [fst snd] in Hlo, Hhi.
  assert (Hw : W <= maxX st1 - minX st1 + 1).
  { assert (Hcorner : inGrid width height (W - 1, 0)) by (split; simpl; lia).
    specialize (Hhi Hcorner). lia. }
  exists (visited st1). split; [|exact Hall].
  subst st1 st0 n. cbn zeta.
  by rewrite (keepComponent_too_big _ _ Hw).
Qed.

Lemma scanCell_seen v comps x y' :
  seen width v (x, y') -> scanCell binData width height (v, comps) x y' = (v, comps).
Proof.
  unfold seen, scanCell. cbn [fst snd]. intros ->. reflexivity.
Qed.

Lemma findWhiteComponents_all_paper :
  findWhiteComponents binData width height = [].
Proof.
  unfold findWhiteComponents, scanAll.
  rewrite (fold_nested_pairs
             (fun st x y' => scanCell binData width height st x y')).
  destruct (decide (0 < H)) as [HH|HH].
  - assert (Hgrid : forall c, c ∈ pairsOf (seqZ 0 W) (seqZ 0 H) -> inGrid width height c).
    { intros [x y'] Hc. apply elem_of_pairsOf in Hc as [Hx Hy].
      apply elem_of_seqZ in Hx, Hy. split; simpl; lia. }
    revert Hgrid.
    rewrite (seqZ_cons 0 H), (seqZ_cons 0 W) by lia.
    cbn [pairsOf flat_map map app fold_left fst snd]. intros Hgrid.
    destruct (scanCell_first HH) as (v1 & -> & Hall).
    rewrite fold_left_fixed; [done|].
    intros [x y'] Hc. cbn [fst snd]. apply scanCell_seen, Hall, Hgrid.
    by right.
  - rewrite (seqZ_nil 0 H) by lia. unfold pairsOf. simpl. done.
Qed.

End AllPaper.

Lemma inject_Z_nonzero (z : Z) : 0 < z -> ~ inject_Z z == 0.
Proof.
  intros Hz H0. apply (ofZ_lt 0 z) in Hz. unfold ofZ in Hz.
  rewrite H0 in Hz. by apply Qlt_irrefl in Hz.
Qed.

Lemma scale_sW width : 0 < width -> sW width = 300.
Proof.
  intros Hw. unfold sW, scale, targetWidth.
  transitivity (Qfloor (inject_Z 300)); [|apply Qfloor_Z].
  apply Qfloor_comp. unfold ofZ.
  field. by apply inject_Z_nonzero.
Qed.

Lemma unscale_div width v :
  0 < width -> Qfloor (ofZ v / scale width) = (v * width) / 300.
Proof.
  intros Hw. rewrite Zdiv_Qdiv. apply Qfloor_comp.
  unfold scale, targetWidth, ofZ. rewrite inject_Z_mult.
  field. by apply inject_Z_nonzero.
Qed.

Lemma scale_sH width height :
  0 < width -> sH width height = (height * 300) / width.
Proof.
  intros Hw. unfold sH. rewrite Zdiv_Qdiv. apply Qfloor_comp.
  unfold scale, targetWidth, ofZ. rewrite inject_Z_mult.
  field. by apply inject_Z_nonzero.
Qed.

(** A cell of the downsampled grid is sampled inside the image. *)
Lemma originalIdx_range width height x y' :
  0 < width -> 0 <= x < sW width -> 0 <= y' < sH width height ->
  0 <= originalIdx width x y' < Z.of_nat (Z.to_nat (width * height)).
Proof.
  intros Hw Hx Hy. rewrite scale_sW in Hx by done.
  rewrite scale_sH in Hy by done.
  unfold originalIdx. rewrite !unscale_div by done.
  assert (Hox : 0 <= x * width / 300 < width).
  { split; [apply Z.div_pos; nia|]. apply Z.div_lt_upper_bound; nia. }
  assert (Hoy : 0 <= y' * width / 300 < height).
  { split; [apply Z.div_pos; nia|]. apply Z.div_lt_upper_bound; [lia|].
    pose proof (Z.mul_div_le (height * 300) width Hw). nia. }
  by apply flat_index_range.
Qed.

Lemma findWhiteComponents_paper (binData : list Z) (width height : Z) :
  0 < width ->
  length binData = Z.to_nat (width * height) ->
  Forall (fun v => v = 1) binData ->
  findWhiteComponents binData width height = [].
Proof.
  intros Hw Hlen Hall. apply findWhiteComponents_all_paper.
  - rewrite scale_sW by done. lia.
  - intros x y' Hx Hy.
    pose proof (originalIdx_range width height x y' Hw Hx Hy) as Hr.
    destruct (px_in_range binData (originalIdx width x y')) as [v Hv];
      [by rewrite Hlen|].
    rewrite Hv. f_equal. unfold px in Hv. destruct (_ <? 0); [done|].
    by apply (Forall_lookup_1 _ _ _ _ Hall Hv).
Qed.

Lemma createBinaryCanvas_size img :
  let cv := createBinaryCanvas img in
  cvWidth cv = imgWidth img /\ cvHeight cv = imgHeight img
  /\ length (binaryData cv) = Z.to_nat (imgWidth img * imgHeight img).
Proof.
  unfold createBinaryCanvas. destruct (sampleRed img) as [sumR count]. simpl.
  split; [done|]. split; [done|]. by rewrite length_map, length_seqZ.
Qed.

Lemma fold_left_Forall_inv {S B : Type} (P : S -> Prop) (R : B -> Prop)
    (f : S -> B -> S) (l : list B) (s : S) :
  Forall R l -> (forall b s', R b -> P s' -> P (f s' b)) -> P s ->
  P (fold_left f l s).
Proof.
  intros Hl Hstep. revert s. induction Hl as [|b l Hb Hl IH]; intros s Hs; [done|].
  simpl. apply IH. by apply Hstep.
Qed.

Lemma steps_range stop :
  Forall (fun v => 0 <= v < stop) (steps 0 stop 20).
Proof.
  unfold steps. apply Forall_forall. intros v Hv.
  apply list_elem_of_In, in_map_iff in Hv as (k & <- & Hk).
  apply in_seq in Hk.
  assert (Hn : Z.of_nat k < (stop - 0 + 20 - 1) / 20) by lia.
  pose proof (Z.mul_div_le (stop - 0 + 20 - 1) 20 ltac:(lia)). lia.
Qed.

(** The binariser classifies every pixel of a white raster as Paper: the
    mean of the samples is 255 (or the default 128), and 255 is not below
    0.85 times it. *)
Lemma whiteRaster_all_paper img :
  whiteRaster img ->
  Forall (fun v => v = 1) (binaryData (createBinaryCanvas img)).
Proof.
  intros Hwhite. unfold createBinaryCanvas.
  assert (Hsum : (fst (sampleRed img) == 255 * ofZ (snd (sampleRed img)))%Q
                 /\ 0 <= snd (sampleRed img)).
  { unfold sampleRed.
    apply (fold_left_Forall_inv
             (fun acc => (fst acc == 255 * ofZ (snd acc))%Q /\ 0 <= snd acc)
             (fun y' => 0 <= y' < imgHeight img)); [apply steps_range| |].
    - intros y' acc Hy Hacc.
      apply (fold_left_Forall_inv
               (fun acc => (fst acc == 255 * ofZ (snd acc))%Q /\ 0 <= snd acc)
               (fun x => 0 <= x < imgWidth img)); [apply steps_range| |done].
      intros x [sumR count] Hx [Hs Hc]. cbn [fst snd] in *.
      rewrite Hwhite by (pose proof (flat_index_range _ _ _ _ Hx Hy); lia).
      cbn [default]. unfold Datatypes.id. split; [|lia]. rewrite Hs. unfold ofZ.
      rewrite inject_Z_plus.
      change (inject_Z 255) with (255 # 1). change (inject_Z 1) with (1 # 1).
      ring.
    - cbn [fst snd]. split; [reflexivity|lia]. }
  destruct (sampleRed img) as [sumR count]. cbn [fst snd binaryData] in *.
  destruct Hsum as [Hs Hc].
  apply Forall_forall. intros v Hv.
  apply list_elem_of_In, in_map_iff in Hv as (i & <- & Hi).
  apply list_elem_of_In, elem_of_seqZ in Hi.
  rewrite Hwhite by lia. cbn [default]. unfold Datatypes.id.
  assert (Hnot : Qltb (ofZ 255)
                   ((if 0 <? count then (sumR / ofZ count)%Q else 128%Q)
                    * (85 # 100)) = false).
  { apply Qltb_ge. destruct (0 <? count) eqn:Hpos.
    - apply Z.ltb_lt in Hpos. rewrite Hs.
      assert (Heq : (255 * ofZ count / ofZ count == 255)%Q).
      { unfold ofZ. field. by apply inject_Z_nonzero. }
      rewrite Heq. by vm_compute.
    - by vm_compute. }
  by rewrite Hnot.
Qed.

(** C9: for every input image whose pixels are all classified Paper by the
    binariser (a raster of white pixels is one), the component detector
    returns no component (the fill that starts in the first cell covers the
    whole downsampled grid, and a region as wide as the grid fails the size
    filter), and fast validation reports isValid = false and
    ticketCount = 0. *)
Theorem C9_all_white_image (img : Image) :
  0 < imgWidth img ->
  Forall (fun v => v = 1) (binaryData (createBinaryCanvas img)) ->
  let cv := createBinaryCanvas img in
  findWhiteComponents (binaryData cv) (cvWidth cv) (cvHeight cv) = []
  /\ isValid (validateTicketImage img) = false
  /\ ticketCount (validateTicketImage img) = 0.
Proof.
  intros Hw Hall cv.
  destruct (createBinaryCanvas_size img) as (HW & HH & Hlen). fold cv in HW, HH, Hlen.
  assert (Hnone : findWhiteComponents (binaryData cv) (cvWidth cv) (cvHeight cv) = []).
  { apply findWhiteComponents_paper; [by rewrite HW|by rewrite HW, HH|done]. }
  split; [exact Hnone|].
  unfold validateTicketImage, detectTicketsInImage. fold cv. rewrite Hnone.
  by vm_compute.
Qed.

(** The theorem at the white 2 x 2 raster. *)
Lemma C9_all_white_image_witness :
  0 < imgWidth whiteImage
  /\ Forall (fun v => v = 1) (binaryData (createBinaryCanvas whiteImage))
  /\ isValid (validateTicketImage whiteImage) = false
  /\ ticketCount (validateTicketImage whiteImage) = 0.
Proof.
  assert (Hw : 0 < imgWidth whiteImage) by (simpl; lia).
  assert (Hall : Forall (fun v => v = 1)
                        (binaryData (createBinaryCanvas whiteImage)))
    by (vm_compute; repeat constructor).
  split; [exact Hw|]. split; [exact Hall|].
  exact (proj2 (C9_all_white_image whiteImage Hw Hall)).
Defined.

(** ** Column interpolation *)

Lemma padColumns_spec fuel avgW cols :
  cols <> [] ->
  exists extra,
    padColumns fuel avgW cols = cols ++ extra
    /\ evenlyFrom avgW (default 0%Q (last cols)) extra
    /\ length extra = (fuel `min` (6 - length cols))%nat.
Proof.
  revert cols. induction fuel as [|fuel IH]; intros cols Hne.
  - exists []. by rewrite app_nil_r.
  - cbn [padColumns].
    destruct ((length cols <? 6)%nat && (0 <? length cols)%nat) eqn:Hc.
    + apply andb_true_iff in Hc as [Hlt _]. apply Nat.ltb_lt in Hlt.
      set (x := (default 0%Q (last cols) + avgW * (105 # 100))%Q).
      destruct (IH (cols ++ [x])) as (extra & Heq & Hev & Hlen).
      { by destruct cols. }
      exists (x :: extra). rewrite Heq, <- app_assoc. split; [done|].
      rewrite last_snoc in Hev. split; [done|].
      rewrite length_app in Hlen. cbn [length] in *. lia.
    + exists []. rewrite app_nil_r. split; [done|]. split; [done|].
      apply andb_false_iff in Hc as [Hc|Hc].
      * apply Nat.ltb_ge in Hc. cbn [length]. lia.
      * apply Nat.ltb_ge in Hc. destruct cols; [done|cbn [length] in Hc; lia].
Qed.

Lemma clusterColumns_nonempty avgW allCells :
  allCells <> [] -> clusterColumns avgW allCells <> [].
Proof.
  destruct allCells as [|c0 rest]; [done|]. intros _. unfold clusterColumns.
  destruct (fold_left _ _ _) as [[cols cur] n]. by destruct cols.
Qed.

Lemma interpolateGrid_shape rws :
  length (interpolateGrid rws) = length rws
  /\ Forall (fun r => length (gcells r) = 6%nat) (interpolateGrid rws).
Proof.
  unfold interpolateGrid. destruct (averages rws) as [avgW avgH].
  split; [apply length_map|].
  apply Forall_forall. intros r Hr.
  apply list_elem_of_In, in_map_iff in Hr as (row & <- & _). reflexivity.
Qed.

(** C4 (as the code has it): for every ticket candidate whose 3 rows each
    contain at least one detected cell, column interpolation returns 3 rows
    of exactly 6 cells; at least one column cluster is found, and when no
    more than 6 are found the columns used are the clusters followed by
    synthesised ones, each 1.05 x avgWidth after the one before, 6 in all.
    Run on its own output the interpolation again returns 3 rows of exactly
    6 cells (not necessarily the same cells). *)
Theorem C4_interpolation_shape (rws : list Row) :
  length rws = 3%nat ->
  Forall (fun r => cells r <> []) rws ->
  let avgW := fst (averages rws) in
  let grid := interpolateGrid rws in
  let again := interpolateGrid (asRows grid) in
  (length grid = 3%nat /\ Forall (fun r => length (gcells r) = 6%nat) grid)
  /\ clustersOf rws <> []
  /\ ((length (clustersOf rws) <= 6)%nat ->
      exists extra,
        gridColumns rws = js_sort Qltb (clustersOf rws ++ extra)
        /\ length (clustersOf rws ++ extra) = 6%nat
        /\ evenlyFrom avgW (default 0%Q (last (clustersOf rws))) extra)
  /\ (length again = 3%nat /\ Forall (fun r => length (gcells r) = 6%nat) again).
Proof.
  intros Hlen Hcells avgW grid again. subst grid again.
  destruct (interpolateGrid_shape rws) as [Hl Hs].
  destruct (interpolateGrid_shape (asRows (interpolateGrid rws))) as [Hl' Hs'].
  assert (Hne : clustersOf rws <> []).
  { apply clusterColumns_nonempty. intros Hnil.
    apply (f_equal length) in Hnil. rewrite js_sort_length in Hnil.
    destruct rws as [|r rws]; [done|].
    apply Forall_cons in Hcells as [Hr _]. simpl in Hnil.
    rewrite length_app in Hnil. destruct (cells r); [done|simpl in Hnil; lia]. }
  split; [split; [by rewrite Hl|done]|]. split; [done|]. split.
  - intros Hle. destruct (padColumns_spec 6 avgW (clustersOf rws) Hne)
      as (extra & Heq & Hev & Hex).
    exists extra. split; [|split; [|done]].
    + unfold gridColumns. fold avgW. by rewrite <- Heq.
    + rewrite length_app, Hex. lia.
  - split; [|done]. rewrite Hl'. unfold asRows.
    by rewrite length_map, Hl.
Qed.

(** The theorem at the three skewed rows. *)
Lemma C4_interpolation_shape_witness :
  length skewedRows = 3%nat
  /\ Forall (fun r => cells r <> []) skewedRows
  /\ length (interpolateGrid skewedRows) = 3%nat
  /\ Forall (fun r => length (gcells r) = 6%nat) (interpolateGrid skewedRows).
Proof.
  assert (Hlen : length skewedRows = 3%nat) by reflexivity.
  assert (Hcells : Forall (fun r => cells r <> []) skewedRows)
    by (repeat constructor; discriminate).
  split; [exact Hlen|]. split; [exact Hcells|].
  exact (proj1 (C4_interpolation_shape skewedRows Hlen Hcells)).
Defined.

(** C4 (as stated, refuted): on the three skewed rows the interpolation is not
    idempotent.  The first run finds the columns 25, 90, 195, ... and gives the
    first row the cells at x = 0, 90, 195, 300, 405, 510; run on that output
    it finds the columns 305/6, 195, 300, ... and gives the first row the
    cells at x = 90, 195, 300, 405, 510, 615. *)
Lemma C4_idempotence_counterexample :
  let grid := interpolateGrid skewedRows in
  let again := interpolateGrid (asRows grid) in
  Forall (fun r => cells r <> []) skewedRows
  /\ map (fun r => map rx (gcells r)) (take 1 grid)
     = [[0; 90; 195; 300; 405; 510]%Q]
  /\ map (fun r => map rx (gcells r)) (take 1 again)
     = [[90; 195; 300; 405; 510; 615]%Q]
  /\ map Qred (gridColumns skewedRows) = [25; 90; 195; 300; 405; 510]%Q
  /\ map Qred (gridColumns (asRows grid)) = [305 # 6; 195; 300; 405; 510; 615]%Q
  /\ again <> grid.
Proof.
  vm_compute. split; [repeat constructor; discriminate|].
  repeat split; try reflexivity. discriminate.
Qed.

(** ** The sprite map *)

Lemma MapBelow_weaken n b b' m : b <= b' -> MapBelow n b m -> MapBelow n b' m.
Proof.
  intros Hb [Hinc Hall]. split; [done|].
  eapply Forall_impl; [exact Hall|]. intros e [He Hw]. split; [lia|done].
Qed.

Lemma MapBelow_snoc n b m e :
  MapBelow n b m -> b <= slotCode e -> wellPlaced n e ->
  MapBelow n (slotCode e + 1) (m ++ [e]).
Proof.
  intros [Hinc Hall] Hb Hw. split.
  - intros i j x z Hij Hx Hz.
    assert (Hj : (j < length (m ++ [e]))%nat) by (by apply lookup_lt_Some in Hz).
    rewrite length_app in Hj. simpl in Hj.
    rewrite lookup_app_l in Hx by lia.
    destruct (decide (j < length m)%nat) as [Hlt|Hge].
    + rewrite lookup_app_l in Hz by lia. by apply (Hinc i j).
    + rewrite lookup_app_r in Hz by lia.
      replace (j - length m)%nat with 0%nat in Hz by lia. injection Hz as <-.
      destruct (Forall_lookup_1 _ _ _ _ Hall Hx) as [Hx' _]. lia.
  - apply Forall_app. split.
    + eapply Forall_impl; [exact Hall|]. intros x [Hx Hwx]. split; [lia|done].
    + apply Forall_singleton. split; [lia|done].
Qed.

Lemma fold_seq_inv {S : Type} (P : nat -> S -> Prop) (f : S -> nat -> S)
    (a n : nat) (s : S) :
  P a s ->
  (forall k s', (a <= k < a + n)%nat -> P k s' -> P (Datatypes.S k) (f s' k)) ->
  P (a + n)%nat (fold_left f (seq a n) s).
Proof.
  revert a s. induction n as [|n IH]; intros a s Hs Hstep; simpl.
  - by rewrite Nat.add_0_r.
  - replace (a + Datatypes.S n)%nat with (Datatypes.S a + n)%nat by lia.
    apply IH.
    + apply Hstep; [lia|done].
    + intros k s' Hk. apply Hstep. lia.
Qed.

Lemma fold_imap_inv {A S : Type} (P : nat -> S -> Prop) (f : S -> nat -> A -> S)
    (xs : list A) :
  forall k s,
    P k s ->
    (forall i x s', xs !! i = Some x -> P (k + i)%nat s' ->
                    P (Datatypes.S (k + i)) (f s' (k + i)%nat x)) ->
    P (k + length xs)%nat
      (fold_left (fun acc ix => f acc (fst ix) (snd ix))
                 (imap (fun i x => ((k + i)%nat, x)) xs) s).
Proof.
  induction xs as [|x xs IH]; intros k s Hs Hstep; simpl.
  - by rewrite Nat.add_0_r.
  - replace (k + Datatypes.S (length xs))%nat
      with (Datatypes.S k + length xs)%nat by lia.
    rewrite (imap_ext _ (fun i x => ((Datatypes.S k + i)%nat, x)))
      by (intros i y _; simpl; f_equal; lia).
    rewrite (Nat.add_0_r k).
    apply IH.
    + specialize (Hstep 0%nat x s eq_refl). rewrite Nat.add_0_r in Hstep.
      by apply Hstep.
    + intros i y s' Hy Hs'.
      specialize (Hstep (Datatypes.S i) y s' Hy).
      replace (k + Datatypes.S i)%nat with (Datatypes.S k + i)%nat in Hstep by lia.
      by apply Hstep.
Qed.

Lemma foldlIndexed_inv {A S : Type} (P : nat -> S -> Prop)
    (f : S -> nat -> A -> S) (xs : list A) (s : S) :
  P 0%nat s ->
  (forall i x s', xs !! i = Some x -> P i s' -> P (Datatypes.S i) (f s' i x)) ->
  P (length xs) (foldlIndexed f xs s).
Proof.
  intros Hs Hstep. unfold foldlIndexed.
  rewrite (imap_ext _ (fun i x => ((0 + i)%nat, x))) by done.
  apply (fold_imap_inv P f xs 0%nat s Hs). intros i x s'. simpl. apply Hstep.
Qed.

Lemma placeCell_below cv n t r row m c :
  (t < n)%nat -> (r < 3)%nat -> (c < 6)%nat ->
  MapBelow n ((Z.of_nat t * 3 + Z.of_nat r) * 7 + Z.of_nat c) m ->
  MapBelow n ((Z.of_nat t * 3 + Z.of_nat r) * 7 + Z.of_nat (S c))
           (placeCell cv t (Z.of_nat t * ticketHeight + padding) r row m c).
Proof.
  intros Ht Hr Hc Hm. unfold placeCell.
  destruct (gcells row !! c) as [cell|]; [|eapply MapBelow_weaken; [|done]; lia].
  destruct (hasInk _ _ _ _ _); [|eapply MapBelow_weaken; [|done]; lia].
  match goal with |- MapBelow _ _ (_ ++ [?e]) => set (entry := e) end.
  replace ((Z.of_nat t * 3 + Z.of_nat r) * 7 + Z.of_nat (S c))
    with (slotCode entry + 1) by (unfold slotCode, entry; simpl; lia).
  eapply MapBelow_snoc; [exact Hm|unfold slotCode, entry; simpl; lia|].
  split; [done|]. simpl. done.
Qed.

Lemma placeRow_below cv n t r row m :
  (t < n)%nat -> (r < 3)%nat ->
  MapBelow n (rowBound t r) m ->
  MapBelow n (rowBound t (S r))
    (fold_left (placeCell cv t (Z.of_nat t * ticketHeight + padding) r row)
               (seq 0 6) m).
Proof.
  intros Ht Hr Hm.
  replace (rowBound t (S r))
    with ((Z.of_nat t * 3 + Z.of_nat r) * 7 + Z.of_nat (0 + 6))
    by (unfold rowBound; simpl Nat.eqb; cbv iota; lia).
  apply (fold_seq_inv
           (fun c m' => MapBelow n ((Z.of_nat t * 3 + Z.of_nat r) * 7 + Z.of_nat c) m')).
  - eapply MapBelow_weaken; [|exact Hm]. unfold rowBound.
    destruct (r =? 0)%nat; lia.
  - intros c m' Hc Hm'. apply placeCell_below; [done|done|lia|done].
Qed.

Lemma placeTicket_below cv n t ticket st :
  (t < n)%nat ->
  MapBelow n (Z.of_nat t * 21) (fst st) ->
  MapBelow n (Z.of_nat (S t) * 21) (fst (placeTicket cv st t ticket)).
Proof.
  intros Ht Hm. destruct st as [m prot]. unfold placeTicket. cbn [fst] in Hm.
  set (interpolatedRows := interpolateGrid (rows ticket)).
  set (m3 := fold_left _ (seq 0 3) m).
  assert (Hm3 : MapBelow n (rowBound t 3) m3).
  { subst m3.
    apply (fold_seq_inv (fun r m' => MapBelow n (rowBound t r) m') _ 0 3).
    - unfold rowBound. simpl. eapply MapBelow_weaken; [|exact Hm]. lia.
    - intros r m' Hr Hm'. destruct (interpolatedRows !! r) as [row|].
      + apply placeRow_below; [done|lia|done].
      + eapply MapBelow_weaken; [|exact Hm']. unfold rowBound.
        destruct r; simpl; lia. }
  assert (Hweak : MapBelow n (Z.of_nat (S t) * 21) m3).
  { eapply MapBelow_weaken; [|exact Hm3]. unfold rowBound. simpl Nat.eqb. lia. }
  destruct (lastCellOf interpolatedRows) as [lastCell|]; [|done].
  unfold placeId.
  destruct (Qgtb _ 10 && Qgtb _ 10); [|done].
  cbn [fst spriteRect].
  match goal with |- MapBelow _ _ (_ ++ [?e]) => set (entry := e) end.
  replace (Z.of_nat (S t) * 21) with (slotCode entry + 1)
    by (unfold slotCode, entry; simpl; lia).
  eapply MapBelow_snoc; [exact Hm3| |].
  - unfold rowBound, slotCode, entry. simpl. lia.
  - split; [done|]. simpl. done.
Qed.

Lemma cmap_below cv tickets :
  MapBelow (length tickets) (Z.of_nat (length tickets) * 21)
           (cmap (generateCompositeCanvas cv tickets)).
Proof.
  unfold generateCompositeCanvas.
  pose proof (foldlIndexed_inv
    (fun t st => MapBelow (length tickets) (Z.of_nat t * 21) (fst st))
    (placeTicket cv) tickets ([], [])) as Hinv.
  destruct (foldlIndexed (placeTicket cv) tickets ([], [])) as [m prot].
  cbn [cmap]. apply Hinv.
  - cbn [fst]. split; [|constructor]. intros i j a b _ Ha. done.
  - intros t ticket st Ht Hst. apply placeTicket_below; [|done].
    by apply lookup_lt_Some in Ht.
Qed.

Lemma ofZ_add_le (a b c : Z) : (ofZ a + ofZ b <= ofZ c)%Q <-> a + b <= c.
Proof. unfold ofZ. rewrite <- inject_Z_plus. apply ofZ_le. Qed.

Lemma numberSprite_disjoint (t r c t' r' c' : nat) :
  (r < 3)%nat -> (r' < 3)%nat -> (c < 6)%nat -> (c' < 6)%nat ->
  (t, r, c) <> (t', r', c') ->
  disjointRects
    (numberSprite (Z.of_nat t * ticketHeight + padding) r c)
    (numberSprite (Z.of_nat t' * ticketHeight + padding) r' c').
Proof.
  intros Hr Hr' Hc Hc' Hne. unfold disjointRects, numberSprite.
  cbn [rx ry rw rh]. rewrite !ofZ_add_le.
  unfold ticketHeight, cellSize, padding.
  destruct (Nat.lt_trichotomy c c') as [Hlt|[->|Hgt]]; [lia| |lia].
  destruct (Nat.lt_trichotomy (3 * t + r) (3 * t' + r')) as [Hlt|[Heq|Hgt]];
    [lia| |lia].
  exfalso. apply Hne. assert (t = t') by lia. assert (r = r') by lia. by subst.
Qed.

Lemma centerInside_disjoint w a b :
  disjointRects a b -> centerInside w a = true -> centerInside w b = true ->
  False.
Proof.
  unfold disjointRects, centerInside. intros Hd Ha Hb.
  repeat match goal with
         | Hx : _ && _ = true |- _ => apply andb_true_iff in Hx as [? ?]
         | Hx : Qgtb _ _ = true |- _ => apply Qgtb_gt in Hx
         | Hx : Qltb _ _ = true |- _ => apply Qltb_lt in Hx
         end.
  destruct Hd as [Hd|[Hd|[Hd|Hd]]]; lra.
Qed.

Lemma filter_at_most_one {A : Type} (p : A -> bool) (l : list A) :
  (forall i j a b, l !! i = Some a -> l !! j = Some b ->
                   p a = true -> p b = true -> i = j) ->
  (length (List.filter p l) <= 1)%nat.
Proof.
  induction l as [|x l IH]; intros Huniq; simpl; [lia|].
  assert (IH' : (length (List.filter p l) <= 1)%nat).
  { apply IH. intros i j a b Ha Hb Hpa Hpb.
    assert (S i = S j) by (by apply (Huniq (S i) (S j) a b)). lia. }
  destruct (p x) eqn:Hpx; [|done].
  destruct (List.filter p l) as [|z zs] eqn:Hf; [simpl; lia|].
  assert (Hz : In z (List.filter p l)) by (rewrite Hf; by left).
  apply filter_In in Hz as [Hz Hpz].
  apply list_elem_of_In, list_elem_of_lookup in Hz as [j Hj].
  by specialize (Huniq 0%nat (S j) x z eq_refl Hj Hpx Hpz).
Qed.

(** C10: in every composite sheet the sprite rectangles of two different
    number mappings share no point, and the mappings belong to different
    cells; so the centre of a recognised word lies inside the sprite of at
    most one number mapping, and one word can set at most one grid cell. *)
Theorem C10_number_sprites_disjoint (cv : BinaryCanvas) (tickets : list Ticket) :
  let m := cmap (generateCompositeCanvas cv tickets) in
  (forall i j a b,
      i <> j -> m !! i = Some a -> m !! j = Some b ->
      type a = number -> type b = number ->
      disjointRects (spriteRect a) (spriteRect b)
      /\ (ticketIndex a, rowIndex a, colIndex a)
         <> (ticketIndex b, rowIndex b, colIndex b))
  /\ (forall w : DetectedWord,
        (length (List.filter
                   (fun e => isNumberEntry e && centerInside w (spriteRect e)) m)
         <= 1)%nat).
Proof.
  intros m. destruct (cmap_below cv tickets) as [Hinc Hall]. fold m in Hinc, Hall.
  assert (Hpair : forall i j a b,
      i <> j -> m !! i = Some a -> m !! j = Some b ->
      type a = number -> type b = number ->
      disjointRects (spriteRect a) (spriteRect b)
      /\ (ticketIndex a, rowIndex a, colIndex a)
         <> (ticketIndex b, rowIndex b, colIndex b)).
  { intros i j a b Hij Ha Hb Hta Htb.
    assert (Hcode : slotCode a <> slotCode b).
    { destruct (Nat.lt_trichotomy i j) as [Hlt|[->|Hgt]]; [|done|].
      - pose proof (Hinc i j a b Hlt Ha Hb). lia.
      - pose proof (Hinc j i b a Hgt Hb Ha). lia. }
    destruct (Forall_lookup_1 _ _ _ _ Hall Ha) as [_ [_ Hwa]].
    destruct (Forall_lookup_1 _ _ _ _ Hall Hb) as [_ [_ Hwb]].
    rewrite Hta in Hwa. rewrite Htb in Hwb.
    destruct Hwa as (Hra & Hca & ->). destruct Hwb as (Hrb & Hcb & ->).
    assert (Hkey : (ticketIndex a, rowIndex a, colIndex a)
                   <> (ticketIndex b, rowIndex b, colIndex b)).
    { intros [= Ht Hr Hc]. apply Hcode. unfold slotCode. by rewrite Ht, Hr, Hc. }
    split; [|done]. by apply numberSprite_disjoint. }
  split; [exact Hpair|].
  intros w. apply filter_at_most_one. intros i j a b Ha Hb Hpa Hpb.
  apply andb_true_iff in Hpa as [Hna Hwa]. apply andb_true_iff in Hpb as [Hnb Hwb].
  destruct (decide (i = j)) as [|Hij]; [done|]. exfalso.
  assert (Hta : type a = number) by (unfold isNumberEntry in Hna; by destruct (type a)).
  assert (Htb : type b = number) by (unfold isNumberEntry in Hnb; by destruct (type b)).
  destruct (Hpair i j a b Hij Ha Hb Hta Htb) as [Hd _].
  by apply (centerInside_disjoint w _ _ Hd).
Qed.

(** The theorem at the sheet of two tiny tickets cut from the ink canvas: the
    sprites of its first two entries are disjoint. *)
Lemma C10_number_sprites_disjoint_witness :
  exists a b,
    cmap (generateCompositeCanvas inkCanvas [tinyTicket; tinyTicket]) !! 0%nat
    = Some a
    /\ cmap (generateCompositeCanvas inkCanvas [tinyTicket; tinyTicket]) !! 1%nat
       = Some b
    /\ type a = number /\ type b = number
    /\ disjointRects (spriteRect a) (spriteRect b).
Proof.
  assert (Hab : exists a b,
    cmap (generateCompositeCanvas inkCanvas [tinyTicket; tinyTicket]) !! 0%nat
    = Some a
    /\ cmap (generateCompositeCanvas inkCanvas [tinyTicket; tinyTicket]) !! 1%nat
       = Some b
    /\ type a = number /\ type b = number).
  { vm_compute. eexists _, _. repeat split; reflexivity. }
  destruct Hab as (a & b & Ha & Hb & Hta & Htb).
  exists a, b. split; [exact Ha|]. split; [exact Hb|].
  split; [exact Hta|]. split; [exact Htb|].
  exact (proj1 (proj1 (C10_number_sprites_disjoint inkCanvas
                         [tinyTicket; tinyTicket])
                      0%nat 1%nat a b ltac:(discriminate) Ha Hb Hta Htb)).
Defined.

(** ** The result grids *)

Lemma numberOfText_range s num : numberOfText s = Some num -> 1 <= num <= 99.
Proof.
  unfold numberOfText. destruct (strayText s); [done|].
  destruct (normalizeNumber s) as [n|]; [|done].
  destruct ((0 <? n) && (n <? 100)) eqn:Hn; [|done].
  intros [= <-]. apply andb_true_iff in Hn as [H0 H100].
  apply Z.ltb_lt in H0, H100. lia.
Qed.

Lemma setCell_good finalResults tIdx r c num :
  Forall (fun res => goodGrid (grid res)) finalResults ->
  1 <= num <= 99 ->
  Forall (fun res => goodGrid (grid res)) (setCell finalResults tIdx r c num).
Proof.
  intros Hall Hnum. unfold setCell. apply Forall_alter; [done|].
  intros res _ [Hlen Hrows]. cbn [grid]. split; [by rewrite length_alter|].
  apply Forall_alter; [done|].
  intros row _ [Hrow Hvals]. split; [by rewrite length_insert|].
  apply Forall_insert; [done|]. by right.
Qed.

Lemma setTicketId_good finalResults tIdx s :
  Forall (fun res => goodGrid (grid res)) finalResults ->
  Forall (fun res => goodGrid (grid res)) (setTicketId finalResults tIdx s).
Proof.
  intros Hall. unfold setTicketId. apply Forall_alter; [done|].
  by intros res _ Hres.
Qed.

Lemma processNumber_good ocrWords tIdx finalResults item :
  Forall (fun res => goodGrid (grid res)) finalResults ->
  Forall (fun res => goodGrid (grid res))
         (processNumber ocrWords tIdx finalResults item).
Proof.
  intros Hall. unfold processNumber.
  destruct (js_sort _ _) as [|best rest]; [done|].
  destruct (Qltb _ _); [done|].
  destruct (numberOfText _) as [num|] eqn:Hnum; [|done].
  apply setCell_good; [done|]. by apply numberOfText_range in Hnum.
Qed.

Lemma processTicket_good map ocrWords finalResults tIdx :
  Forall (fun res => goodGrid (grid res)) finalResults ->
  Forall (fun res => goodGrid (grid res))
         (processTicket map ocrWords finalResults tIdx).
Proof.
  intros Hall. unfold processTicket, processId.
  set (numberItems := List.filter _ map).
  assert (Hnum : Forall (fun res => goodGrid (grid res))
                   (fold_left (processNumber ocrWords tIdx) numberItems
                              finalResults)).
  { generalize numberItems. intros items. revert finalResults Hall.
    induction items as [|item items IH]; intros finalResults Hall; [done|].
    simpl. by apply IH, processNumber_good. }
  destruct (find _ map) as [idMapItem|]; [|done].
  destruct (0 <? length _)%nat; [|done].
  destruct (reconstructId _); [|done].
  by apply setTicketId_good.
Qed.

Lemma postProcess_good rnd n map ocrWords :
  Forall (fun res => goodGrid (grid res)) (postProcess rnd n map ocrWords)
  /\ length (postProcess rnd n map ocrWords) = n.
Proof.
  unfold postProcess.
  assert (Hinit : Forall (fun res => goodGrid (grid res)) (initialResults rnd n)
                  /\ length (initialResults rnd n) = n).
  { unfold initialResults. split; [|by rewrite length_map, length_seq].
    apply Forall_forall. intros res Hres.
    apply list_elem_of_In, in_map_iff in Hres as (i & <- & _). cbn [grid].
    split; [done|]. repeat constructor. }
  revert Hinit. generalize (initialResults rnd n), (seq 0 n).
  intros finalResults idxs. revert finalResults.
  induction idxs as [|t idxs IH]; intros finalResults [Hall Hlen]; [done|].
  simpl. apply IH. split; [by apply processTicket_good|].
  unfold processTicket, processId.
  assert (Hfold : forall items res0,
            length (fold_left (processNumber ocrWords t) items res0)
            = length res0).
  { induction items as [|item items IHi]; intros res0; [done|].
    simpl. rewrite IHi. unfold processNumber.
    destruct (js_sort _ _); [done|]. destruct (Qltb _ _); [done|].
    destruct (numberOfText _); [|done]. unfold setCell. apply length_alter. }
  destruct (find _ map); [|by rewrite Hfold].
  destruct (0 <? length _)%nat; [|by rewrite Hfold].
  destruct (reconstructId _); [|by rewrite Hfold].
  unfold setTicketId. by rewrite length_alter, Hfold.
Qed.

(** C5: every TicketResult the full analysis returns, for any raster and any
    answer of the recogniser, has a grid of exactly 3 rows of 6 cells whose
    values are 0 or an integer in 1..99, and there is one result per detected
    ticket.  The number mappings the post-processor writes through all point
    inside such a grid. *)
Theorem C5_grid_shape_and_values (img : Image)
    (recognize : Composite -> Settles (list RawWord)) (ocrFirstOnTie : bool)
    (rnd : nat -> Z) :
  let ticketsRaw := detectTicketsInImage (createBinaryCanvas img) in
  let sheet := generateCompositeCanvas (createBinaryCanvas img) ticketsRaw in
  match analyzeTicketImage img recognize ocrFirstOnTie rnd with
  | Returns resp =>
      Forall (fun res => goodGrid (grid res)) (results resp)
      /\ length (results resp) = length ticketsRaw
  | Throws _ => True
  end
  /\ Forall (fun e => type e = number ->
                      (ticketIndex e < length ticketsRaw)%nat
                      /\ (rowIndex e < 3)%nat /\ (colIndex e < 6)%nat)
            (cmap sheet).
Proof.
  intros ticketsRaw sheet. split.
  - unfold analyzeTicketImage. fold ticketsRaw. fold sheet.
    destruct (raceWithTimeout _ _) as [words|]; [|done].
    cbn [results]. apply postProcess_good.
  - destruct (cmap_below (createBinaryCanvas img) ticketsRaw) as [_ Hall].
    fold sheet in Hall. eapply Forall_impl; [exact Hall|].
    intros e [_ [Ht Hw]] Hnum. rewrite Hnum in Hw.
    destruct Hw as (Hr & Hc & _). done.
Qed.

(** ** The timeout *)

(** C2: whenever the recognition call has not resolved within 60 seconds (it
    resolves later, rejects, or never settles), the whole analysis fails with
    the timeout error "OCR Timeout"; it returns no response, hence no
    TicketResult at all. *)
Theorem C2_recognition_timeout (img : Image)
    (recognize : Composite -> Settles (list RawWord)) (ocrFirstOnTie : bool)
    (rnd : nat -> Z) :
  let cv := createBinaryCanvas img in
  let sheet := generateCompositeCanvas cv (detectTicketsInImage cv) in
  ~ resolvesWithin timeoutMs (recognize sheet) ->
  analyzeTicketImage img recognize ocrFirstOnTie rnd = Throws "OCR Timeout"
  /\ forall resp,
       analyzeTicketImage img recognize ocrFirstOnTie rnd <> Returns resp.
Proof.
  intros cv sheet Hlate.
  assert (Hthrow : analyzeTicketImage img recognize ocrFirstOnTie rnd
                   = Throws "OCR Timeout").
  { unfold analyzeTicketImage. fold cv. fold sheet.
    destruct (recognize sheet) as [t v| t |]; [|done|done].
    unfold raceWithTimeout. simpl in Hlate.
    destruct (t <? timeoutMs) eqn:H1; [apply Z.ltb_lt in H1; lia|].
    destruct (t =? timeoutMs) eqn:H2; [apply Z.eqb_eq in H2; lia|].
    done. }
  split; [exact Hthrow|]. intros resp. by rewrite Hthrow.
Qed.

(** The theorem at the white raster and a recogniser that never answers. *)
Lemma C2_recognition_timeout_witness :
  ~ resolvesWithin timeoutMs (NeverSettles : Settles (list RawWord))
  /\ analyzeTicketImage whiteImage (fun _ => NeverSettles) true (fun _ => 0)
     = Throws "OCR Timeout".
Proof.
  assert (Hlate : ~ resolvesWithin timeoutMs (NeverSettles : Settles (list RawWord)))
    by (simpl; tauto).
  split; [exact Hlate|].
  exact (proj1 (C2_recognition_timeout whiteImage (fun _ => NeverSettles) true
                  (fun _ => 0) Hlate)).
Defined.

(** * Further properties of the code

    Properties of the scanner and of its callers beyond the claims above,
    each read off the source. *)

(** ** Binariser *)

(** X1: the two outputs of the binariser agree pixel by pixel: a pixel is
    black on the canvas exactly where the binary map holds 0 (Ink) and white
    exactly where it holds 1 (Paper), and neither holds any other value. *)
Theorem binary_map_matches_canvas (img : Image) :
  Forall2 (fun p b => (p = black /\ b = 0) \/ (p = white /\ b = 1))
          (cvPixels (createBinaryCanvas img))
          (binaryData (createBinaryCanvas img)).
Proof.
  unfold createBinaryCanvas. destruct (sampleRed img) as [sumR count].
  cbn [cvPixels binaryData].
  apply Forall2_fmap, Forall_Forall2_diag, Forall_forall. intros i _.
  destruct (Qltb _ _); [by left|by right].
Qed.

Lemma steps_head stop : 0 < stop -> exists rest, steps 0 stop 20 = 0 :: rest.
Proof.
  intros Hs. unfold steps.
  assert (1 <= (stop - 0 + 20 - 1) / 20).
  { apply Z.div_le_lower_bound; lia. }
  destruct (Z.to_nat ((stop - 0 + 20 - 1) / 20)) as [|n] eqn:Hn; [lia|].
  simpl. eauto.
Qed.

Lemma sampleRed_uniform r img :
  0 < imgWidth img -> 0 < imgHeight img -> uniformRaster r img ->
  (fst (sampleRed img) == ofZ r * ofZ (snd (sampleRed img)))%Q
  /\ 0 < snd (sampleRed img).
Proof.
  intros Hw Hh Hu.
  set (P := fun acc : Q * Z => (fst acc == ofZ r * ofZ (snd acc))%Q /\ 0 <= snd acc).
  assert (Hinner : forall y' acc, 0 <= y' < imgHeight img -> P acc ->
            let acc' := fold_left (fun '(sumR, count) x =>
                 let i := (y' * imgWidth img + x) * 4 in
                 ((sumR + ofZ (default 0%Z (px (imgData img) i)))%Q, count + 1))
                 (steps 0 (imgWidth img) 20) acc in
            P acc' /\ snd acc < snd acc').
  { intros y' acc Hy Hacc.
    assert (Hstep : forall x (a : Q * Z), 0 <= x < imgWidth img -> P a ->
              P (let '(sumR, count) := a in
                 ((sumR + ofZ (default 0%Z (px (imgData img) ((y' * imgWidth img + x) * 4))))%Q,
                  count + 1))).
    { intros x [sumR count] Hx [Hs Hc]. cbn [fst snd] in *.
      rewrite Hu by (pose proof (flat_index_range _ _ _ _ Hx Hy); lia).
      cbn [default]. unfold Datatypes.id, P. cbn [fst snd]. split; [|lia].
      rewrite Hs. unfold ofZ.
      rewrite inject_Z_plus. change (inject_Z 1) with (1 # 1). ring. }
    destruct (steps_head (imgWidth img) Hw) as [rest Hrest].
    pose proof (steps_range (imgWidth img)) as Hr. rewrite Hrest in Hr |- *.
    apply Forall_cons in Hr as [H0 Hr]. cbn [fold_left]. cbv zeta.
    destruct acc as [s c]. 
    apply (fold_left_Forall_inv
             (fun a => P a /\ c < snd a) (fun x => 0 <= x < imgWidth img));
      [exact Hr| |].
    - intros x [s' c'] Hx [Ha Hlt]. split; [by apply (Hstep x (s', c'))|].
      cbn [snd] in *. lia.
    - split; [by apply (Hstep 0 (s, c))|]. cbn [snd]. lia. }
  unfold sampleRed.
  destruct (steps_head (imgHeight img) Hh) as [rest Hrest].
  pose proof (steps_range (imgHeight img)) as Hr. rewrite Hrest in Hr |- *.
  apply Forall_cons in Hr as [H0 Hr]. cbn [fold_left].
  assert (HP0 : P (0%Q, 0)).
  { split; cbn [fst snd]; [|lia]. unfold ofZ. change (inject_Z 0) with (0 # 1). ring. }
  destruct (Hinner 0 (0%Q, 0) H0 HP0) as [HP1 Hlt1]. cbn [snd] in Hlt1.
  cut (P (fold_left (fun acc y' =>
            fold_left (fun '(sumR, count) x =>
                 let i := (y' * imgWidth img + x) * 4 in
                 ((sumR + ofZ (default 0%Z (px (imgData img) i)))%Q, count + 1))
                 (steps 0 (imgWidth img) 20) acc) rest
          (fold_left (fun '(sumR, count) x =>
                 let i := (0 * imgWidth img + x) * 4 in
                 ((sumR + ofZ (default 0%Z (px (imgData img) i)))%Q, count + 1))
                 (steps 0 (imgWidth img) 20) (0%Q, 0)))
       /\ 0 < snd (fold_left (fun acc y' =>
            fold_left (fun '(sumR, count) x =>
                 let i := (y' * imgWidth img + x) * 4 in
                 ((sumR + ofZ (default 0%Z (px (imgData img) i)))%Q, count + 1))
                 (steps 0 (imgWidth img) 20) acc) rest
          (fold_left (fun '(sumR, count) x =>
                 let i := (0 * imgWidth img + x) * 4 in
                 ((sumR + ofZ (default 0%Z (px (imgData img) i)))%Q, count + 1))
                 (steps 0 (imgWidth img) 20) (0%Q, 0)))).
  { intros [[Hs _] Hpos]. by split. }
  apply (fold_left_Forall_inv (fun a => P a /\ 0 < snd a)
           (fun y' => 0 <= y' < imgHeight img)); [exact Hr| |by split].
  intros y' a Hy [Ha Hpos]. destruct (Hinner y' a Hy Ha) as [Ha' Hlt].
  split; [exact Ha'|]. exact (Z.lt_trans _ _ _ Hpos Hlt).
Qed.

(** X2: the threshold is relative to the image, so a raster of one flat
    colour has no ink at all: whatever its red value (also 0, a black
    image), every pixel is classified Paper, and fast validation rejects
    the image. *)
Theorem flat_image_is_all_paper (r : Z) (img : Image) :
  0 <= r -> 0 < imgWidth img -> 0 < imgHeight img -> uniformRaster r img ->
  Forall (fun v => v = 1) (binaryData (createBinaryCanvas img))
  /\ isValid (validateTicketImage img) = false.
Proof.
  intros Hr Hw Hh Hu.
  assert (Hall : Forall (fun v => v = 1) (binaryData (createBinaryCanvas img))).
  { destruct (sampleRed_uniform r img Hw Hh Hu) as [Hs Hc].
    unfold createBinaryCanvas.
    destruct (sampleRed img) as [sumR count]. cbn [fst snd binaryData] in *.
    apply Forall_forall. intros v Hv.
    apply list_elem_of_In, in_map_iff in Hv as (i & <- & Hi).
    apply list_elem_of_In, elem_of_seqZ in Hi.
    rewrite Hu by lia. cbn [default]. unfold Datatypes.id.
    assert (Hnot : Qltb (ofZ r)
                     ((if 0 <? count then (sumR / ofZ count)%Q else 128%Q)
                      * (85 # 100)) = false).
    { apply Qltb_ge. apply Z.ltb_lt in Hc as Hpos. rewrite Hpos, Hs.
      assert (Heq : (ofZ r * ofZ count / ofZ count == ofZ r)%Q).
      { unfold ofZ. field. by apply inject_Z_nonzero. }
      rewrite Heq. apply ofZ_le in Hr.
      change (ofZ 0) with 0%Q in Hr. lra. }
    by rewrite Hnot. }
  split; [exact Hall|].
  destruct (createBinaryCanvas_size img) as (HW & HH & Hlen).
  unfold validateTicketImage, detectTicketsInImage.
  rewrite findWhiteComponents_paper; [by vm_compute|by rewrite HW|by rewrite HW, HH|done].
Qed.

(** The theorem at the black 2 x 2 raster. *)
Lemma flat_image_is_all_paper_witness :
  Forall (fun v => v = 1) (binaryData (createBinaryCanvas blackImage))
  /\ isValid (validateTicketImage blackImage) = false.
Proof.
  apply (flat_image_is_all_paper 0 blackImage); [lia|simpl; lia|simpl; lia|].
  intros k Hk. simpl in Hk.
  assert (Hcases : k = 0 \/ k = 1 \/ k = 2 \/ k = 3) by lia.
  destruct Hcases as [->|[->|[->| ->]]]; reflexivity.
Defined.

(** ** Morphological cleaner *)

Lemma px_pxSet_cases arr j v i u :
  px (pxSet arr j v) i = Some u -> (i = j /\ u = v) \/ px arr i = Some u.
Proof.
  intros Hpx. destruct (decide (j = i)) as [->|Hne].
  - left. split; [done|].
    pose proof (px_Some_lt _ _ _ Hpx) as Hr. rewrite pxSet_length in Hr.
    rewrite px_pxSet_eq in Hpx by done. congruence.
  - right. by rewrite px_pxSet_ne in Hpx.
Qed.

Lemma erodePass_keeps_paper iter width height protectedRects inputData i :
  px (erodePass iter width height protectedRects inputData) i = Some black ->
  px inputData i = Some black.
Proof.
  rewrite erodePass_fold.
  assert (Hinit : px (replicate (Z.to_nat (width * height)) white) i = Some black ->
                  px inputData i = Some black).
  { intros Hpx. pose proof (px_Some_lt _ _ _ Hpx) as Hr.
    rewrite length_replicate in Hr. rewrite px_replicate in Hpx by lia.
    discriminate. }
  revert Hinit. generalize (replicate (Z.to_nat (width * height)) white).
  induction (pairsOf (seqZ 1 (width - 2)) (seqZ 1 (height - 2))) as [|p l IH];
    intros out Hout; [done|].
  cbn [fold_left]. apply IH. unfold writeStep, erodeWrites.
  destruct (existsb (inRect p.1 p.2) protectedRects).
  - intros Hpx. apply px_pxSet_cases in Hpx as [[-> Hv]|Hpx]; [|by apply Hout].
    destruct (px inputData (flatIndex width p)) as [u|]; [|discriminate].
    cbn [default] in Hv. unfold Datatypes.id in Hv. by subst.
  - destruct (pxIs inputData (flatIndex width p) black) eqn:Hblack; [|done].
    cbn [andb]. destruct (survives _ _ _ _); [|done].
    intros Hpx. apply px_pxSet_cases in Hpx as [[-> _]|Hpx]; [|by apply Hout].
    by apply pxIs_true.
Qed.

(** X3: cleaning only removes ink: after any number of passes, with any
    protected rectangles, a pixel that is black in the output is black in the
    input. *)
Theorem erodeCanvas_never_adds_ink (data : list Z) (width height : Z)
    (protectedRects : list Rect) (iterations : nat) (i : Z) :
  px (erodeCanvas data width height protectedRects iterations) i = Some black ->
  px data i = Some black.
Proof.
  unfold erodeCanvas. revert data.
  induction (seq 0 iterations) as [|iter l IH]; intros data; [done|].
  cbn [fold_left]. intros Hpx. apply IH in Hpx.
  by apply erodePass_keeps_paper in Hpx.
Qed.

(** The theorem at the centre of a 3 x 3 canvas of ink after one pass. *)
Lemma erodeCanvas_never_adds_ink_witness :
  px (erodeCanvas allInk3 3 3 [] 1) 4 = Some black /\ px allInk3 4 = Some black.
Proof.
  assert (Hout : px (erodeCanvas allInk3 3 3 [] 1) 4 = Some black) by reflexivity.
  split; [exact Hout|].
  exact (erodeCanvas_never_adds_ink allInk3 3 3 [] 1 4 Hout).
Defined.

(** X4: a pixel that lies off the outermost ring and in no protected
    rectangle is black after a pass exactly when it is black before it and
    survives the pass (no white 4-neighbour in the erosion pass, at least 3
    black 8-neighbours in a despeckle pass); otherwise it is white. *)
Theorem erodePass_unprotected (iter : nat) (width height : Z)
    (protectedRects : list Rect) (inputData : list Z) (x y : Z) :
  0 < x < width - 1 -> 0 < y < height - 1 ->
  existsb (inRect x y) protectedRects = false ->
  px (erodePass iter width height protectedRects inputData) (y * width + x)
  = Some (if pxIs inputData (y * width + x) black
             && survives iter width inputData (y * width + x)
          then black else white).
Proof.
  intros Hx Hy Hprot. rewrite erodePass_fold.
  assert (Hrange : 0 <= y * width + x < Z.of_nat (Z.to_nat (width * height)))
    by (apply flat_index_range; lia).
  change (y * width + x) with (flatIndex width (x, y)).
  rewrite fold_write_at.
  - unfold writeStep, erodeWrites. cbn [fst snd]. rewrite Hprot.
    destruct (pxIs _ _ _ && survives _ _ _ _).
    + apply px_pxSet_eq. by rewrite length_replicate.
    + by apply px_replicate.
  - apply elem_of_pairsOf. rewrite !elem_of_seqZ. lia.
  - apply NoDup_pairsOf; apply NoDup_seqZ.
  - intros [x' y'] Hin Heq. apply elem_of_pairsOf in Hin as [Hx' Hy'].
    apply elem_of_seqZ in Hx', Hy'. unfold flatIndex in Heq. cbn in Heq.
    destruct (flat_index_inj width x' y' x y) as [-> ->]; [lia|lia|done|done].
Qed.

(** The theorem at the centre of a 3 x 3 canvas: a lone speck is eroded, and
    the centre of a canvas of ink survives the despeckle pass. *)
Lemma erodePass_unprotected_witness :
  px (erodePass 0 3 3 [] speck3) (1 * 3 + 1) = Some white
  /\ px (erodePass 1 3 3 [] allInk3) (1 * 3 + 1) = Some black.
Proof.
  split.
  - apply (erodePass_unprotected 0 3 3 [] speck3 1 1); [lia|lia|reflexivity].
  - apply (erodePass_unprotected 1 3 3 [] allInk3 1 1); [lia|lia|reflexivity].
Defined.

(** ** Component detector *)

Lemma floodFill_done binData width height fuel st :
  queue st = [] -> floodFill binData width height fuel st = st.
Proof. intros Hq. destruct fuel; simpl; [done|]. by rewrite Hq. Qed.

Lemma floodFill_add binData width height a b st :
  floodFill binData width height (a + b) st
  = floodFill binData width height b (floodFill binData width height a st).
Proof.
  revert st. induction a as [|a IH]; intros st; [done|].
  cbn [Nat.add floodFill]. destruct (queue st) as [|[cx cy] q] eqn:Hq.
  - by rewrite floodFill_done.
  - apply IH.
Qed.

(** X5: the fill that the scan starts at an unvisited cell of the grid empties
    its stack within the [sW * sH] turns the model gives it, and more turns
    change nothing: the bounded loop of the model is the [while] loop of the
    source. *)
Theorem flood_fill_fuel_suffices (binData : list Z) (width height : Z)
    (vis : list Z) (x y' : Z) (more : nat) :
  length vis = Z.to_nat (sW width * sH width height) ->
  0 <= x < sW width -> 0 <= y' < sH width height ->
  truthy (px vis (idx width x y')) = false ->
  let st0 := {| queue := [(x, y')]; visited := pxSet vis (idx width x y') 1;
                minX := x; maxX := x; minY := y'; maxY := y' |} in
  let fuel := Z.to_nat (sW width * sH width height) in
  queue (floodFill binData width height fuel st0) = []
  /\ floodFill binData width height (fuel + more) st0
     = floodFill binData width height fuel st0.
Proof.
  intros Hlen Hx Hy Hfresh st0 fuel.
  pose proof (scanCell_fill_completes binData width height vis x y'
                Hlen Hx Hy Hfresh) as Hdone.
  split; [exact Hdone|].
  rewrite floodFill_add. by apply floodFill_done.
Qed.

(** The theorem at the first cell of a 300 x 1 strip of Paper. *)
Lemma flood_fill_fuel_suffices_witness :
  queue (floodFill (replicate 300 1) 300 1 300
           {| queue := [(0, 0)]; visited := pxSet (replicate 300 0) 0 1;
              minX := 0; maxX := 0; minY := 0; maxY := 0 |}) = [].
Proof.
  apply (flood_fill_fuel_suffices (replicate 300 1) 300 1 (replicate 300 0) 0 0 0);
    [reflexivity|vm_compute; split; [discriminate|reflexivity]
    |vm_compute; split; [discriminate|reflexivity]|reflexivity].
Defined.

(** X6: on a canvas that is all Ink the detector finds no component: every
    cell is marked visited without a fill being started. *)
Theorem findWhiteComponents_all_ink (binData : list Z) (width height : Z) :
  0 < width ->
  length binData = Z.to_nat (width * height) ->
  Forall (fun v => v = 0) binData ->
  findWhiteComponents binData width height = [].
Proof.
  intros Hw Hlen Hall. unfold findWhiteComponents, scanAll.
  apply (fold_left_Forall_inv (fun st => snd st = [])
           (fun y' => 0 <= y' < sH width height)); [| |done].
  - apply Forall_forall. intros y' Hy. by apply elem_of_seqZ in Hy; lia.
  - intros y' st Hy Hst.
    apply (fold_left_Forall_inv (fun st => snd st = [])
             (fun x => 0 <= x < sW width)); [| |done].
    + apply Forall_forall. intros x Hx. by apply elem_of_seqZ in Hx; lia.
    + intros x [vis comps] Hx Hc. cbn [snd] in Hc. subst comps.
      unfold scanCell. destruct (truthy _); [done|].
      pose proof (originalIdx_range width height x y' Hw Hx Hy) as Hr.
      destruct (px_in_range binData (originalIdx width x y')) as [v Hv];
        [by rewrite Hlen|].
      assert (v = 0) as ->.
      { unfold px in Hv. destruct (_ <? 0); [done|].
        by apply (Forall_lookup_1 _ _ _ _ Hall Hv). }
      apply pxIs_true in Hv. by rewrite Hv.
Qed.

(** The theorem at a 300 x 1 strip of ink. *)
Lemma findWhiteComponents_all_ink_witness :
  findWhiteComponents (replicate 300 0) 300 1 = [].
Proof.
  apply findWhiteComponents_all_ink; [lia|reflexivity|].
  by apply Forall_replicate.
Defined.





(** ** Column interpolation *)

(** X8: interpolation never moves a detected cell: row by row, it keeps the
    row's y and height, and every cell of the result is either one of the
    row's own cells or a made-up cell with whole-numbered fields, at the
    row's y and of the average size. *)
Theorem interpolateGrid_cells (rws : list Row) :
  Forall2 (fun row grow =>
             rowY grow = y row /\ rowH grow = h row
             /\ Forall (fun c => c ∈ cells row
                                 \/ synthesized (fst (averages rws))
                                                (snd (averages rws)) row c)
                       (gcells grow))
          rws (interpolateGrid rws).
Proof.
  unfold interpolateGrid. destruct (averages rws) as [avgW avgH]. cbn [fst snd].
  apply Forall2_fmap_r, Forall_Forall2_diag, Forall_forall. intros row _.
  cbn [rowY rowH gcells]. split; [done|]. split; [done|].
  apply Forall_fmap, Forall_forall. intros i _. cbn [compose].
  unfold cellFor.
  destruct (find _ (cells row)) as [existing|] eqn:Hfind.
  - left. apply find_some in Hfind as [Hin _]. by apply list_elem_of_In.
  - right. repeat split; eauto.
Qed.

(** X9: when no row has a cell, the averages fall back to 50 and the columns
    to [i * 50 * 1.1]: every row gets the six cells at x = 0, 55, 110, 165,
    220, 275, of size 50 x 50. *)
Theorem interpolateGrid_without_cells (rws : list Row) :
  Forall (fun r => cells r = []) rws ->
  interpolateGrid rws
  = map (fun row => {| gcells := fallbackCells row; rowY := y row; rowH := h row |})
        rws.
Proof.
  intros Hnone.
  assert (Havg : averages rws = (50%Q, 50%Q)).
  { unfold averages.
    rewrite (fold_left_fixed _ rws (0%Q, 0%Q, 0)); [done|].
    intros r Hr. rewrite Forall_forall in Hnone. by rewrite (Hnone r Hr). }
  assert (Hflat : flat_map cells rws = []).
  { clear Havg. induction Hnone as [|r l Hr _ IH]; [done|]. simpl. by rewrite Hr, IH. }
  unfold interpolateGrid, gridColumns. rewrite Havg, Hflat. cbn [fst].
  apply map_ext_Forall. eapply Forall_impl; [exact Hnone|].
  intros row Hrow. cbv beta. f_equal.
  unfold cellFor. rewrite Hrow. reflexivity.
Qed.

(** The theorem at one row without cells. *)
Lemma interpolateGrid_without_cells_witness :
  interpolateGrid [ {| y := 7; h := 9; cells := [] |} ]
  = [ {| gcells := fallbackCells {| y := 7; h := 9; cells := [] |};
         rowY := 7; rowH := 9 |} ].
Proof.
  apply (interpolateGrid_without_cells [ {| y := 7; h := 9; cells := [] |} ]).
  by repeat constructor.
Defined.

(** ** Content verification *)

Lemma hasInkData_no_dense data w h :
  denseBlackPixels data w h = 0 -> hasInkData data w h = false.
Proof.
  intros H0. unfold hasInkData. rewrite H0. apply Qltb_ge.
  unfold Qdiv. change (ofZ 0) with 0%Q. rewrite Qmult_0_l. done.
Qed.

(** X10: a crop that is only 1 or 2 pixels wide or high never has content:
    the loops skip the outermost ring, so no pixel is examined.  (An empty
    rectangle is left out: the browser refuses it.) *)
Theorem hasInk_thin_crop (cv : BinaryCanvas) (x y w h : Z) :
  0 < w -> 0 < h -> w <= 2 \/ h <= 2 -> hasInk cv x y w h = false.
Proof.
  intros _ _ Hthin. apply hasInkData_no_dense. unfold denseBlackPixels.
  destruct Hthin as [Hw|Hh].
  - apply fold_left_fixed. intros y' _.
    replace (seqZ 1 (w - 2)) with (@nil Z); [done|].
    unfold seqZ. by replace (Z.to_nat (w - 2)) with 0%nat by lia.
  - replace (seqZ 1 (h - 2)) with (@nil Z); [done|].
    unfold seqZ. by replace (Z.to_nat (h - 2)) with 0%nat by lia.
Qed.

(** The theorem at a crop of 40 x 2 ink pixels. *)
Lemma hasInk_thin_crop_witness :
  hasInk inkCanvas 0 0 40 2 = false.
Proof. apply hasInk_thin_crop; lia. Defined.

Lemma getImageData_values cv x y w h :
  Forall (fun v => v = 0 \/ v ∈ cvPixels cv) (getImageData cv x y w h).
Proof.
  unfold getImageData. apply Forall_forall. intros v Hv.
  apply list_elem_of_In, in_flat_map in Hv as (j & _ & Hv).
  apply in_map_iff in Hv as (i & <- & _).
  unfold canvasPixel. destruct (_ && _); [|by left].
  destruct (px (cvPixels cv) _) as [u|] eqn:Hu; [|by left].
  right. cbn [default]. unfold Datatypes.id. unfold px in Hu.
  destruct (_ <? 0); [done|]. by apply list_elem_of_lookup_2 in Hu.
Qed.

Lemma denseBlackPixels_no_ink data w h :
  Forall (fun v => v <> black) data -> denseBlackPixels data w h = 0.
Proof.
  intros Hno. unfold denseBlackPixels.
  apply fold_left_fixed. intros y' _. apply fold_left_fixed. intros x' _.
  cbv zeta. destruct (pxIs data (y' * w + x') black) eqn:Hb; [|done].
  apply pxIs_true in Hb. unfold px in Hb. destruct (_ <? 0); [done|].
  apply list_elem_of_lookup_2 in Hb. rewrite Forall_forall in Hno.
  by destruct (Hno _ Hb).
Qed.

(** ** The sprite map *)

(** X11: on a canvas without a black pixel no crop has content, whatever
    rectangle is cut (an empty rectangle is left out: the browser refuses
    it), so a sheet that is built maps no number cell: every entry of the
    map is an identifier field. *)
Theorem blank_canvas_maps_no_number (cv : BinaryCanvas) (tickets : list Ticket) :
  Forall (fun v => v <> black) (cvPixels cv) ->
  (forall x y w h, 0 < w -> 0 < h -> hasInk cv x y w h = false)
  /\ Forall (fun e => type e = id) (cmap (generateCompositeCanvas cv tickets)).
Proof.
  intros Hno.
  assert (Hink : forall x y w h, hasInk cv x y w h = false).
  { intros x y w h. apply hasInkData_no_dense, denseBlackPixels_no_ink.
    eapply Forall_impl; [apply getImageData_values|].
    intros v [->|Hv]; [done|]. rewrite Forall_forall in Hno. by apply Hno. }
  split; [intros x y w h _ _; apply Hink|].
  unfold generateCompositeCanvas.
  pose proof (foldlIndexed_inv
                (fun _ st => Forall (fun e => type e = id) (fst st))
                (placeTicket cv) tickets ([], [])) as Hinv.
  destruct (foldlIndexed _ _ _) as [m prot]. cbn [cmap]. apply Hinv.
  - by constructor.
  - clear Hinv m prot. intros t ticket [m prot] _ Hm. cbn [fst] in *.
    unfold placeTicket.
    assert (Hnum :
      Forall (fun e => type e = id)
        (fold_left (fun map r =>
           match interpolateGrid (rows ticket) !! r with
           | Some row =>
               fold_left (placeCell cv t (Z.of_nat t * ticketHeight + padding) r row)
                         (seq 0 6) map
           | None => map
           end) (seq 0 3) m)).
    { apply (fold_left_Forall_inv (fun m => Forall (fun e => type e = id) m)
               (fun _ => True)); [by apply Forall_true| |done].
      intros r m' _ Hm'. destruct (_ !! r) as [row|]; [|done].
      apply (fold_left_Forall_inv (fun m => Forall (fun e => type e = id) m)
               (fun _ => True)); [by apply Forall_true| |done].
      intros c m'' _ Hm''. unfold placeCell.
      destruct (gcells row !! c); [|done]. by rewrite Hink. }
    destruct (lastCellOf _) as [lastCell|]; [|done].
    destruct (placeId cv t _ lastCell) as [entry|] eqn:Hid; [|done].
    cbn [fst]. apply Forall_app. split; [done|]. apply Forall_singleton.
    unfold placeId in Hid. destruct (_ && _); [|done]. by injection Hid as <-.
Qed.

(** The theorem at the 4 x 4 canvas without ink. *)
Lemma blank_canvas_maps_no_number_witness :
  Forall (fun e => type e = id)
         (cmap (generateCompositeCanvas whiteCanvas [tinyTicket])).
Proof.
  apply (blank_canvas_maps_no_number whiteCanvas [tinyTicket]).
  by apply Forall_replicate.
Defined.

(** X12: the map lists its entries in the order of the loops (ticket, row,
    column, the identifier field last in its ticket), strictly ascending, so
    no slot is mapped twice; in particular a ticket has at most one
    identifier entry, which is the one [find] returns, and every identifier
    entry sits in row 2, column 6 of a ticket of the sheet. *)
Theorem cmap_in_scan_order (cv : BinaryCanvas) (tickets : list Ticket) :
  let m := cmap (generateCompositeCanvas cv tickets) in
  Increasing m
  /\ (forall tIdx, (length (List.filter (isIdOf tIdx) m) <= 1)%nat)
  /\ Forall (fun e => type e = id ->
                      (ticketIndex e < length tickets)%nat
                      /\ rowIndex e = 2%nat /\ colIndex e = 6%nat) m.
Proof.
  intros m. destruct (cmap_below cv tickets) as [Hinc Hall]. fold m in Hinc, Hall.
  split; [exact Hinc|]. split.
  - intros tIdx. apply filter_at_most_one. intros i j a b Ha Hb Hpa Hpb.
    unfold isIdOf in Hpa, Hpb.
    apply andb_true_iff in Hpa as [Hta Hia]. apply andb_true_iff in Hpb as [Htb Hib].
    apply Nat.eqb_eq in Hta, Htb.
    destruct (Forall_lookup_1 _ _ _ _ Hall Ha) as [_ [_ Hwa]].
    destruct (Forall_lookup_1 _ _ _ _ Hall Hb) as [_ [_ Hwb]].
    destruct (type a); [done|]. destruct (type b); [done|].
    destruct Hwa as [Hra Hca]. destruct Hwb as [Hrb Hcb].
    assert (Hcode : slotCode a = slotCode b).
    { unfold slotCode. by rewrite Hta, Htb, Hra, Hrb, Hca, Hcb. }
    destruct (Nat.lt_trichotomy i j) as [Hlt|[->|Hgt]]; [|done|].
    + pose proof (Hinc i j a b Hlt Ha Hb). lia.
    + pose proof (Hinc j i b a Hgt Hb Ha). lia.
  - eapply Forall_impl; [exact Hall|]. intros e [_ [Ht Hw]] Hid.
    rewrite Hid in Hw. by destruct Hw.
Qed.

Lemma filter_id_placeCell cv t startY r row m c :
  List.filter isIdEntry (placeCell cv t startY r row m c)
  = List.filter isIdEntry m.
Proof.
  unfold placeCell. destruct (gcells row !! c); [|done].
  destruct (hasInk _ _ _ _ _); [|done].
  rewrite List.filter_app. cbn [List.filter isIdEntry type]. apply app_nil_r.
Qed.

(** X13: the rectangles handed to the cleaner as protected are exactly the
    sprites of the identifier entries of the map, in the same order. *)
Theorem protected_are_id_sprites (cv : BinaryCanvas) (tickets : list Ticket) :
  let sheet := generateCompositeCanvas cv tickets in
  protectedRects sheet = map spriteRect (List.filter isIdEntry (cmap sheet)).
Proof.
  unfold generateCompositeCanvas.
  pose proof (foldlIndexed_inv
                (fun _ st => snd st = map spriteRect (List.filter isIdEntry (fst st)))
                (placeTicket cv) tickets ([], [])) as Hinv.
  destruct (foldlIndexed _ _ _) as [m prot]. cbn [cmap protectedRects]. apply Hinv.
  - done.
  - clear Hinv m prot. intros t ticket [m prot] _ Hm. cbn [fst snd] in *.
    unfold placeTicket.
    set (m3 := fold_left _ (seq 0 3) m).
    assert (Hm3 : List.filter isIdEntry m3 = List.filter isIdEntry m).
    { subst m3.
      apply (fold_left_Forall_inv
               (fun m' => List.filter isIdEntry m' = List.filter isIdEntry m)
               (fun _ => True)); [by apply Forall_true| |done].
      intros r m' _ Hm'. destruct (_ !! r) as [row|]; [|done].
      apply (fold_left_Forall_inv
               (fun m' => List.filter isIdEntry m' = List.filter isIdEntry m)
               (fun _ => True)); [by apply Forall_true| |done].
      intros c m'' _ Hm''. by rewrite filter_id_placeCell. }
    destruct (lastCellOf _) as [lastCell|]; [|by cbn [fst snd]; rewrite Hm3].
    destruct (placeId cv t _ lastCell) as [entry|] eqn:Hid;
      [|by cbn [fst snd]; rewrite Hm3].
    cbn [fst snd]. rewrite List.filter_app, map_app, Hm3, <- Hm.
    assert (Hty : isIdEntry entry = true).
    { unfold placeId in Hid. destruct (_ && _); [|done]. by injection Hid as <-. }
    cbn [List.filter]. by rewrite Hty.
Qed.

(** X14: every number sprite lies inside the sheet and keeps a margin of at
    least the padding (400 pixels) to each of its four edges. *)
Theorem number_sprites_inside_sheet (cv : BinaryCanvas) (tickets : list Ticket) :
  let sheet := generateCompositeCanvas cv tickets in
  Forall (fun e =>
            type e = number ->
            (ofZ padding <= rx (spriteRect e)
             /\ rx (spriteRect e) + rw (spriteRect e) + ofZ padding
                <= ofZ (compWidth sheet)
             /\ ofZ padding <= ry (spriteRect e)
             /\ ry (spriteRect e) + rh (spriteRect e) + ofZ padding
                <= ofZ (compHeight sheet))%Q)
         (cmap sheet).
Proof.
  intros sheet. destruct (cmap_below cv tickets) as [_ Hall].
  assert (Hwidth : 6 * (cellSize + padding) + padding * 2 <= compWidth sheet).
  { unfold sheet, generateCompositeCanvas.
    destruct (foldlIndexed _ _ _) as [m prot]. cbn [compWidth].
    etransitivity; [|apply Z.le_max_l]. unfold measureRowWidth.
    apply (fold_left_Forall_inv
             (fun v => 6 * (cellSize + padding) + padding * 2 <= v)
             (fun _ => True)); [by apply Forall_true| |lia].
    intros ticket v _ Hv. destruct (lastCellOf _) as [lastCell|]; [|done].
    cbv zeta. destruct (v <? _) eqn:Hlt; [|done]. apply Z.ltb_lt in Hlt. lia. }
  assert (Hheight : Z.of_nat (length tickets) * ticketHeight <= compHeight sheet).
  { unfold sheet, generateCompositeCanvas.
    destruct (foldlIndexed _ _ _) as [m prot]. cbn [compHeight]. apply Z.le_max_l. }
  eapply Forall_impl; [exact Hall|]. intros e [_ [Ht Hw]] Hnum.
  rewrite Hnum in Hw. destruct Hw as (Hr & Hc & ->).
  unfold numberSprite. cbn [rx ry rw rh].
  unfold ticketHeight, cellSize, padding in *.
  repeat split; unfold ofZ; rewrite <- ?inject_Z_plus; apply ofZ_le; nia.
Qed.

(** ** Row clustering and chunking *)

Lemma pushToMatch_spec comp rws rws' :
  pushToMatch comp rws = Some rws' ->
  flat_map cells rws' ≡ₚ comp :: flat_map cells rws
  /\ (Forall rowAnchored rws -> Forall rowAnchored rws').
Proof.
  revert rws'. induction rws as [|r rest IH]; intros rws' Hpush; [done|].
  simpl in Hpush. destruct (matchesRow comp r).
  - injection Hpush as <-. split.
    + simpl. rewrite <- app_assoc. simpl.
      by rewrite <- Permutation_middle.
    + intros Hall. apply Forall_cons in Hall as [(c & Hc & Hy & Hh) Hrest].
      constructor; [|done]. exists c. cbn [cells y h].
      split; [|done]. apply elem_of_app. by left.
  - destruct (pushToMatch comp rest) as [rest'|]; [|done].
    injection Hpush as <-. destruct (IH rest' eq_refl) as [Hperm Hanch]. split.
    + simpl. rewrite Hperm. by rewrite <- Permutation_middle.
    + intros Hall. apply Forall_cons in Hall as [Hr Hrest].
      constructor; [done|by apply Hanch].
Qed.

Lemma clusterRows_spec comps :
  flat_map cells (clusterRows comps) ≡ₚ comps
  /\ Forall rowAnchored (clusterRows comps).
Proof.
  unfold clusterRows.
  cut (forall rws,
         Forall rowAnchored rws ->
         flat_map cells
           (fold_left (fun rws comp =>
              match pushToMatch comp rws with
              | Some rws' => rws'
              | None => rws ++ [ {| y := ry comp; h := rh comp; cells := [comp] |} ]
              end) comps rws) ≡ₚ flat_map cells rws ++ comps
         /\ Forall rowAnchored
              (fold_left (fun rws comp =>
                 match pushToMatch comp rws with
                 | Some rws' => rws'
                 | None => rws ++ [ {| y := ry comp; h := rh comp; cells := [comp] |} ]
                 end) comps rws)).
  { intros Hgen. by apply (Hgen []). }
  induction comps as [|comp comps IH]; intros rws Hrws.
  - simpl. by rewrite app_nil_r.
  - cbn [fold_left]. destruct (pushToMatch comp rws) as [rws'|] eqn:Hpush.
    + destruct (pushToMatch_spec _ _ _ Hpush) as [Hperm Hanch].
      destruct (IH rws' (Hanch Hrws)) as [Hp Ha]. split; [|done].
      rewrite Hp, Hperm. by rewrite <- Permutation_middle.
    + destruct (IH (rws ++ [ {| y := ry comp; h := rh comp; cells := [comp] |} ]))
        as [Hp Ha].
      { apply Forall_app. split; [done|]. apply Forall_singleton.
        exists comp. split; [by apply list_elem_of_singleton|done]. }
      split; [|done]. rewrite Hp, flat_map_app. simpl.
      by rewrite <- app_assoc.
Qed.

Lemma flat_map_cells_filter (l : list Row) :
  flat_map cells (List.filter (fun r => (1 <=? length (cells r))%nat) l)
  = flat_map cells l.
Proof.
  induction l as [|r l IH]; [done|]. cbn [List.filter flat_map].
  destruct (1 <=? length (cells r))%nat eqn:Hlen.
  - cbn [flat_map]. by rewrite IH.
  - apply Nat.leb_gt in Hlen. rewrite IH.
    destruct (cells r); [done|simpl in Hlen; lia].
Qed.

Lemma validRowsOf_perm (rawComponents : list Rect) :
  flat_map cells (validRowsOf rawComponents) ≡ₚ rawComponents.
Proof.
  unfold validRowsOf.
  rewrite js_sort_perm, flat_map_cells_filter.
  set (clustered := clusterRows _).
  transitivity (flat_map cells clustered).
  - induction clustered as [|r l IH]; [done|]. simpl.
    by rewrite IH, js_sort_perm.
  - subst clustered. destruct (clusterRows_spec
      (js_sort (fun a b => Qltb (ry a) (ry b)) rawComponents)) as [Hp _].
    by rewrite Hp, js_sort_perm.
Qed.

Lemma validRowsOf_well_formed rawComponents :
  Forall rowWellFormed (validRowsOf rawComponents).
Proof.
  unfold validRowsOf.
  rewrite js_sort_perm.
  apply Forall_forall. intros r Hr.
  apply list_elem_of_In, filter_In in Hr as [Hr Hlen].
  apply in_map_iff in Hr as (r0 & <- & Hr0). cbn [cells y h] in *.
  split; [|split].
  - cbn [cells]. intros Hnil. by rewrite Hnil in Hlen.
  - cbn [cells]. eapply Sorted_ind with (P := Sorted (fun a b => (rx a <= rx b)%Q)).
    3: { apply (js_sort_Sorted (fun a b => Qltb (rx a) (rx b))).
         intros a b Hab. apply Qltb_ge, Qlt_le_weak. by apply Qltb_lt. }
    + constructor.
    + intros a l _ IH Hhd. constructor; [exact IH|].
      destruct Hhd as [|b l Hb]; constructor. by apply Qltb_ge.
  - destruct (clusterRows_spec
      (js_sort (fun a b => Qltb (ry a) (ry b)) rawComponents)) as [_ Ha].
    rewrite Forall_forall in Ha.
    destruct (Ha r0) as (c & Hc & Hy & Hh); [by apply list_elem_of_In|].
    exists c. cbn [cells y h]. split; [|done]. by rewrite js_sort_perm.
Qed.


(** X16: every detected ticket has exactly three rows, and each of them has
    at least one cell, has its cells in ascending x order and carries the y
    and height of one of its cells; so the tickets meet what the column
    interpolation asks of its input. *)
Theorem detected_tickets_well_formed (rawComponents : list Rect) (t : Ticket) :
  t ∈ ticketsOfComponents rawComponents ->
  length (rows t) = 3%nat /\ Forall rowWellFormed (rows t).
Proof.
  intros Ht. unfold ticketsOfComponents in Ht. rewrite chunkTickets_runs in Ht.
  apply list_elem_of_In, in_map_iff in Ht as (g & <- & Hg).
  apply in_flat_map in Hg as (run & Hrun & Hg).
  apply list_elem_of_In in Hg.
  destruct (groupsOf3_segment run g Hg) as (Hlen & b1 & a1 & Hseg).
  split; [exact Hlen|]. cbn [rows].
  pose proof (validRowsOf_well_formed rawComponents) as Hall.
  assert (Hc : concat (splitRuns (validRowsOf rawComponents))
               = validRowsOf rawComponents) by apply runsFrom_concat.
  rewrite <- Hc in Hall. apply Forall_concat in Hall.
  rewrite Forall_forall in Hall. apply list_elem_of_In in Hrun.
  specialize (Hall run Hrun). rewrite Hseg in Hall.
  apply Forall_app in Hall as [_ Hall]. by apply Forall_app in Hall as [Hall _].
Qed.

(** The theorem at the first ticket of the seven components. *)
Lemma detected_tickets_well_formed_witness :
  exists t,
    t ∈ ticketsOfComponents sevenRows
    /\ length (rows t) = 3%nat /\ Forall rowWellFormed (rows t).
Proof.
  assert (Hts : exists t rest, ticketsOfComponents sevenRows = t :: rest)
    by (vm_compute; eauto).
  destruct Hts as (t & rest & Hts).
  assert (Hin : t ∈ ticketsOfComponents sevenRows) by (rewrite Hts; left).
  exists t. split; [exact Hin|].
  exact (detected_tickets_well_formed sevenRows t Hin).
Defined.

Lemma groupsOf3_length {A : Type} (l : list A) :
  (3 * length (groupsOf3 l) <= length l)%nat.
Proof.
  induction l as [| | |a b c l IH] using list_ind3; simpl in *; lia.
Qed.

Lemma rows_le_cells (l : list Row) :
  Forall (fun r => cells r <> []) l ->
  (length l <= length (flat_map cells l))%nat.
Proof.
  induction 1 as [|r l Hr _ IH]; [done|]. cbn [flat_map length].
  rewrite length_app. destruct (cells r); [done|]. simpl. lia.
Qed.

(** X17: a ticket takes at least three components: three times the number
    of detected tickets is at most the number of components. *)
Theorem three_components_per_ticket (rawComponents : list Rect) :
  (3 * length (ticketsOfComponents rawComponents) <= length rawComponents)%nat.
Proof.
  unfold ticketsOfComponents. rewrite chunkTickets_runs, length_map.
  rewrite <- (Permutation_length (validRowsOf_perm rawComponents)).
  etransitivity; [|apply rows_le_cells].
  - assert (Hc : concat (splitRuns (validRowsOf rawComponents))
                 = validRowsOf rawComponents) by apply runsFrom_concat.
    rewrite <- Hc at 2. clear Hc.
    induction (splitRuns (validRowsOf rawComponents)) as [|run runs IH]; [done|].
    cbn [flat_map concat]. rewrite !length_app.
    pose proof (groupsOf3_length run). lia.
  - eapply Forall_impl; [apply validRowsOf_well_formed|]. by intros r [Hr _].
Qed.

(** ** The analysis as a whole *)

(** X18: the analysis and fast validation agree on an image: whenever the
    analysis returns, it returns one result per ticket that validation
    counts for the same image, and its list of results is empty exactly when
    validation calls the image invalid. *)
Theorem analysis_agrees_with_validation (img : Image)
    (recognize : Composite -> Settles (list RawWord)) (ocrFirstOnTie : bool)
    (rnd : nat -> Z) (resp : AnalysisResponse) :
  analyzeTicketImage img recognize ocrFirstOnTie rnd = Returns resp ->
  Z.of_nat (length (results resp)) = ticketCount (validateTicketImage img)
  /\ (isValid (validateTicketImage img) = true <-> results resp <> []).
Proof.
  unfold analyzeTicketImage.
  set (cv := createBinaryCanvas img).
  set (sheet := generateCompositeCanvas cv (detectTicketsInImage cv)).
  destruct (raceWithTimeout ocrFirstOnTie (recognize sheet)) as [words|];
    [|discriminate].
  intros Heq.
  assert (Hres : results resp
                 = postProcess rnd (length (detectTicketsInImage cv)) (cmap sheet)
                     (List.map toDetectedWord words)).
  { destruct resp as [res]. cbn [results]. congruence. }
  rewrite Hres. clear Heq Hres.
  destruct (postProcess_good rnd (length (detectTicketsInImage cv)) (cmap sheet)
              (List.map toDetectedWord words)) as [_ Hlen].
  unfold validateTicketImage. fold cv.
  destruct (0 <? Z.of_nat (length (detectTicketsInImage cv))) eqn:Hpos;
    cbn [ticketCount isValid].
  - split; [by rewrite Hlen|]. split; [|done]. intros _ Hnil.
    rewrite Hnil in Hlen. apply Z.ltb_lt in Hpos. cbn [length] in Hlen. lia.
  - split; [by rewrite Hlen|]. split; [done|]. intros Hne.
    apply Z.ltb_ge in Hpos. destruct (postProcess _ _ _ _); [done|].
    cbn [length] in Hlen. lia.
Qed.

(** The theorem at the white raster and an answer of no words after 1.5 s:
    the analysis returns, with as many results as validation counts. *)
Lemma analysis_agrees_with_validation_witness :
  exists resp,
    analyzeTicketImage whiteImage (fun _ => Fulfils 1500 []) false (fun _ => 0)
    = Returns resp
    /\ Z.of_nat (length (results resp))
       = ticketCount (validateTicketImage whiteImage).
Proof.
  eexists. split; [reflexivity|].
  exact (proj1 (analysis_agrees_with_validation whiteImage
                  (fun _ => Fulfils 1500 []) false (fun _ => 0) _ eq_refl)).
Defined.

Lemma filter_none {A : Type} (p : A -> bool) (l : list A) :
  (forall a, a ∈ l -> p a = false) -> List.filter p l = [].
Proof.
  induction l as [|a l IH]; intros Hl; [done|]. cbn [List.filter].
  rewrite (Hl a) by left. apply IH. intros b Hb. apply Hl. by right.
Qed.

(** X19: words whose centre lies in no sprite of the map are ignored: the
    results are the initial ones, every grid blank and every identifier the
    placeholder. *)
Theorem stray_words_are_ignored (rnd : nat -> Z) (nTickets : nat)
    (map : list MappedCell) (ocrWords : list DetectedWord) :
  (forall w e, w ∈ ocrWords -> e ∈ map -> centerInside w (spriteRect e) = false) ->
  postProcess rnd nTickets map ocrWords = initialResults rnd nTickets.
Proof.
  intros Hout. unfold postProcess. apply fold_left_fixed. intros tIdx _.
  unfold processTicket.
  rewrite fold_left_fixed.
  - unfold processId. destruct (find _ map) as [idMapItem|] eqn:Hfind; [|done].
    apply find_some in Hfind as [Hin _]. apply list_elem_of_In in Hin.
    rewrite filter_none; [done|]. intros w Hw. by apply Hout.
  - intros item Hitem. apply list_elem_of_In, filter_In in Hitem as [Hin _].
    apply list_elem_of_In in Hin. unfold processNumber.
    rewrite filter_none; [done|]. intros w Hw. by apply Hout.
Qed.

(** The theorem at one number slot and one word far from it. *)
Lemma stray_words_are_ignored_witness :
  postProcess (fun _ => 7) 1 [firstSlot] [strayWord]
  = initialResults (fun _ => 7) 1.
Proof.
  apply stray_words_are_ignored. intros w e Hw He.
  apply list_elem_of_singleton in Hw, He. subst. reflexivity.
Defined.

(** X20: a number that is recognised as printed is kept: the decimal text
    of every n from 1 to 99 is read back as n. *)
Theorem printed_number_round_trip (n : Z) :
  1 <= n <= 99 -> numberOfText (pretty n) = Some n.
Proof.
  intros Hn.
  assert (Hall : forallb (fun k => match numberOfText (pretty k) with
                                   | Some v => v =? k
                                   | None => false
                                   end) (seqZ 1 99) = true) by (by vm_compute).
  rewrite forallb_forall in Hall. specialize (Hall n).
  destruct (numberOfText (pretty n)) as [v|].
  - f_equal. apply Z.eqb_eq, Hall, list_elem_of_In, elem_of_seqZ. lia.
  - discriminate Hall. apply list_elem_of_In, elem_of_seqZ. lia.
Qed.

(** The theorem at 42. *)
Lemma printed_number_round_trip_witness : numberOfText (pretty 42) = Some 42.
Proof. apply printed_number_round_trip. lia. Defined.

Lemma idLetter_not_digit c : isIdLetter c = true -> isDigit c = false.
Proof. destruct c as [[] [] [] [] [] [] [] []]; by vm_compute. Qed.

Lemma slashLike_not_digit c : isSlashLike c = true -> isDigit c = false.
Proof. destruct c as [[] [] [] [] [] [] [] []]; by vm_compute. Qed.

Lemma digitsOf_stripRunsFrom st s :
  match st with OneLetter l => isIdLetter l = true | _ => True end ->
  digitsOf (stripRunsFrom st s) = digitsOf s.
Proof.
  revert st. induction s as [|c s IH]; intros st Hst.
  - destruct st as [|l|]; [done| |done]. cbn [stripRunsFrom digitsOf removeAll].
    by rewrite (idLetter_not_digit l Hst).
  - cbn [stripRunsFrom]. destruct (isIdLetter c) eqn:Hc.
    + pose proof (idLetter_not_digit c Hc) as Hd.
      unfold digitsOf at 2. cbn [removeAll]. rewrite Hd. cbn [negb].
      destruct st; by apply IH.
    + destruct st as [|l|].
      * unfold digitsOf. cbn [removeAll]. fold (digitsOf (stripRunsFrom NoRun s)).
        by rewrite IH.
      * unfold digitsOf. cbn [removeAll]. rewrite (idLetter_not_digit l Hst).
        cbn [negb]. fold (digitsOf (stripRunsFrom NoRun s)). by rewrite IH.
      * unfold digitsOf. cbn [removeAll]. fold (digitsOf (stripRunsFrom NoRun s)).
        by rewrite IH.
Qed.

Lemma digitsOf_replace_slashes s :
  digitsOf (replaceAll isSlashLike "/" s) = digitsOf s.
Proof.
  induction s as [|c s IH]; [done|]. unfold digitsOf in *.
  cbn [replaceAll removeAll]. rewrite IH.
  destruct (isSlashLike c) eqn:Hc; [|done].
  by rewrite (slashLike_not_digit c Hc).
Qed.

(** X21: the clean-up of the identifier text (letter runs removed, slash
    look-alikes turned into slashes) leaves its digits and their order as
    they are. *)
Theorem normalizeIdText_keeps_digits (fullText : string) :
  digitsOf (normalizeIdText fullText) = digitsOf fullText.
Proof.
  unfold normalizeIdText, stripLetterRuns.
  by rewrite digitsOf_replace_slashes, digitsOf_stripRunsFrom.
Qed.

(** X22: whichever branch reconstructs it, an identifier has the form
    [digits/digits], with at least one digit on either side. *)
Theorem reconstructId_format (fullText t : string) :
  reconstructId fullText = Some t ->
  exists l r, t = (l +:+ "/" +:+ r)%string /\ numericToken l /\ numericToken r.
Proof.
  unfold reconstructId.
  destruct (slashMatch (normalizeIdText fullText)) as [[l r]|] eqn:Hm.
  - intros [= <-]. exists l, r. split; [done|].
    apply slashMatch_sound in Hm as (pre & ws1 & ws2 & post & _ & Hl & Hll & _ & _ & Hr & Hlr).
    split; (split; [done|]); intros ->; simpl in *; lia.
  - destruct (2 <=? length (looseParts (normalizeIdText fullText)))%nat eqn:Hlen;
      [|done].
    intros [= <-]. apply Nat.leb_le in Hlen.
    destruct (last_two_split EmptyString _ Hlen) as (front & Hsplit).
    pose proof (looseParts_numeric (normalizeIdText fullText)) as Hnum.
    rewrite Hsplit in Hnum. apply Forall_app in Hnum as [_ Hnum].
    apply Forall_cons in Hnum as [H1 Hnum]. apply Forall_cons in Hnum as [H2 _].
    by eexists _, _.
Qed.

(** The theorem at the text of an identifier without its slash. *)
Lemma reconstructId_format_witness :
  exists l r, "160/400"%string = (l +:+ "/" +:+ r)%string
              /\ numericToken l /\ numericToken r.
Proof.
  apply (reconstructId_format "Nr 160 400" "160/400"). reflexivity.
Defined.

(** ** The game state *)

Lemma rowStatus_forallb ticket drawnNumbers :
  forallb (fun s => s) (TicketCard.rowStatus ticket drawnNumbers)
  = forallb (fun row =>
      existsb (fun cell => 0 <? cell) row
      && forallb (fun cell => (cell =? 0) || bool_decide (cell ∈ drawnNumbers)) row)
      (Types.rows ticket).
Proof.
  unfold TicketCard.rowStatus. induction (Types.rows ticket) as [|row l IH]; [done|].
  cbn [map forallb]. by rewrite IH.
Qed.

(** X23: for tickets that have at least one row (every scanned ticket has
    three) the banner of the application shows exactly when some card shows
    its own: [hasWinner] is true exactly when [isFullWinner] is true of some
    ticket.  A ticket without rows is the one case where they differ. *)
Theorem banner_matches_cards (tickets : list Types.BingoTicket)
    (drawnNumbers : list Z) :
  Forall (fun t => Types.rows t <> []) tickets ->
  App.hasWinner tickets drawnNumbers
  = existsb (fun t => TicketCard.isFullWinner t (list_to_set drawnNumbers)) tickets.
Proof.
  intros Hrows. unfold App.hasWinner.
  induction Hrows as [|t l Ht _ IH]; [done|]. cbn [existsb]. rewrite IH. f_equal.
  unfold TicketCard.isFullWinner. rewrite rowStatus_forallb.
  unfold TicketCard.rowStatus. rewrite length_map.
  destruct (Types.rows t); [done|]. done.
Qed.

(** The theorem at a ticket of two rows, and the two values for a ticket
    without rows. *)
Lemma banner_matches_cards_witness :
  App.hasWinner [blankTicket [[0; 7]; [7]]] [7]
  = existsb (fun t => TicketCard.isFullWinner t (list_to_set [7]))
            [blankTicket [[0; 7]; [7]]]
  /\ App.hasWinner [blankTicket []] [7] = true
  /\ TicketCard.isFullWinner (blankTicket []) (list_to_set [7]) = false.
Proof.
  split; [|by vm_compute].
  apply banner_matches_cards. by repeat constructor.
Defined.

Lemma unreadRow_incomplete (drawn : gset Z) (row : list Z) :
  unreadRow row ->
  existsb (fun cell => 0 <? cell) row
  && forallb (fun cell => (cell =? 0) || bool_decide (cell ∈ drawn)) row = false.
Proof.
  intros Hrow. replace (existsb _ row) with false; [done|].
  symmetry. induction Hrow as [|n l Hn _ IH]; [done|]. cbn [existsb].
  rewrite IH. by replace (0 <? n) with false by lia.
Qed.

(** X24: a scan error is never a win: as long as every ticket has a row
    without a positive number (a row the scanner read nothing in), no card
    is a full winner and the banner stays off, whatever has been drawn. *)
Theorem unread_row_never_wins (tickets : list Types.BingoTicket)
    (drawnNumbers : list Z) :
  Forall (fun t => exists row, row ∈ Types.rows t /\ unreadRow row) tickets ->
  App.hasWinner tickets drawnNumbers = false
  /\ Forall (fun t => TicketCard.isFullWinner t (list_to_set drawnNumbers) = false)
            tickets.
Proof.
  intros Hall.
  assert (Hrows : forall t, (exists row, row ∈ Types.rows t /\ unreadRow row) ->
            forallb (fun row =>
              existsb (fun cell => 0 <? cell) row
              && forallb (fun cell => (cell =? 0)
                            || bool_decide (cell ∈ (list_to_set drawnNumbers : gset Z)))
                         row)
              (Types.rows t) = false).
  { intros t (row & Hin & Hrow). apply not_true_is_false. intros Hall'.
    rewrite forallb_forall in Hall'. apply list_elem_of_In in Hin.
    specialize (Hall' row Hin). by rewrite unreadRow_incomplete in Hall'. }
  split.
  - unfold App.hasWinner. induction Hall as [|t l Ht _ IH]; [done|].
    cbn [existsb]. by rewrite IH, Hrows.
  - eapply Forall_impl; [exact Hall|]. intros t Ht.
    unfold TicketCard.isFullWinner. rewrite rowStatus_forallb, Hrows by done.
    apply andb_false_r.
Qed.

(** The theorem at a ticket whose middle row is blank. *)
Lemma unread_row_never_wins_witness :
  App.hasWinner [blankTicket [[3; 0]; [0; 0]; [5; 9]]] [3; 5; 9] = false.
Proof.
  apply unread_row_never_wins. apply Forall_singleton. exists [0; 0].
  split; [|by repeat constructor].
  cbn [blankTicket Types.rows]. apply elem_of_cons. right. apply elem_of_cons. by left.
Defined.

Lemma rowComplete_mono (drawn drawn' : gset Z) (row : list Z) :
  drawn ⊆ drawn' ->
  forallb (fun cell => (cell =? 0) || bool_decide (cell ∈ drawn)) row = true ->
  forallb (fun cell => (cell =? 0) || bool_decide (cell ∈ drawn')) row = true.
Proof.
  intros Hsub. rewrite !forallb_forall. intros Hrow cell Hin.
  specialize (Hrow cell Hin). apply orb_true_iff in Hrow as [H0|Hd].
  - by rewrite H0.
  - apply bool_decide_eq_true in Hd. apply orb_true_iff. right.
    apply bool_decide_eq_true. by apply Hsub.
Qed.

(** X25: drawing a number never takes a win away: if the banner shows, it
    still shows after [handleAddNumber]. *)
Theorem drawing_keeps_wins (tickets : list Types.BingoTicket)
    (drawnNumbers : list Z) (num : Z) :
  App.hasWinner tickets drawnNumbers = true ->
  App.hasWinner tickets (App.handleAddNumber drawnNumbers num) = true.
Proof.
  unfold App.hasWinner. rewrite !existsb_exists.
  intros (t & Hin & Ht). exists t. split; [done|].
  rewrite forallb_forall in Ht |- *. intros row Hrow.
  specialize (Ht row Hrow). apply andb_true_iff in Ht as [Hnum Hdrawn].
  rewrite Hnum. cbn [andb].
  eapply rowComplete_mono; [|exact Hdrawn].
  unfold App.handleAddNumber. destruct (bool_decide _); [done|].
  rewrite list_to_set_app. set_solver.
Qed.

(** The theorem at a winning ticket and the number 8. *)
Lemma drawing_keeps_wins_witness :
  App.hasWinner [blankTicket [[0; 7]; [7]]] (App.handleAddNumber [7] 8) = true.
Proof. apply drawing_keeps_wins. by vm_compute. Defined.

Lemma dropLast_sublist {A : Type} (l : list A) : sublist (dropLast l) l.
Proof. unfold dropLast. apply sublist_take. Qed.

Lemma filter_sublist {A : Type} (p : A -> bool) (l : list A) :
  sublist (List.filter p l) l.
Proof.
  induction l as [|x l IH]; [done|]. cbn [List.filter].
  destruct (p x); [by apply sublist_skip|by apply sublist_cons].
Qed.

Lemma Forall_sublist {A : Type} (P : A -> Prop) (l k : list A) :
  sublist l k -> Forall P k -> Forall P l.
Proof.
  induction 1 as [|x l k _ IH|x l k _ IH]; intros Hk; [done| |].
  - apply Forall_cons in Hk as [Hx Hk]. constructor; [done|by apply IH].
  - apply Forall_cons in Hk as [_ Hk]. by apply IH.
Qed.

(** X26: whatever the user submits, undoes, removes or resets, the list of
    drawn numbers holds no number twice and only numbers from 1 to 99. *)
Theorem drawn_numbers_invariant (events : list DrawEvent) :
  let drawnNumbers := fold_left drawStep events [] in
  NoDup drawnNumbers /\ Forall (fun n => 1 <= n <= 99) drawnNumbers.
Proof.
  cbv zeta.
  apply (fold_left_Forall_inv
           (fun d => NoDup d /\ Forall (fun n => 1 <= n <= 99) d)
           (fun _ => True)); [by apply Forall_true| |by split; constructor].
  intros e d _ [Hnd Hall].
  assert (Hsub : forall d', sublist d' d ->
                   NoDup d' /\ Forall (fun n => 1 <= n <= 99) d').
  { intros d' Hd'. split; [by eapply sublist_NoDup|by eapply Forall_sublist]. }
  destruct e as [num| |n|]; cbn [drawStep].
  - unfold NumberInput.handleSubmit. destruct num as [n|]; [|done].
    destruct ((0 <? n) && (n <=? 99)) eqn:Hn; [|done].
    unfold App.handleAddNumber. destruct (bool_decide (n ∈ d)) eqn:Hin; [done|].
    apply bool_decide_eq_false in Hin. split.
    + apply NoDup_app. split; [done|]. split; [|apply NoDup_singleton].
      intros x Hx Hx'. apply list_elem_of_singleton in Hx'. by subst.
    + apply Forall_app. split; [done|]. apply Forall_singleton. lia.
  - apply Hsub, dropLast_sublist.
  - apply Hsub, filter_sublist.
  - split; constructor.
Qed.

Lemma addTickets_ids (newTickets prev : list Types.BingoTicket) (s : string) :
  s ∈ map Types.id (App.addTickets newTickets prev)
  <-> s ∈ map Types.id prev \/ s ∈ map Types.id newTickets.
Proof.
  unfold App.addTickets. rewrite map_app, elem_of_app. split.
  - intros [Hp|Hn]; [by left|right].
    apply list_elem_of_In, in_map_iff in Hn as (t & <- & Ht).
    apply filter_In in Ht as [Ht _].
    apply list_elem_of_In, in_map_iff. by exists t.
  - intros [Hp|Hn]; [by left|].
    destruct (decide (s ∈ map Types.id prev)) as [Hin|Hnot]; [by left|right].
    apply list_elem_of_In, in_map_iff in Hn as (t & <- & Ht).
    apply list_elem_of_In, in_map_iff. exists t. split; [done|].
    apply filter_In. split; [done|]. apply negb_true_iff, bool_decide_eq_false.
    by rewrite elem_of_list_to_set.
Qed.

(** X27: scanning a sheet again adds nothing: tickets whose identifiers
    were all in an earlier scan leave the list as that scan left it. *)
Theorem rescan_adds_nothing (prev newTickets again : list Types.BingoTicket) :
  (forall t, t ∈ again -> Types.id t ∈ map Types.id newTickets) ->
  App.addTickets again (App.addTickets newTickets prev)
  = App.addTickets newTickets prev.
Proof.
  intros Hsame. unfold App.addTickets at 1.
  rewrite filter_none; [apply app_nil_r|].
  intros t Ht. apply negb_false_iff, bool_decide_eq_true.
  rewrite elem_of_list_to_set. apply addTickets_ids. right. by apply Hsame.
Qed.

(** The theorem at two scans of the ticket 160/400. *)
Lemma rescan_adds_nothing_witness :
  App.addTickets (scanned "k2") (App.addTickets (scanned "k1") [])
  = App.addTickets (scanned "k1") [].
Proof.
  apply rescan_adds_nothing. intros t Ht.
  apply list_elem_of_singleton in Ht. subst t.
  apply list_elem_of_singleton. reflexivity.
Defined.

Lemma NoDup_map_filter {A B : Type} (f : A -> B) (p : A -> bool) (l : list A) :
  NoDup (map f l) -> NoDup (map f (List.filter p l)).
Proof.
  induction l as [|a l IH]; [done|]. cbn [map List.filter]. intros Hnd.
  apply NoDup_cons in Hnd as [Ha Hnd]. destruct (p a); [|by apply IH].
  cbn [map]. apply NoDup_cons. split; [|by apply IH].
  intros Hin. apply Ha.
  apply list_elem_of_In, in_map_iff in Hin as (b & Hb & Hin).
  apply filter_In in Hin as [Hin _].
  apply list_elem_of_In, in_map_iff. by exists b.
Qed.

(** X28: if the identifiers of the list are pairwise distinct and so are
    those of a scan, the identifiers of the merged list are pairwise
    distinct; the merge appends a sublist of the scan to the list. *)
Theorem merge_keeps_ids_unique (prev newTickets : list Types.BingoTicket) :
  NoDup (map Types.id prev) -> NoDup (map Types.id newTickets) ->
  NoDup (map Types.id (App.addTickets newTickets prev))
  /\ exists added, App.addTickets newTickets prev = prev ++ added
                   /\ sublist added newTickets.
Proof.
  intros Hprev Hnew. split.
  - unfold App.addTickets. rewrite map_app. apply NoDup_app.
    split; [done|]. split.
    + intros s Hs Hs'.
      apply list_elem_of_In, in_map_iff in Hs' as (t & <- & Ht).
      apply filter_In in Ht as [_ Ht].
      apply negb_true_iff, bool_decide_eq_false in Ht.
      by rewrite elem_of_list_to_set in Ht.
    + by apply NoDup_map_filter.
  - eexists. split; [reflexivity|]. apply filter_sublist.
Qed.

(** The theorem at the list and the scan of the ticket 160/400. *)
Lemma merge_keeps_ids_unique_witness :
  NoDup (map Types.id (App.addTickets (scanned "k2") (scanned "k1"))).
Proof.
  apply (merge_keeps_ids_unique (scanned "k1") (scanned "k2"));
    apply NoDup_singleton.
Defined.

Lemma dropLast_snoc {A : Type} (l : list A) (x : A) :
  dropLast (l ++ [x]) = l.
Proof.
  unfold dropLast. rewrite length_app. cbn [length].
  replace (length l + 1 - 1)%nat with (length l) by lia.
  by rewrite take_app_length.
Qed.

(** X29: on a grid whose rows are not empty, removing a column undoes adding
    one, and removing a column never empties a row.  (An empty row is the
    exception: it keeps the added cell.) *)
Theorem remove_undoes_add_column (editGrid : list (list Z)) :
  Forall (fun row => row <> []) editGrid ->
  TicketCard.removeColumn (TicketCard.addColumn editGrid) = editGrid
  /\ Forall (fun row => row <> []) (TicketCard.removeColumn editGrid).
Proof.
  intros Hrows. split.
  - unfold TicketCard.removeColumn, TicketCard.addColumn.
    rewrite map_map. rewrite <- (map_id editGrid) at 2.
    apply map_ext_Forall. eapply Forall_impl; [exact Hrows|].
    intros row Hrow. cbv beta. rewrite length_app. cbn [length].
    destruct row as [|c row]; [done|]. cbn [length].
    replace (1 <? S (length row) + 1)%nat with true
      by (symmetry; apply Nat.ltb_lt; lia).
    apply dropLast_snoc.
  - unfold TicketCard.removeColumn. apply Forall_fmap.
    eapply Forall_impl; [exact Hrows|]. intros row Hrow. unfold compose.
    destruct (1 <? length row)%nat eqn:Hlen; [|done].
    apply Nat.ltb_lt in Hlen. unfold dropLast.
    destruct row as [|a [|b row]]; simpl in *; [lia|lia|done].
Qed.

(** The theorem at a grid of two rows, and the exception. *)
Lemma remove_undoes_add_column_witness :
  TicketCard.removeColumn (TicketCard.addColumn [[1; 0]; [7]]) = [[1; 0]; [7]]
  /\ TicketCard.removeColumn (TicketCard.addColumn [[]]) = [[0]].
Proof.
  split; [|reflexivity].
  apply (remove_undoes_add_column [[1; 0]; [7]]). by repeat constructor.
Defined.

(** X30: a scan only appends: however the analysis ends, the tickets so far
    stay in place, and what is added has identifiers the list did not hold.
    A failed analysis or one without results adds nothing and sets the error
    message; otherwise the message is left as it is and the added
    identifiers are, in order, among those of the results. *)
Theorem scan_only_appends (generateId : nat -> string) (outcome : Outcome)
    (tickets : list Types.BingoTicket) (error : option string) :
  let st' := App.confirmAndAnalyze generateId outcome (tickets, error) in
  exists added,
    fst st' = tickets ++ added
    /\ Forall (fun t => Types.id t ∉ map Types.id tickets) added
    /\ match outcome with
       | Throws _ => added = [] /\ snd st' <> None
       | Returns resp =>
           (results resp = [] -> added = [] /\ snd st' <> None)
           /\ (results resp <> [] ->
               snd st' = error
               /\ sublist (map Types.id added) (map ticketId (results resp)))
       end.
Proof.
  cbv zeta. unfold App.confirmAndAnalyze. destruct outcome as [msg|resp].
  - exists []. cbn [fst snd]. rewrite app_nil_r. by repeat split.
  - destruct (results resp) as [|res rest] eqn:Hres.
    + exists []. cbn [length Nat.eqb fst snd]. rewrite app_nil_r. by repeat split.
    + cbn [length Nat.eqb fst snd]. unfold App.addTickets.
      eexists. split; [reflexivity|]. split; [|split; [done|]].
      * apply Forall_forall. intros t Ht.
        apply list_elem_of_In, filter_In in Ht as [_ Ht].
        apply negb_true_iff, bool_decide_eq_false in Ht.
        by rewrite elem_of_list_to_set in Ht.
      * intros _. split; [done|].
        set (new := App.newTicketsOf generateId (res :: rest)).
        assert (Hids : map Types.id new = map ticketId (res :: rest)).
        { subst new. unfold App.newTicketsOf. generalize (res :: rest).
          intros l. revert generateId.
          induction l as [|r l IH]; intros generateId; [done|].
          cbn [imap map Types.id]. f_equal. apply (IH (generateId ∘ S)). }
        rewrite <- Hids. generalize new. intros l.
        induction l as [|t l IH]; [done|]. cbn [List.filter map].
        destruct (negb _); [by apply sublist_skip|by apply sublist_cons].
Qed.
